(** * FIO currency engine (src/fio/fioEngine.js): a shallow embedding

    The engine is a JavaScript class whose methods mutate one wallet object
    and talk to remote nodes.  The embedding threads the engine state
    explicitly, models thrown exceptions as a result type, and records the
    observable effects (remote calls, callbacks, calls of inherited
    methods) in a trace.  Amounts stay decimal strings, as in the code, and
    the biggystring operations [bns.*] are modelled as exact decimal
    arithmetic on them.  Logging ([this.log], [console.*]) is not modelled. *)

From Stdlib Require Import ZArith QArith Qabs Lia String Ascii List Sorted.
From stdpp Require Import base gmap strings list.

Local Open Scope Z_scope.
Set Warnings "-register-all".

(* ===================================================================== *)
(** ** Decimal strings and the biggystring operations                     *)
(* ===================================================================== *)

Module Bns.

(** A decimal number [mant / 10^scale]. *)
Record dec := Dec { mant : Z; scale : nat }.

Definition pow10 (k : nat) : Z := 10 ^ Z.of_nat k.

(** The rational a decimal stands for. *)
Definition dec_value (d : dec) : Q := (mant d # Z.to_pos (pow10 (scale d)))%Q.

(** Digits are the character codes 48 to 57. *)
Definition digit_of_ascii (c : ascii) : option Z :=
  let code := Z.of_N (N_of_ascii c) in
  if (48 <=? code) && (code <=? 57) then Some (code - 48) else None.

Definition ascii_of_digit (d : Z) : ascii := ascii_of_N (Z.to_N (48 + d)).

Definition is_digit (c : ascii) : Prop := is_Some (digit_of_ascii c).

(** Reading a run of digits, most significant first, onto [acc]. *)
Fixpoint parse_digits (l : list ascii) (acc : Z) : option Z :=
  match l with
  | [] => Some acc
  | c :: r =>
      match digit_of_ascii c with
      | Some d => parse_digits r (10 * acc + d)
      | None => None
      end
  end.

(** Cutting a string at its first point. *)
Fixpoint split_dot (l : list ascii) : list ascii * option (list ascii) :=
  match l with
  | [] => ([], None)
  | c :: r =>
      if Ascii.eqb c "."%char then ([], Some r)
      else let '(a, b) := split_dot r in (c :: a, b)
  end.

(** An unsigned decimal: one or more digits, then optionally a point and
    further digits. *)
Definition parse_unsigned (l : list ascii) : option dec :=
  match split_dot l with
  | ([], _) => None
  | (i, None) =>
      match parse_digits i 0 with
      | Some m => Some (Dec m 0)
      | None => None
      end
  | (i, Some f) =>
      match parse_digits i 0 with
      | Some m =>
          match parse_digits f m with
          | Some m' => Some (Dec m' (length f))
          | None => None
          end
      | None => None
      end
  end.

Definition dec_opp (d : dec) : dec := Dec (- mant d) (scale d).
Definition dec_abs (d : dec) : dec := Dec (Z.abs (mant d)) (scale d).

(** Both operands brought to the larger number of decimals, as biggystring
    does before it hands them to its integer arithmetic. *)
Definition align (a b : dec) : Z * Z * nat :=
  let s := Nat.max (scale a) (scale b) in
  (mant a * pow10 (s - scale a), mant b * pow10 (s - scale b), s).

Definition dec_add (a b : dec) : dec :=
  let '(x, y, s) := align a b in Dec (x + y) s.
Definition dec_sub (a b : dec) : dec :=
  let '(x, y, s) := align a b in Dec (x - y) s.
Definition dec_eqb (a b : dec) : bool :=
  let '(x, y, _) := align a b in x =? y.
Definition dec_gtb (a b : dec) : bool :=
  let '(x, y, _) := align a b in x >? y.

(** A decimal string: an unsigned decimal, or one after a minus sign. *)
Definition parse_chars (l : list ascii) : option dec :=
  match l with
  | c :: r =>
      if Ascii.eqb c "-"%char then option_map dec_opp (parse_unsigned r)
      else parse_unsigned l
  | [] => None
  end.

(** The decimal a string denotes; [None] where biggystring has no decimal
    reading of it. *)
Definition parse (s : string) : option dec :=
  parse_chars (list_ascii_of_string s).

(** Digits of a non-negative integer, most significant first. *)
Fixpoint digits_fuel (fuel : nat) (n : Z) : list ascii :=
  match fuel with
  | O => [ascii_of_digit (n mod 10)]
  | S f =>
      if n <? 10 then [ascii_of_digit n]
      else digits_fuel f (n / 10) ++ [ascii_of_digit (n mod 10)]
  end.

Definition digits_of (n : Z) : list ascii :=
  digits_fuel (Z.to_nat (Z.log2 n)) n.

(** Trailing zeros of the fraction are dropped. *)
Fixpoint normalize (m : Z) (k : nat) : Z * nat :=
  match k with
  | O => (m, O)
  | S k' => if m mod 10 =? 0 then normalize (m / 10) k' else (m, k)
  end.

Definition pad_zeros (k : nat) (l : list ascii) : list ascii :=
  replicate (k - length l) "0"%char ++ l.

Definition print_unsigned (m : Z) (k : nat) : list ascii :=
  match k with
  | O => digits_of m
  | S _ =>
      let ds := pad_zeros (S k) (digits_of m) in
      take (length ds - k) ds ++ "."%char :: drop (length ds - k) ds
  end.

Definition print_chars (d : dec) : list ascii :=
  let '(m, k) := normalize (mant d) (scale d) in
  if m <? 0 then "-"%char :: print_unsigned (- m) k
  else print_unsigned m k.

(** The canonical string of a decimal. *)
Definition print (d : dec) : string := string_of_list_ascii (print_chars d).

Definition of_Z (n : Z) : dec := Dec n 0.

(** Number-to-string conversion of an integral JavaScript number
    ([n.toString()], [`${n}`], [n + '']). *)
Definition Z_to_string (n : Z) : string := print (of_Z n).

End Bns.

(** Modelled from the spec: the biggystring library [bns] is an external
    collaborator (spec section 6: exact add, sub and compare over
    decimal-string amounts).  Each operation reads its operands as
    decimals, fails ([None], a thrown error in the library) on a string
    that is not one, and returns a canonical decimal string or a boolean. *)
Definition bns_add (x y : string) : option string :=
  match Bns.parse x, Bns.parse y with
  | Some a, Some b => Some (Bns.print (Bns.dec_add a b))
  | _, _ => None
  end.

Definition bns_sub (x y : string) : option string :=
  match Bns.parse x, Bns.parse y with
  | Some a, Some b => Some (Bns.print (Bns.dec_sub a b))
  | _, _ => None
  end.

Definition bns_abs (x : string) : option string :=
  match Bns.parse x with
  | Some a => Some (Bns.print (Bns.dec_abs a))
  | None => None
  end.

Definition bns_eq (x y : string) : option bool :=
  match Bns.parse x, Bns.parse y with
  | Some a, Some b => Some (Bns.dec_eqb a b)
  | _, _ => None
  end.

Definition bns_gt (x y : string) : option bool :=
  match Bns.parse x, Bns.parse y with
  | Some a, Some b => Some (Bns.dec_gtb a b)
  | _, _ => None
  end.

(** A string denotes the rational [v]. *)
Definition denotes (s : string) (v : Q) : Prop :=
  exists d, Bns.parse s = Some d /\ (Bns.dec_value d == v)%Q.

(** A string is the canonical writing of the decimal it denotes. *)
Definition canonical (s : string) : Prop :=
  exists d, Bns.parse s = Some d /\ Bns.print d = s.

(** A string is an unsigned decimal and denotes [v]. *)
Definition denotes_unsigned (s : string) (v : Q) : Prop :=
  exists d, Bns.parse_unsigned (list_ascii_of_string s) = Some d /\
            (Bns.dec_value d == v)%Q.


(* ===================================================================== *)
(** ** JavaScript values, records and the engine state                    *)
(* ===================================================================== *)

(** Untyped JavaScript data: request parameters, error payloads and the
    object literals the engine builds from them. *)
Inductive jsval :=
| JUndefined
| JNull
| JBool (b : bool)
| JNum (n : Z)
| JStr (s : string)
| JObj (props : list (string * jsval))
| JArr (items : list jsval).

Fixpoint assoc (k : string) (props : list (string * jsval)) : option jsval :=
  match props with
  | [] => None
  | (k', v) :: r => if String.eqb k k' then Some v else assoc k r
  end.

(** [o.k]; a missing property reads as [undefined]. *)
Definition get_prop (k : string) (o : jsval) : jsval :=
  match o with
  | JObj props => default JUndefined (assoc k props)
  | _ => JUndefined
  end.

Definition js_truthy (v : jsval) : bool :=
  match v with
  | JUndefined | JNull => false
  | JBool b => b
  | JNum n => negb (n =? 0)
  | JStr s => negb (String.eqb s "")
  | JObj _ | JArr _ => true
  end.

(** [a === b].  Objects and arrays are compared by identity, which these
    values do not carry: two of them count as different, as they are when
    they come from different answers. *)
Definition js_strict_eq (a b : jsval) : bool :=
  match a, b with
  | JUndefined, JUndefined | JNull, JNull => true
  | JBool x, JBool y => Bool.eqb x y
  | JNum x, JNum y => x =? y
  | JStr x, JStr y => String.eqb x y
  | _, _ => false
  end.

(** The values [===] compares by content. *)
Definition js_primitive (v : jsval) : bool :=
  match v with
  | JObj _ | JArr _ => false
  | _ => true
  end.

(** [v.k] for the property names the engine reads off answers: reading a
    property of [undefined] or [null] raises a TypeError ([None]); a
    number, a string, a boolean or an array has none of these
    properties. *)
Definition js_member (k : string) (v : jsval) : option jsval :=
  match v with
  | JUndefined | JNull => None
  | _ => Some (get_prop k v)
  end.

(** The characters of a string as [for ... of] yields them, one per code
    point of its UTF-8 bytes. *)
Fixpoint utf8_chars (l : list ascii) (cur : list ascii) : list string :=
  match l with
  | [] =>
      match cur with
      | [] => []
      | _ => [string_of_list_ascii (rev cur)]
      end
  | c :: r =>
      let continuation := (N.land (N_of_ascii c) 192 =? 128)%N in
      if continuation then utf8_chars r (c :: cur)
      else
        match cur with
        | [] => utf8_chars r [c]
        | _ => string_of_list_ascii (rev cur) :: utf8_chars r [c]
        end
  end.

(** The values [for (const x of v)] runs over; [None] where [v] is not
    iterable and the loop raises a TypeError. *)
Definition js_iterate (v : jsval) : option (list jsval) :=
  match v with
  | JArr items => Some items
  | JStr s => Some (map JStr (utf8_chars (list_ascii_of_string s) []))
  | _ => None
  end.

(** [String(v)]. *)
Fixpoint js_to_string (v : jsval) : string :=
  match v with
  | JUndefined => "undefined"
  | JNull => "null"
  | JBool true => "true"
  | JBool false => "false"
  | JNum n => Bns.Z_to_string n
  | JStr s => s
  | JObj _ => "[object Object]"
  | JArr items =>
      let item v :=
        match v with
        | JUndefined | JNull => ""%string
        | _ => js_to_string v
        end in
      (fix join (l : list jsval) : string :=
         match l with
         | [] => ""%string
         | [x] => item x
         | x :: r => (item x ++ "," ++ join r)%string
         end) items
  end.

(** [new Error(m).message]: an omitted ([undefined]) message leaves the
    prototype's empty string. *)
Definition Error_message (m : jsval) : string :=
  match m with
  | JUndefined => ""
  | _ => js_to_string m
  end.

(** [l.indexOf(x)]. *)
Fixpoint indexOf_from (x : Z) (l : list Z) (i : Z) : Z :=
  match l with
  | [] => -1
  | y :: r => if y =? x then i else indexOf_from x r (i + 1)
  end.
Definition indexOf (l : list Z) (x : Z) : Z := indexOf_from x l 0.

Definition ADDRESS_POLL_MILLISECONDS : Z := 10000.
Definition BLOCKCHAIN_POLL_MILLISECONDS : Z := 15000.
Definition TRANSACTION_POLL_MILLISECONDS : Z := 10000.
Definition fioApiErrorCodes : list Z := [400; 403; 404].

(** [type FioTransactionSuperNode]. *)
Record FioTransactionSuperNode := {
  block_height : Z;
  block_time : string;
  payer : string;
  payee : string;
  payee_public_key : string;
  transfer_amount : Z;
  fee_amount : Z;
  transaction_total : Z;
  notes : string;
  action : string;
  tpid : string;
  transaction_id : string
}.

(** What the engine reads off an error thrown by an SDK call or a fetch;
    [errorCode] is [None] where the error carries none. *)
Record SdkError := {
  e_errorCode : option Z;
  e_message : string;
  e_json : jsval;
  e_list : jsval
}.

(** [class FioError extends Error]. *)
Record FioError := {
  fe_name : string;
  fe_message : string;
  fe_list : jsval;
  fe_errorCode : jsval;
  fe_json : jsval
}.

(** Seconds since the epoch, kept symbolic: [Date.parse(s) / 1000],
    [Date.now() / 1000] and the literal [0]. *)
Inductive JsDate :=
| DateZero
| DateParseSeconds (block_time : string)
| DateNowSeconds.

Record Authorization := { actor : string; permission : string }.
Record ActionData := {
  data_from : string; data_to : string;
  data_quantity : string; data_memo : string
}.
Record TxAction := {
  act_account : string;
  act_name : string;
  act_authorization : list Authorization;
  act_data : ActionData
}.
Record TransactionJson := { actions : list TxAction }.
Record OtherParams := { transactionJson : option TransactionJson }.
Record Metadata := { md_name : string; md_notes : string }.

(** [EdgeTransaction], with the fields the engine writes. *)
Record EdgeTransaction := {
  txid : string;
  date : JsDate;
  currencyCode : string;
  blockHeight : Z;
  nativeAmount : string;
  networkFee : string;
  parentNetworkFee : option string;
  ourReceiveAddresses : list string;
  signedTx : string;
  otherParams : option OtherParams;
  metadata : option Metadata
}.

Record EdgeSpendTarget := { publicAddress : string; st_nativeAmount : string }.
Record EdgeSpendInfo := {
  si_currencyCode : option string;
  spendTargets : list EdgeSpendTarget
}.

Record RemoteFioAddress := { fio_address : string; ra_expiration : string }.
Record RemoteFioDomain := {
  fio_domain : string; rd_expiration : string; is_public : Z
}.

(** The responses the engine consumes, by shape.  The SDK types them
    [any]: [ROther v] is an answer [v] of none of the shapes, and a
    property that the answer at hand does not have reads as [undefined],
    which the engine stores like any other value.  [ExTypeError] is the
    TypeError JavaScript itself raises: a property read off [undefined]
    or [null], a loop over a value that is not iterable. *)
Inductive Response :=
| RChainInfo (head_block_num : Z)
| RFee (fee : Z)
| RFioBalance (balance : Z)
| RFioNames (fio_addresses : list RemoteFioAddress)
            (fio_domains : list RemoteFioDomain)
| RTransferTokens (transaction_id : string) (block_num : Z)
| RActions (account_action_seqs : list Z)
| RTransfers (transfers : list FioTransactionSuperNode)
| ROther (v : jsval)
| RApiError (wrapper : jsval).

(** A typed answer as the JavaScript object it is. *)
Definition transfer_object (t : FioTransactionSuperNode) : jsval :=
  JObj [("block_height", JNum (block_height t));
        ("block_time", JStr (block_time t));
        ("payer", JStr (payer t));
        ("payee", JStr (payee t));
        ("payee_public_key", JStr (payee_public_key t));
        ("transfer_amount", JNum (transfer_amount t));
        ("fee_amount", JNum (fee_amount t));
        ("transaction_total", JNum (transaction_total t));
        ("notes", JStr (notes t));
        ("action", JStr (action t));
        ("tpid", JStr (tpid t));
        ("transaction_id", JStr (transaction_id t))]%string.

Definition resp_object (res : Response) : jsval :=
  match res with
  | RChainInfo head_block_num =>
      JObj [("head_block_num", JNum head_block_num)]%string
  | RFee fee => JObj [("fee", JNum fee)]%string
  | RFioBalance balance => JObj [("balance", JNum balance)]%string
  | RFioNames fio_addresses fio_domains =>
      JObj [("fio_addresses",
             JArr (map (fun a =>
                          JObj [("fio_address", JStr (fio_address a));
                                ("expiration", JStr (ra_expiration a))])
                     fio_addresses));
            ("fio_domains",
             JArr (map (fun d =>
                          JObj [("fio_domain", JStr (fio_domain d));
                                ("expiration", JStr (rd_expiration d));
                                ("is_public", JNum (is_public d))])
                     fio_domains))]%string
  | RTransferTokens transaction_id block_num =>
      JObj [("transaction_id", JStr transaction_id);
            ("block_num", JNum block_num)]%string
  | RActions account_action_seqs =>
      JObj [("actions",
             JArr (map (fun n => JObj [("account_action_seq", JNum n)])
                     account_action_seqs))]%string
  | RTransfers transfers =>
      JObj [("transfers", JArr (map transfer_object transfers))]%string
  | ROther v => v
  | RApiError wrapper => wrapper
  end.

(** [res.k], for a property the engine reads off an answer whatever its
    shape. *)
Definition resp_member (k : string) (res : Response) : option jsval :=
  js_member k (resp_object res).

(** What one attempt against one node does. *)
Inductive Outcome :=
| Returns (r : Response)
| Throws (e : SdkError).

Inductive Exn :=
| ExSdk (e : SdkError)
| ExFio (e : FioError)
| ExAllEndpointsFailed (errors : list Exn)
| ExInsufficientFunds
| ExError (msg : string)
| ExTypeError
| ExBns.

Inductive Result (A : Type) :=
| Ok (a : A)
| Throw (e : Exn).
Arguments Ok {A} a.
Arguments Throw {A} e.

(** The entries of the two name lists.  The engine stores the name and
    the expiration as they come, checked nowhere; [isPublic] is only ever
    written as [!!is_public]. *)
Record FioAddress := { fa_name : jsval; fa_expiration : jsval }.
Record FioDomain := {
  fd_name : jsval; fd_expiration : jsval; fd_isPublic : bool
}.

(** [walletLocalData.otherData]. *)
Record OtherData := {
  highestTxHeight : Z;
  feeTransactions : list jsval;
  fioAddresses : list FioAddress;
  fioDomains : list FioDomain
}.

Record WalletLocalData := {
  wl_blockHeight : jsval;
  totalBalances : gmap string string;
  otherData : OtherData
}.

Record Keys := { publicKey : string; fioKey : string }.

(** Effects visible outside the engine object. *)
Inductive Event :=
| EvSdkCall (apiUrl actionName : string) (params : jsval)
| EvFetch (url : string) (body : jsval)
| EvOnBalanceChanged (tk balance : string)
| EvOnBlockHeightChanged (h : jsval)
| EvOnTransactionsChanged (txs : list EdgeTransaction)
| EvAddTransaction (cc : string) (tx : EdgeTransaction)
| EvInherited (method : string).

(** The engine object. *)
Record Engine := {
  walletLocalData : WalletLocalData;
  walletLocalDataDirty : bool;
  keys : Keys;
  tokenCheckBalanceStatus : gmap string Z;
  tokenCheckTransactionsStatus : gmap string Z;
  transactionList : gmap string (list EdgeTransaction);
  transactionsChangedArray : list EdgeTransaction;
  trace : list Event
}.

(** [defaultSettings.historyNodeActions]: the request names of the
    history nodes, each [None] where the property is missing. *)
Record HistoryNodeActions := {
  getActions : option string;
  getTransfers : option string
}.

(** Settings, SDK helpers and the remote nodes: everything the engine
    reads but does not own.  [historyNodeActions] is [None] where the
    settings have no such property, as the default settings of the FIO
    currency info.
    [getChainInfo], [genericAction] and [fetchCors] say what an attempt
    against a given node yields. *)
Record Env := {
  apiUrls : list string;
  historyNodeUrls : list string;
  historyNodeActions : option HistoryNodeActions;
  info_currencyCode : string;
  EndPoint_transferTokens : jsval;
  getActor : string -> string;
  getChainInfo : string -> Outcome;
  genericAction : string -> string -> jsval -> Outcome;
  fetchCors : string -> jsval -> Outcome
}.

(* ===================================================================== *)
(** ** Computations on the engine                                         *)
(* ===================================================================== *)

(** A method body: it may change the engine and either returns or throws;
    what it changed before throwing stays changed. *)
Definition M (A : Type) : Type := Engine -> Engine * Result A.

Definition ret {A} (a : A) : M A := fun st => (st, Ok a).
Definition throw {A} (e : Exn) : M A := fun st => (st, Throw e).
Definition bind {A B} (m : M A) (k : A -> M B) : M B :=
  fun st =>
    match m st with
    | (st', Ok a) => k a st'
    | (st', Throw e) => (st', Throw e)
    end.
(** [try { m } catch (e) { h e }]. *)
Definition try_catch {A} (m : M A) (h : Exn -> M A) : M A :=
  fun st =>
    match m st with
    | (st', Ok a) => (st', Ok a)
    | (st', Throw e) => h e st'
    end.
(** A state change that cannot fail. *)
Definition modify (f : Engine -> Engine) : M unit := fun st => (f st, Ok tt).

Notation "'let!' x ':=' m 'in' k" := (bind m (fun x => k))
  (at level 10, x pattern, m at level 100, k at level 200).

(** *** Field updates *)

Definition set_otherData (f : OtherData -> OtherData) (st : Engine) : Engine :=
  let w := walletLocalData st in
  {| walletLocalData :=
       {| wl_blockHeight := wl_blockHeight w;
          totalBalances := totalBalances w;
          otherData := f (otherData w) |};
     walletLocalDataDirty := walletLocalDataDirty st;
     keys := keys st;
     tokenCheckBalanceStatus := tokenCheckBalanceStatus st;
     tokenCheckTransactionsStatus := tokenCheckTransactionsStatus st;
     transactionList := transactionList st;
     transactionsChangedArray := transactionsChangedArray st;
     trace := trace st |}.

Definition set_highestTxHeight (h : Z) : Engine -> Engine :=
  set_otherData (fun o =>
    {| highestTxHeight := h;
       feeTransactions := feeTransactions o;
       fioAddresses := fioAddresses o;
       fioDomains := fioDomains o |}).

Definition set_feeTransactions (l : list jsval) : Engine -> Engine :=
  set_otherData (fun o =>
    {| highestTxHeight := highestTxHeight o;
       feeTransactions := l;
       fioAddresses := fioAddresses o;
       fioDomains := fioDomains o |}).

Definition set_fioAddresses (l : list FioAddress) : Engine -> Engine :=
  set_otherData (fun o =>
    {| highestTxHeight := highestTxHeight o;
       feeTransactions := feeTransactions o;
       fioAddresses := l;
       fioDomains := fioDomains o |}).

Definition set_fioDomains (l : list FioDomain) : Engine -> Engine :=
  set_otherData (fun o =>
    {| highestTxHeight := highestTxHeight o;
       feeTransactions := feeTransactions o;
       fioAddresses := fioAddresses o;
       fioDomains := l |}).

Definition set_blockHeight (h : jsval) (st : Engine) : Engine :=
  let w := walletLocalData st in
  {| walletLocalData :=
       {| wl_blockHeight := h;
          totalBalances := totalBalances w;
          otherData := otherData w |};
     walletLocalDataDirty := walletLocalDataDirty st;
     keys := keys st;
     tokenCheckBalanceStatus := tokenCheckBalanceStatus st;
     tokenCheckTransactionsStatus := tokenCheckTransactionsStatus st;
     transactionList := transactionList st;
     transactionsChangedArray := transactionsChangedArray st;
     trace := trace st |}.

Definition set_totalBalance (tk balance : string) (st : Engine) : Engine :=
  let w := walletLocalData st in
  {| walletLocalData :=
       {| wl_blockHeight := wl_blockHeight w;
          totalBalances := <[tk := balance]> (totalBalances w);
          otherData := otherData w |};
     walletLocalDataDirty := walletLocalDataDirty st;
     keys := keys st;
     tokenCheckBalanceStatus := tokenCheckBalanceStatus st;
     tokenCheckTransactionsStatus := tokenCheckTransactionsStatus st;
     transactionList := transactionList st;
     transactionsChangedArray := transactionsChangedArray st;
     trace := trace st |}.

Definition set_tokenCheckBalanceStatus (tk : string) (v : Z) (st : Engine)
  : Engine :=
  {| walletLocalData := walletLocalData st;
     walletLocalDataDirty := walletLocalDataDirty st;
     keys := keys st;
     tokenCheckBalanceStatus := <[tk := v]> (tokenCheckBalanceStatus st);
     tokenCheckTransactionsStatus := tokenCheckTransactionsStatus st;
     transactionList := transactionList st;
     transactionsChangedArray := transactionsChangedArray st;
     trace := trace st |}.

Definition set_tokenCheckTransactionsStatus (tk : string) (v : Z)
  (st : Engine) : Engine :=
  {| walletLocalData := walletLocalData st;
     walletLocalDataDirty := walletLocalDataDirty st;
     keys := keys st;
     tokenCheckBalanceStatus := tokenCheckBalanceStatus st;
     tokenCheckTransactionsStatus :=
       <[tk := v]> (tokenCheckTransactionsStatus st);
     transactionList := transactionList st;
     transactionsChangedArray := transactionsChangedArray st;
     trace := trace st |}.

Definition set_transactionList (l : gmap string (list EdgeTransaction))
  (st : Engine) : Engine :=
  {| walletLocalData := walletLocalData st;
     walletLocalDataDirty := walletLocalDataDirty st;
     keys := keys st;
     tokenCheckBalanceStatus := tokenCheckBalanceStatus st;
     tokenCheckTransactionsStatus := tokenCheckTransactionsStatus st;
     transactionList := l;
     transactionsChangedArray := transactionsChangedArray st;
     trace := trace st |}.

Definition set_transactionsChangedArray (l : list EdgeTransaction)
  (st : Engine) : Engine :=
  {| walletLocalData := walletLocalData st;
     walletLocalDataDirty := walletLocalDataDirty st;
     keys := keys st;
     tokenCheckBalanceStatus := tokenCheckBalanceStatus st;
     tokenCheckTransactionsStatus := tokenCheckTransactionsStatus st;
     transactionList := transactionList st;
     transactionsChangedArray := l;
     trace := trace st |}.

(** One more effect at the end of the trace. *)
Definition emit (ev : Event) (st : Engine) : Engine :=
  {| walletLocalData := walletLocalData st;
     walletLocalDataDirty := walletLocalDataDirty st;
     keys := keys st;
     tokenCheckBalanceStatus := tokenCheckBalanceStatus st;
     tokenCheckTransactionsStatus := tokenCheckTransactionsStatus st;
     transactionList := transactionList st;
     transactionsChangedArray := transactionsChangedArray st;
     trace := trace st ++ [ev] |}.

(** [localDataDirty()]. *)
Definition localDataDirty (st : Engine) : Engine :=
  {| walletLocalData := walletLocalData st;
     walletLocalDataDirty := true;
     keys := keys st;
     tokenCheckBalanceStatus := tokenCheckBalanceStatus st;
     tokenCheckTransactionsStatus := tokenCheckTransactionsStatus st;
     transactionList := transactionList st;
     transactionsChangedArray := transactionsChangedArray st;
     trace := trace st |}.

(** *** Methods inherited from CurrencyEngine (common/engine.js) *)

Definition txs_of (cc : string) (st : Engine) : list EdgeTransaction :=
  default [] (transactionList st !! cc).

Fixpoint find_from (id : string) (l : list EdgeTransaction) (i : Z) : Z :=
  match l with
  | [] => -1
  | t :: r => if String.eqb (txid t) id then i else find_from id r (i + 1)
  end.

(** Modelled from the spec: [CurrencyEngine.findTransaction], absent from
    the sources; section 4.5: [findTransaction(currencyCode, txid)] gives
    the index of the transaction or not-found ([-1]). *)
Definition findTransaction (cc id : string) (st : Engine) : Z :=
  find_from id (txs_of cc st) 0.

(** Modelled from the spec: [CurrencyEngine.addTransaction], absent from
    the sources; section 4.5: append, mark dirty, queue a
    transactions-changed notification.  The call itself is recorded in the
    trace. *)
Definition addTransaction (cc : string) (tx : EdgeTransaction) (st : Engine)
  : Engine :=
  emit (EvAddTransaction cc tx)
    (set_transactionsChangedArray (transactionsChangedArray st ++ [tx])
       (localDataDirty
          (set_transactionList
             (<[cc := txs_of cc st ++ [tx]]> (transactionList st)) st))).

(** Modelled from the spec: [CurrencyEngine.updateOnAddressesChecked] and
    [CurrencyEngine.checkDroppedTransactionsThrottled], absent from the
    sources; the spec gives them no effect on the ledger state, so a call
    only leaves its name in the trace. *)
Definition updateOnAddressesChecked : Engine -> Engine :=
  emit (EvInherited "updateOnAddressesChecked").
Definition checkDroppedTransactionsThrottled : Engine -> Engine :=
  emit (EvInherited "checkDroppedTransactionsThrottled").

(** Modelled from the spec: [CurrencyEngine.clearBlockchainCache], absent
    from the sources; section 4.5, [reset()]: "clears height,
    balances-remain, watermark back to zero, auxiliary lists cleared";
    section 3: the ledger state, whose lists are the addresses and the
    domains, returns to its empty form and the recorded transactions go
    with the reset; every mutation sets the dirty flag.  What the FIO
    engine assigns itself afterwards is in [clearBlockchainCache]
    below. *)
Definition super_clearBlockchainCache (st : Engine) : Engine :=
  emit (EvInherited "clearBlockchainCache")
    (localDataDirty
       (set_transactionList ∅
          (set_fioDomains []
             (set_fioAddresses []
                (set_highestTxHeight 0
                   (set_blockHeight (JNum 0) st)))))).

(** Modelled from the spec: [CurrencyEngine.makeSpend], absent from the
    sources; it hands back the spend request, the balance cached for the
    request's currency (the engine's own currency when the request names
    none; an uncached balance counts as ["0"], as in [updateBalance])
    and that currency code. *)
Definition super_makeSpend (env : Env) (edgeSpendInfoIn : EdgeSpendInfo)
  : M (EdgeSpendInfo * string * string) :=
  fun st =>
    let cc := default (info_currencyCode env) (si_currencyCode edgeSpendInfoIn) in
    let nativeBalance :=
      default "0"%string (totalBalances (walletLocalData st) !! cc) in
    (st, Ok (edgeSpendInfoIn, nativeBalance, cc)).

(** Modelled from the spec: [asyncWaterfall] of common/utils, absent from
    the sources; section 4.1: the attempts are made in list order, the
    first one that completes is the result and no later one is made; when
    every attempt throws, the call fails with the collected errors. *)
Fixpoint asyncWaterfall_from {A} (asyncFuncs : list (M A)) (errors : list Exn)
  : M A :=
  match asyncFuncs with
  | [] => throw (ExAllEndpointsFailed (rev errors))
  | func :: rest =>
      try_catch func (fun e => asyncWaterfall_from rest (e :: errors))
  end.
Definition asyncWaterfall {A} (asyncFuncs : list (M A)) : M A :=
  asyncWaterfall_from asyncFuncs [].

(* ===================================================================== *)
(** ** The FIO engine                                                     *)
(* ===================================================================== *)

(** The object literal an api-node attempt returns in place of a FIO API
    error (lines 505-513). *)
Definition apiErrorWrapper (e : SdkError) : jsval :=
  JObj [("isError", JBool true);
        ("data", JObj [("code", from_option JNum JUndefined (e_errorCode e));
                       ("message", JStr (e_message e));
                       ("json", e_json e);
                       ("list", e_list e)])]%string.

(** [e.errorCode && fioApiErrorCodes.indexOf(e.errorCode) > -1]. *)
Definition isFioApiError (e : SdkError) : bool :=
  match e_errorCode e with
  | Some c => negb (c =? 0) && (indexOf fioApiErrorCodes c >? -1)
  | None => false
  end.

(** The [switch (actionName)] of lines 495-501, against one api node. *)
Definition sdkCall (env : Env) (actionName : string) (params : jsval)
  (apiUrl : string) : Outcome :=
  if String.eqb actionName "getChainInfo" then getChainInfo env apiUrl
  else genericAction env apiUrl actionName params.

(** One closure of the api-node waterfall (lines 482-520). *)
Definition apiAttempt (env : Env) (actionName : string) (params : jsval)
  (apiUrl : string) : M Response :=
  fun st =>
    let st := emit (EvSdkCall apiUrl actionName params) st in
    match sdkCall env actionName params apiUrl with
    | Returns res => (st, Ok res)
    | Throws e =>
        if isFioApiError e then (st, Ok (RApiError (apiErrorWrapper e)))
        else (st, Throw (ExSdk e))
    end.

(** One closure of the history-node waterfall (lines 463-476). *)
Definition historyAttempt (env : Env) (params : jsval) (uri : option string)
  (apiUrl : string) : M Response :=
  fun st =>
    let url := (apiUrl ++ "history/" ++ default "" uri)%string in
    let st := emit (EvFetch url params) st in
    match fetchCors env url params with
    | Returns res => (st, Ok res)
    | Throws e => (st, Throw (ExSdk e))
    end.

(** [res.k] on an answer that is an object. *)
Definition res_prop (k : string) (res : Response) : jsval :=
  get_prop k (resp_object res).

(** The end of [multicastServers] (lines 522-532).  Line 522 reads
    [res.isError] off whatever the api nodes answered, and lines 525-527
    read [res.data.json], [res.data.list] and [res.data.code] off an
    answer that says it is an error. *)
Definition throwIfError (res : Response) : M Response :=
  match resp_member "isError" res with
  | None => throw ExTypeError
  | Some isError =>
      if js_truthy isError then
        match js_member "json" (res_prop "data" res),
              js_member "list" (res_prop "data" res),
              js_member "code" (res_prop "data" res) with
        | Some json, Some list, Some code =>
            throw (ExFio
              {| fe_name := "FioError";
                 fe_message := Error_message (res_prop "errorMessage" res);
                 fe_json := json;
                 fe_list := list;
                 fe_errorCode := code |})
        | _, _, _ => throw ExTypeError
        end
      else ret res
  end.

(** [multicastServers(actionName, params, uri)]. *)
Definition multicastServers (env : Env) (actionName : string) (params : jsval)
  (uri : option string) : M Response :=
  if String.eqb actionName "history" then
    asyncWaterfall (map (historyAttempt env params uri) (historyNodeUrls env))
  else
    let! res := asyncWaterfall
                  (map (apiAttempt env actionName params) (apiUrls env)) in
    throwIfError res.

(** [checkBlockchainInnerLoop()]. *)
Definition checkBlockchainInnerLoop (env : Env) : M unit :=
  try_catch
    (let! info := multicastServers env "getChainInfo" JUndefined None in
     match resp_member "head_block_num" info with
     | Some blockHeight =>
         fun st =>
           if negb (js_strict_eq (wl_blockHeight (walletLocalData st))
                      blockHeight)
           then
             let st := checkDroppedTransactionsThrottled st in
             let st := set_blockHeight blockHeight st in
             let st := localDataDirty st in
             (emit (EvOnBlockHeightChanged
                      (wl_blockHeight (walletLocalData st))) st, Ok tt)
           else (st, Ok tt)
     | None => throw ExTypeError
     end)
    (fun _ => ret tt).

(** [updateBalance(tk, balance)]. *)
Definition updateBalance (tk balance : string) : M unit :=
  fun st =>
    let st :=
      match totalBalances (walletLocalData st) !! tk with
      | None => set_totalBalance tk "0" st
      | Some _ => st
      end in
    let cached :=
      default "0"%string (totalBalances (walletLocalData st) !! tk) in
    match bns_eq balance cached with
    | None => (st, Throw ExBns)
    | Some same =>
        let st :=
          if negb same then
            let st := set_totalBalance tk balance st in
            let st := localDataDirty st in
            emit (EvOnBalanceChanged tk balance) st
          else st in
        let st := set_tokenCheckBalanceStatus tk 1 st in
        (updateOnAddressesChecked st, Ok tt)
    end.

(** [processTransaction(transfer, actor)]. *)
Definition processTransaction (transfer : FioTransactionSuperNode)
  (actor : string) (st : Engine) : Engine * Z :=
  let name := ""%string in
  let currencyCode := "FIO"%string in
  if block_height transfer <=? highestTxHeight (otherData (walletLocalData st))
  then (st, block_height transfer)
  else if negb (String.eqb (action transfer) "trnsfiopubky")
          && negb (String.eqb (action transfer) "transfer")
  then (st, block_height transfer)
  else
    let st :=
      if String.eqb (action transfer) "trnsfiopubky" then
        let nativeAmount := Bns.Z_to_string (transfer_amount transfer) in
        let actorSender := payer transfer in
        let memo :=
          ("Recipient Address: " ++ payee_public_key transfer)%string in
        let '(ourReceiveAddresses, nativeAmount) :=
          if String.eqb (payee_public_key transfer) (publicKey (keys st)) then
            ([publicKey (keys st)],
             if String.eqb actorSender actor then "0"%string else nativeAmount)
          else ([], ("-" ++ nativeAmount)%string) in
        addTransaction currencyCode
          {| txid := transaction_id transfer;
             date := DateParseSeconds (block_time transfer);
             currencyCode := currencyCode;
             blockHeight :=
               if block_height transfer >? 0 then block_height transfer else 0;
             nativeAmount := nativeAmount;
             networkFee := Bns.Z_to_string (fee_amount transfer);
             parentNetworkFee := Some "0"%string;
             ourReceiveAddresses := ourReceiveAddresses;
             signedTx := "";
             otherParams := Some {| transactionJson := None |};
             metadata := Some {| md_name := name; md_notes := memo |} |}
          st
      else st in
    if String.eqb (action transfer) "transfer" then
      let networkFee := Bns.Z_to_string (transfer_amount transfer) in
      let index := findTransaction currencyCode (transaction_id transfer) st in
      if index >? -1 then (st, block_height transfer)
      else
        (addTransaction currencyCode
           {| txid := transaction_id transfer;
              date := DateParseSeconds (block_time transfer);
              currencyCode := currencyCode;
              blockHeight :=
                if block_height transfer >? 0 then block_height transfer else 0;
              nativeAmount := ("-" ++ networkFee)%string;
              networkFee := "0";
              parentNetworkFee := None;
              ourReceiveAddresses := [];
              signedTx := "";
              otherParams := Some {| transactionJson := None |};
              metadata :=
                Some {| md_name := "FIO fee"; md_notes := notes transfer |} |}
           st,
         block_height transfer)
    else (st, block_height transfer).

(** [transfers.sort((a, b) => b.block_height - a.block_height)]: a stable
    sort, larger heights first. *)
Fixpoint insert_desc (x : FioTransactionSuperNode)
  (l : list FioTransactionSuperNode) : list FioTransactionSuperNode :=
  match l with
  | [] => [x]
  | y :: r =>
      if block_height y <=? block_height x then x :: l
      else y :: insert_desc x r
  end.
Definition sort_desc (l : list FioTransactionSuperNode)
  : list FioTransactionSuperNode :=
  foldr insert_desc [] l.

(** The [for] loop over one page (lines 408-421): the candidate watermark
    and whether [finish] got set. *)
Fixpoint processPage (transfers : list FioTransactionSuperNode) (i : Z)
  (actor : string) (newHighestTxHeight : Z) (st : Engine)
  : Engine * Z * bool :=
  match transfers with
  | [] => (st, newHighestTxHeight, false)
  | transfer :: rest =>
      let '(st, blockNum) := processTransaction transfer actor st in
      if blockNum >? newHighestTxHeight then
        processPage rest (i + 1) actor blockNum st
      else if ((blockNum =? newHighestTxHeight) && (i =? 0))
              || (blockNum <? highestTxHeight (otherData (walletLocalData st)))
      then (st, newHighestTxHeight, true)
      else processPage rest (i + 1) actor newHighestTxHeight st
  end.

Definition transfersParams (st : Engine) (pos offset : Z) : jsval :=
  JObj [("fio_public_key", JStr (publicKey (keys st)));
        ("pos", JNum pos);
        ("offset", JNum (- offset))]%string.

(** The [while (!finish)] loop (lines 385-424); [None] when [fuel]
    iterations were not enough.  Line 397 reads the request name off
    [historyNodeActions] before the request is made. *)
Fixpoint pagingLoop (fuel : nat) (env : Env) (actor : string) (offset pos : Z)
  (newHighestTxHeight : Z) (st : Engine) : option (Engine * Result Z) :=
  match fuel with
  | O => None
  | S fuel =>
      if pos <? 0 then Some (st, Ok newHighestTxHeight)
      else
        match historyNodeActions env with
        | None => Some (st, Throw ExTypeError)
        | Some names =>
            match multicastServers env "history"
                    (transfersParams st pos offset) (getTransfers names) st
            with
            | (st, Throw e) => Some (st, Throw e)
            | (st, Ok (RTransfers transfers)) =>
                let transfers := sort_desc transfers in
                if (0 <? length transfers)%nat then
                  let '(st, newHighestTxHeight, finish) :=
                    processPage transfers 0 actor newHighestTxHeight st in
                  if finish then Some (st, Ok newHighestTxHeight)
                  else pagingLoop fuel env actor offset (pos - offset)
                         newHighestTxHeight st
                else Some (st, Ok newHighestTxHeight)
            | (st, Ok _) => Some (st, Throw ExTypeError)
            end
        end
  end.

(** Iterations that always suffice: the cursor drops by [offset = 10] each
    time and the loop ends once it is negative. *)
Definition pagingFuel (pos : Z) : nat := Z.to_nat (pos / 10) + 2.

(** The first part of [checkTransactions()] (lines 358-379): the sequence
    number of the latest action, [0] when there is none or the query
    failed.  Line 366 reads the request name off [historyNodeActions]
    inside the [try], before the request is made: where the settings have
    no [historyNodeActions] that raises a TypeError and no node is
    asked. *)
Definition lastActionSeq (env : Env) (actor : string) : M Z :=
  try_catch
    (match historyNodeActions env with
     | None => throw ExTypeError
     | Some names =>
         let! lastActionObject :=
           multicastServers env "history"
             (JObj [("account_name", JStr actor);
                    ("pos", JNum (-1));
                    ("offset", JNum (-1))]%string)
             (getActions names) in
         match lastActionObject with
         | RActions (account_action_seq :: _) => ret account_action_seq
         | _ => ret 0
         end
     end)
    (fun _ => ret 0).

(** [checkTransactions()]. *)
Definition checkTransactions (env : Env) (st : Engine)
  : option (Engine * Result bool) :=
  let newHighestTxHeight := highestTxHeight (otherData (walletLocalData st)) in
  let actor := getActor env (publicKey (keys st)) in
  match lastActionSeq env actor st with
  | (st, Throw e) => Some (st, Throw e)
  | (st, Ok lastActionSeqNumber) =>
      if lastActionSeqNumber =? 0 then Some (st, Ok true)
      else
        let offset := 10 in
        let pos := lastActionSeqNumber in
        match pagingLoop (pagingFuel pos) env actor offset pos
                newHighestTxHeight st with
        | None => None
        | Some (st, Throw e) => Some (st, Throw e)
        | Some (st, Ok newHighestTxHeight) =>
            if newHighestTxHeight
                 >? highestTxHeight (otherData (walletLocalData st))
            then
              Some (localDataDirty (set_highestTxHeight newHighestTxHeight st),
                    Ok true)
            else Some (st, Ok true)
        end
  end.

(** [checkTransactionsInnerLoop()]; it returns [false] or nothing. *)
Definition checkTransactionsInnerLoop (env : Env) (st : Engine)
  : option (Engine * Result jsval) :=
  match checkTransactions env st with
  | None => None
  | Some (st, Throw e) => Some (st, Ok (JBool false))
  | Some (st, Ok transactions) =>
      let st :=
        if transactions then
          updateOnAddressesChecked
            (set_tokenCheckTransactionsStatus "FIO" 1 st)
        else st in
      let st :=
        if (0 <? length (transactionsChangedArray st))%nat then
          set_transactionsChangedArray []
            (emit (EvOnTransactionsChanged (transactionsChangedArray st)) st)
        else st in
      Some (st, Ok JUndefined)
  end.

(** [const { balance } = res] and [const { fee } = res], on what
    [multicastServers] returned from the api nodes, which is never
    [undefined] or [null]. *)
Definition resp_balance (res : Response) : jsval := res_prop "balance" res.
Definition resp_fee (res : Response) : jsval := res_prop "fee" res.

(** One round of the loop over [result.fio_addresses] (lines 563-579) for
    an entry of the given name and expiration: the first local entry of
    that name is updated, or a new one is pushed. *)
Fixpoint mergeAddress (name expiration : jsval) (l : list FioAddress)
  : list FioAddress * bool :=
  match l with
  | [] => ([{| fa_name := name; fa_expiration := expiration |}], true)
  | existed :: r =>
      if js_strict_eq (fa_name existed) name then
        if negb (js_strict_eq (fa_expiration existed) expiration)
        then ({| fa_name := fa_name existed;
                 fa_expiration := expiration |} :: r, true)
        else (l, false)
      else
        let '(r', changed) := mergeAddress name expiration r in
        (existed :: r', changed)
  end.

(** One round of the loop over [result.fio_domains] (lines 581-602) for an
    entry of the given name and expiration whose [!!is_public] is
    [isPublic]. *)
Fixpoint mergeDomain (name expiration : jsval) (isPublic : bool)
  (l : list FioDomain) : list FioDomain * bool :=
  match l with
  | [] =>
      ([{| fd_name := name;
           fd_expiration := expiration;
           fd_isPublic := isPublic |}], true)
  | existed :: r =>
      if js_strict_eq (fd_name existed) name then
        let c1 := negb (js_strict_eq (fd_expiration existed) expiration) in
        let c2 := negb (Bool.eqb (fd_isPublic existed) isPublic) in
        ({| fd_name := fd_name existed;
            fd_expiration :=
              if c1 then expiration else fd_expiration existed;
            fd_isPublic :=
              if c2 then isPublic else fd_isPublic existed |} :: r,
         c1 || c2)
      else
        let '(r', changed) := mergeDomain name expiration isPublic r in
        (existed :: r', changed)
  end.

(** The two rounds for the entries of a typed names answer. *)
Definition mergeFioAddress (fioAddress : RemoteFioAddress)
  (l : list FioAddress) : list FioAddress * bool :=
  mergeAddress (JStr (fio_address fioAddress))
    (JStr (ra_expiration fioAddress)) l.

Definition mergeFioDomain (fioDomain : RemoteFioDomain)
  (l : list FioDomain) : list FioDomain * bool :=
  mergeDomain (JStr (fio_domain fioDomain)) (JStr (rd_expiration fioDomain))
    (negb (is_public fioDomain =? 0)) l.

Definition mergeFioNames (fio_addresses : list RemoteFioAddress)
  (fio_domains : list RemoteFioDomain) (st : Engine) : Engine :=
  let '(st, isChanged) :=
    fold_left
      (fun '(st, isChanged) fioAddress =>
         let '(l, changed) :=
           mergeFioAddress fioAddress
             (fioAddresses (otherData (walletLocalData st))) in
         (set_fioAddresses l st, isChanged || changed))
      fio_addresses (st, false) in
  let '(st, isChanged) :=
    fold_left
      (fun '(st, isChanged) fioDomain =>
         let '(l, changed) :=
           mergeFioDomain fioDomain
             (fioDomains (otherData (walletLocalData st))) in
         (set_fioDomains l st, isChanged || changed))
      fio_domains (st, isChanged) in
  if isChanged then localDataDirty st else st.

(** The two loops over an answer that is not a typed names list.  Each
    round reads the entry's properties first, which raises a TypeError
    for an entry that is [undefined] or [null]; what earlier rounds
    merged stays merged. *)
Fixpoint forFioAddresses (items : list jsval) (isChanged : bool) : M bool :=
  match items with
  | [] => ret isChanged
  | fioAddress :: rest =>
      fun st =>
        match js_member "fio_address" fioAddress,
              js_member "expiration" fioAddress with
        | Some name, Some expiration =>
            let '(l, changed) :=
              mergeAddress name expiration
                (fioAddresses (otherData (walletLocalData st))) in
            forFioAddresses rest (isChanged || changed)
              (set_fioAddresses l st)
        | _, _ => (st, Throw ExTypeError)
        end
  end.

Fixpoint forFioDomains (items : list jsval) (isChanged : bool) : M bool :=
  match items with
  | [] => ret isChanged
  | fioDomain :: rest =>
      fun st =>
        match js_member "fio_domain" fioDomain,
              js_member "expiration" fioDomain,
              js_member "is_public" fioDomain with
        | Some name, Some expiration, Some is_public =>
            let '(l, changed) :=
              mergeDomain name expiration (js_truthy is_public)
                (fioDomains (otherData (walletLocalData st))) in
            forFioDomains rest (isChanged || changed) (set_fioDomains l st)
        | _, _, _ => (st, Throw ExTypeError)
        end
  end.

(** Lines 561-603 on any answer: [result.fio_domains] is only read once
    the loop over [result.fio_addresses] is through, and the dirty flag
    is only raised after both loops. *)
Definition mergeNamesAnswer (result : jsval) : M unit :=
  match js_member "fio_addresses" result ≫= js_iterate with
  | None => throw ExTypeError
  | Some fio_addresses =>
      let! isChanged := forFioAddresses fio_addresses false in
      match js_member "fio_domains" result ≫= js_iterate with
      | None => throw ExTypeError
      | Some fio_domains =>
          let! isChanged := forFioDomains fio_domains isChanged in
          if isChanged then modify localDataDirty else ret tt
      end
  end.

(** The second half of [checkAccountInnerLoop()], "Fio Addresses"
    (lines 555-606). *)
Definition checkFioNames (env : Env) : M unit :=
  try_catch
    (let! result :=
       (fun st =>
          multicastServers env "getFioNames"
            (JObj [("fioPublicKey", JStr (publicKey (keys st)))]%string)
            None st) in
     match result with
     | RFioNames fio_addresses fio_domains =>
         modify (mergeFioNames fio_addresses fio_domains)
     | _ => mergeNamesAnswer (resp_object result)
     end)
    (fun _ => ret tt).

(** [checkAccountInnerLoop()]. *)
Definition checkAccountInnerLoop (env : Env) : M unit :=
  let currencyCode := info_currencyCode env in
  let! _ := modify (fun st =>
    match totalBalances (walletLocalData st) !! currencyCode with
    | None => set_totalBalance currencyCode "0" st
    | Some _ => st
    end) in
  (* Balance *)
  let! nativeAmount :=
    try_catch
      (let! res := multicastServers env "getFioBalance" JUndefined None in
       ret (js_to_string (resp_balance res)))
      (fun _ => ret "0"%string) in
  let! _ := updateBalance currencyCode nativeAmount in
  (* Fio Addresses *)
  checkFioNames env.

(** The three assignments [clearBlockchainCache] makes itself
    (lines 611-613). *)
Definition clearFioData (st : Engine) : Engine :=
  let st := set_highestTxHeight 0 st in
  let st := set_feeTransactions [] st in
  set_fioAddresses [] st.

(** [clearBlockchainCache()]. *)
Definition clearBlockchainCache (st : Engine) : Engine :=
  clearFioData (super_clearBlockchainCache st).

(** [makeSpend(edgeSpendInfoIn)]. *)
Definition makeSpend (env : Env) (edgeSpendInfoIn : EdgeSpendInfo)
  : M EdgeTransaction :=
  let! inherited := super_makeSpend env edgeSpendInfoIn in
  let '(edgeSpendInfo, nativeBalance, currencyCode) := inherited in
  let! feeResponse :=
    multicastServers env "getFee"
      (JObj [("endPoint"%string, EndPoint_transferTokens env)]) None in
  let fee := resp_fee feeResponse in
  match spendTargets edgeSpendInfo with
  | [] => throw ExTypeError
  | target :: _ =>
      let publicAddress := publicAddress target in
      let quantity := st_nativeAmount target in
      match bns_add quantity (js_to_string fee) with
      | None => throw ExBns
      | Some total =>
          match bns_gt total nativeBalance with
          | None => throw ExBns
          | Some true => throw ExInsufficientFunds
          | Some false =>
              fun st =>
                let memo := ""%string in
                let actor := ""%string in
                let transactionJson :=
                  {| actions :=
                       [{| act_account := "fio.token";
                           act_name := "trnsfiopubky";
                           act_authorization :=
                             [{| actor := actor; permission := "active" |}];
                           act_data :=
                             {| data_from := publicKey (keys st);
                                data_to := publicAddress;
                                data_quantity := quantity;
                                data_memo := memo |} |}] |} in
                match bns_sub ("-" ++ quantity) (js_to_string fee) with
                | None => (st, Throw ExBns)
                | Some nativeAmount =>
                    (st,
                     Ok {| txid := "";
                           date := DateZero;
                           currencyCode := currencyCode;
                           blockHeight := 0;
                           nativeAmount := nativeAmount;
                           networkFee := js_to_string fee;
                           parentNetworkFee := None;
                           ourReceiveAddresses := [];
                           signedTx := "0";
                           otherParams :=
                             Some {| transactionJson :=
                                       Some transactionJson |};
                           metadata := None |})
                end
          end
      end
  end.

(** [signTx(edgeTransaction)]. *)
Definition signTx (edgeTransaction : EdgeTransaction) : M EdgeTransaction :=
  ret edgeTransaction.

(** The transaction [broadcastTx] hands back: the object it was given,
    [bt_transaction], with [txid], [date] and [blockHeight] overwritten
    by what the answer holds under [transaction_id] and [block_num],
    whatever that is. *)
Record BroadcastTransaction := {
  bt_txid : jsval;
  bt_date : JsDate;
  bt_blockHeight : jsval;
  bt_transaction : EdgeTransaction
}.

(** [broadcastTx(edgeTransaction)]. *)
Definition broadcastTx (env : Env) (edgeTransaction : EdgeTransaction)
  : M BroadcastTransaction :=
  match otherParams edgeTransaction ≫= transactionJson with
  | None =>
      throw (ExError
        "transactionJson not set. FIO transferTokens requires publicAddress")
  | Some transactionJson =>
      match actions transactionJson with
      | [] => throw ExTypeError
      | action0 :: _ =>
          let publicAddress := data_to (act_data action0) in
          match bns_add (nativeAmount edgeTransaction)
                        (networkFee edgeTransaction) ≫= bns_abs with
          | None => throw ExBns
          | Some amount =>
              let! transfer :=
                multicastServers env "transferTokens"
                  (JObj [("payeeFioPublicKey", JStr publicAddress);
                         ("amount", JStr amount);
                         ("maxFee", JStr (networkFee edgeTransaction))
                        ]%string) None in
              match resp_member "transaction_id" transfer,
                    resp_member "block_num" transfer with
              | Some transaction_id, Some block_num =>
                  ret {| bt_txid := transaction_id;
                         bt_date := DateNowSeconds;
                         bt_blockHeight := block_num;
                         bt_transaction := edgeTransaction |}
              | _, _ => throw ExTypeError
              end
          end
      end
  end.

(* ===================================================================== *)
(** ** The named remote procedures ([otherMethods], lines 80-212)         *)
(* ===================================================================== *)

(** [o[k] = v] on the properties of an object: an existing property keeps
    its place, a new one goes last. *)
Fixpoint assoc_set (k : string) (v : jsval) (props : list (string * jsval))
  : list (string * jsval) :=
  match props with
  | [] => [(k, v)]
  | (k', v') :: r =>
      if String.eqb k k' then (k, v) :: r else (k', v') :: assoc_set k v r
  end.

(** [feeActionMap] (lines 82-103): the fee query and the parameter it is
    asked about, for the actions of the first [case] group. *)
Definition feeActionMap (actionName : string) : option (string * string) :=
  if String.eqb actionName "addPublicAddress"
  then Some ("getFeeForAddPublicAddress", "fioAddress")%string
  else if String.eqb actionName "addPublicAddresses"
  then Some ("getFeeForAddPublicAddress", "fioAddress")%string
  else if String.eqb actionName "rejectFundsRequest"
  then Some ("getFeeForRejectFundsRequest", "payerFioAddress")%string
  else if String.eqb actionName "requestFunds"
  then Some ("getFeeForNewFundsRequest", "payeeFioAddress")%string
  else if String.eqb actionName "recordObtData"
  then Some ("getFeeForRecordObtData", "payerFioAddress")%string
  else None.

(** [{ expiration: res.expiration, feeCollected: res.fee_collected }];
    reading the properties raises a TypeError when [res] is [undefined]
    or [null]. *)
Definition registrationResult (res : Response) : option Response :=
  match resp_member "expiration" res, resp_member "fee_collected" res with
  | Some expiration, Some fee_collected =>
      Some (ROther (JObj [("expiration", expiration);
                          ("feeCollected", fee_collected)]%string))
  | _, _ => None
  end.

(** [return { expiration: ..., feeCollected: ... }]. *)
Definition returnRegistration (res : Response) : M Response :=
  match registrationResult res with
  | Some result => ret result
  | None => throw ExTypeError
  end.

(** [l.find(({ name }) => name === v)] on the address list. *)
Definition findFioAddress (v : jsval) (l : list FioAddress)
  : option FioAddress :=
  List.find (fun a => js_strict_eq (fa_name a) v) l.

Definition findFioDomain (v : jsval) (l : list FioDomain) : option FioDomain :=
  List.find (fun d => js_strict_eq (fd_name d) v) l.

(** [found.expiration = e] on the entry [find] returned, the first of that
    name. *)
Fixpoint renewFirstAddress (v : jsval) (e : jsval) (l : list FioAddress)
  : list FioAddress :=
  match l with
  | [] => []
  | a :: r =>
      if js_strict_eq (fa_name a) v
      then {| fa_name := fa_name a; fa_expiration := e |} :: r
      else a :: renewFirstAddress v e r
  end.

Fixpoint renewFirstDomain (v : jsval) (e : jsval) (l : list FioDomain)
  : list FioDomain :=
  match l with
  | [] => []
  | d :: r =>
      if js_strict_eq (fd_name d) v
      then {| fd_name := fd_name d; fd_expiration := e;
              fd_isPublic := fd_isPublic d |} :: r
      else d :: renewFirstDomain v e r
  end.

(** The fee query and [params.maxFee = fee] that open the renewal and
    registration cases (lines 121-124, 136-139, 166-169). *)
Definition withMaxFee (endPoints : string -> jsval) (env : Env)
  (actionName : string) (params : list (string * jsval))
  : M (list (string * jsval)) :=
  let! feeRes :=
    multicastServers env "getFee"
      (JObj [("endPoint"%string, endPoints actionName)]) None in
  ret (assoc_set "maxFee" (resp_fee feeRes) params).

(** [otherMethods.fioAction(actionName, params)].  [endPoints] is the
    SDK's [EndPoint] table and [params] the properties of the parameter
    object.  A name or an expiration is stored as it comes. *)
Definition fioAction (endPoints : string -> jsval) (env : Env)
  (actionName : string) (params : list (string * jsval)) : M Response :=
  match feeActionMap actionName with
  | Some (feeAction, propName) =>
      let! feeRes :=
        multicastServers env feeAction
          (JObj [(propName, get_prop propName (JObj params))]) None in
      let params := assoc_set "maxFee" (resp_fee feeRes) params in
      multicastServers env actionName (JObj params) None
  | None =>
      if String.eqb actionName "renewFioAddress" then
        let! params := withMaxFee endPoints env actionName params in
        let! res := multicastServers env actionName (JObj params) None in
        fun st =>
          let l := fioAddresses (otherData (walletLocalData st)) in
          match findFioAddress (get_prop "fioAddress" (JObj params)) l with
          | Some _ =>
              match resp_member "expiration" res with
              | Some expiration =>
                  (localDataDirty
                     (set_fioAddresses
                        (renewFirstAddress
                           (get_prop "fioAddress" (JObj params))
                           expiration l) st),
                   Ok res)
              | None => (st, Throw ExTypeError)
              end
          | None => (st, Ok res)
          end
      else if String.eqb actionName "registerFioAddress" then
        let! params := withMaxFee endPoints env actionName params in
        let! res := multicastServers env actionName (JObj params) None in
        fun st =>
          let owner := get_prop "ownerPublicKey" (JObj params) in
          if js_truthy owner
             && negb (js_strict_eq owner (JStr (publicKey (keys st))))
          then returnRegistration res st
          else
            let l := fioAddresses (otherData (walletLocalData st)) in
            match findFioAddress (get_prop "fioAddress" (JObj params)) l with
            | Some _ => returnRegistration res st
            | None =>
                match resp_member "expiration" res with
                | Some expiration =>
                    returnRegistration res
                      (localDataDirty
                         (set_fioAddresses
                            (l ++ [{| fa_name :=
                                        get_prop "fioAddress" (JObj params);
                                      fa_expiration := expiration |}])
                            st))
                | None => (st, Throw ExTypeError)
                end
            end
      else if String.eqb actionName "renewFioDomain" then
        let! params := withMaxFee endPoints env actionName params in
        let! res := multicastServers env actionName (JObj params) None in
        fun st =>
          let l := fioDomains (otherData (walletLocalData st)) in
          match findFioDomain (get_prop "fioDomain" (JObj params)) l with
          | Some _ =>
              match resp_member "expiration" res with
              | Some expiration =>
                  returnRegistration res
                    (localDataDirty
                       (set_fioDomains
                          (renewFirstDomain
                             (get_prop "fioDomain" (JObj params))
                             expiration l) st))
              | None => (st, Throw ExTypeError)
              end
          | None => returnRegistration res st
          end
      else multicastServers env actionName (JObj params) None
  end.

(** [otherMethods.getFee(actionName, fioAddress = '')]. *)
Definition getFee (endPoints : string -> jsval) (env : Env)
  (actionName : string) (fioAddress : option string) : M jsval :=
  let! res :=
    multicastServers env "getFee"
      (JObj [("endPoint", endPoints actionName);
             ("fioAddress", JStr (default "" fioAddress))]%string) None in
  ret (resp_fee res).

(** [otherMethods.getFioAddresses()], [getFioAddressNames()] and
    [getFioDomains()]. *)
Definition getFioAddresses : M (list FioAddress) :=
  fun st => (st, Ok (fioAddresses (otherData (walletLocalData st)))).
Definition getFioAddressNames : M (list jsval) :=
  fun st =>
    (st, Ok (map fa_name (fioAddresses (otherData (walletLocalData st))))).
Definition getFioDomains : M (list FioDomain) :=
  fun st => (st, Ok (fioDomains (otherData (walletLocalData st)))).

(* ===================================================================== *)
(** ** Reading the trace                                                  *)
(* ===================================================================== *)

(** The engine with further effects at the end of its trace and nothing
    else changed. *)
Definition add_events (evs : list Event) (st : Engine) : Engine :=
  {| walletLocalData := walletLocalData st;
     walletLocalDataDirty := walletLocalDataDirty st;
     keys := keys st;
     tokenCheckBalanceStatus := tokenCheckBalanceStatus st;
     tokenCheckTransactionsStatus := tokenCheckTransactionsStatus st;
     transactionList := transactionList st;
     transactionsChangedArray := transactionsChangedArray st;
     trace := trace st ++ evs |}.

(** A computation whose only effect is on the trace. *)
Definition trace_only {A} (m : M A) : Prop :=
  forall st, exists evs, (m st).1 = add_events evs st.

(** The balance notifications in a trace. *)
Definition balanceChanges (tr : list Event) : list (string * string) :=
  omap (fun ev =>
          match ev with
          | EvOnBalanceChanged tk balance => Some (tk, balance)
          | _ => None
          end) tr.

(** What the rest of a polling cycle leaves alone once the balance is
    set: the balances and the balance notifications; a raised dirty flag
    stays raised. *)
Definition balance_frame (st st' : Engine) : Prop :=
  totalBalances (walletLocalData st') = totalBalances (walletLocalData st) /\
  balanceChanges (trace st') = balanceChanges (trace st) /\
  (walletLocalDataDirty st = true -> walletLocalDataDirty st' = true).

(** The requests a waterfall over the api nodes leaves in the trace when
    it tried the given nodes. *)
Definition sdkCalls (actionName : string) (params : jsval)
  (urls : list string) : list Event :=
  map (fun apiUrl => EvSdkCall apiUrl actionName params) urls.

(** The watermark. *)
Abbreviation watermark st :=
  (highestTxHeight (otherData (walletLocalData st))).

(** The walk of [checkTransactions()] up to its last step: the engine
    after the paging and the candidate watermark, which is the recorded
    one when there is no action to page from. *)
Definition historyWalk (env : Env) (st : Engine)
  : option (Engine * Result Z) :=
  let actor := getActor env (publicKey (keys st)) in
  match lastActionSeq env actor st with
  | (st1, Throw e) => Some (st1, Throw e)
  | (st1, Ok lastActionSeqNumber) =>
      if lastActionSeqNumber =? 0 then
        Some (st1, Ok (highestTxHeight (otherData (walletLocalData st))))
      else
        pagingLoop (pagingFuel lastActionSeqNumber) env actor 10
          lastActionSeqNumber
          (highestTxHeight (otherData (walletLocalData st))) st1
  end.

(** The cursor positions of the history requests in a trace. *)
Definition fetchedPositions (tr : list Event) : list jsval :=
  omap (fun ev =>
          match ev with
          | EvFetch _ body => Some (get_prop "pos" body)
          | _ => None
          end) tr.

(** What a height poll observes: what the answer of the first completing
    api node holds under [head_block_num], [undefined] when it has no such
    property; nothing when the request fails. *)
Definition observedHead (env : Env) (st : Engine) : option jsval :=
  match (multicastServers env "getChainInfo" JUndefined None st).2 with
  | Ok info => resp_member "head_block_num" info
  | Throw _ => None
  end.

(** Successive height polls, each against the nodes as they are then. *)
Definition pollHeights (envs : list Env) (st : Engine) : Engine :=
  fold_left (fun st env => (checkBlockchainInnerLoop env st).1) envs st.

(** The currency/txid pairs [addTransaction] was called with, in order. *)
Definition addCalls (tr : list Event) : list (string * string) :=
  omap (fun ev =>
          match ev with
          | EvAddTransaction cc tx => Some (cc, txid tx)
          | _ => None
          end) tr.

(** The address and domain lists after the two loops of
    [checkAccountInnerLoop()] (lines 563-602) ran over a response. *)
Definition mergedAddresses (fio_addresses : list RemoteFioAddress)
  (l : list FioAddress) : list FioAddress :=
  fold_left (fun l r => (mergeFioAddress r l).1) fio_addresses l.

Definition mergedDomains (fio_domains : list RemoteFioDomain)
  (l : list FioDomain) : list FioDomain :=
  fold_left (fun l r => (mergeFioDomain r l).1) fio_domains l.

(** The transactions [addTransaction] was called with, in order. *)
Definition addedTxs (tr : list Event) : list EdgeTransaction :=
  omap (fun ev =>
          match ev with
          | EvAddTransaction _ tx => Some tx
          | _ => None
          end) tr.

(** The transactions handed to [onTransactionsChanged], in order. *)
Definition notifiedTxs (tr : list Event) : list EdgeTransaction :=
  concat (omap (fun ev =>
                  match ev with
                  | EvOnTransactionsChanged txs => Some txs
                  | _ => None
                  end) tr).

(** The heights handed to [onBlockHeightChanged], in order. *)
Definition heightChanges (tr : list Event) : list jsval :=
  omap (fun ev =>
          match ev with
          | EvOnBlockHeightChanged h => Some h
          | _ => None
          end) tr.

(** The requests a waterfall over the history nodes leaves in the trace
    when it tried the given nodes. *)
Definition fetchCalls (params : jsval) (uri : option string)
  (urls : list string) : list Event :=
  map (fun apiUrl =>
         EvFetch (apiUrl ++ "history/" ++ default "" uri)%string params) urls.

(** What a history walk may do to the engine between two points: append
    the transactions [new] to the FIO list, queue them and record the
    calls; nothing in [walletLocalData], no notification. *)
Definition walked (st st' : Engine) (new : list EdgeTransaction) : Prop :=
  walletLocalData st' = walletLocalData st /\
  keys st' = keys st /\
  txs_of "FIO" st' = txs_of "FIO" st ++ new /\
  transactionsChangedArray st' = transactionsChangedArray st ++ new /\
  addedTxs (trace st') = addedTxs (trace st) ++ new /\
  notifiedTxs (trace st') = notifiedTxs (trace st) /\
  tokenCheckTransactionsStatus st' = tokenCheckTransactionsStatus st.

(* ===================================================================== *)
(** ** Concrete settings, nodes and wallets                               *)
(* ===================================================================== *)

Module Fixtures.

Definition emptyOtherData (watermark : Z) : OtherData :=
  {| highestTxHeight := watermark;
     feeTransactions := [];
     fioAddresses := [];
     fioDomains := [] |}.

(** A wallet with the given watermark and cached balances, nothing else. *)
Definition wallet (watermark : Z) (balances : gmap string string) : Engine :=
  {| walletLocalData :=
       {| wl_blockHeight := JNum 0;
          totalBalances := balances;
          otherData := emptyOtherData watermark |};
     walletLocalDataDirty := false;
     keys := {| publicKey := "FIO5ourKey"; fioKey := "5Kprivate" |};
     tokenCheckBalanceStatus := ∅;
     tokenCheckTransactionsStatus := ∅;
     transactionList := ∅;
     transactionsChangedArray := [];
     trace := [] |}.

Definition unreachable : SdkError :=
  {| e_errorCode := None;
     e_message := "Network request failed";
     e_json := JUndefined;
     e_list := JUndefined |}.

(** The default settings of the FIO currency info, which name the api
    and history nodes and no [historyNodeActions], with every node
    unreachable. *)
Definition offline : Env :=
  {| apiUrls := ["https://testnet.fioprotocol.io:443/v1/";
                 "https://chaos-proxy.azurewebsites.net/v1/"]%string;
     historyNodeUrls := ["https://fiotestnet.greymass.com/v1/"]%string;
     historyNodeActions := None;
     info_currencyCode := "FIO";
     EndPoint_transferTokens := JStr "transfer_tokens_pub_key";
     getActor := fun _ => "aftyershcu22"%string;
     getChainInfo := fun _ => Throws unreachable;
     genericAction := fun _ _ _ => Throws unreachable;
     fetchCors := fun _ _ => Throws unreachable |}.

Definition with_chain (f : string -> Outcome) (env : Env) : Env :=
  {| apiUrls := apiUrls env;
     historyNodeUrls := historyNodeUrls env;
     historyNodeActions := historyNodeActions env;
     info_currencyCode := info_currencyCode env;
     EndPoint_transferTokens := EndPoint_transferTokens env;
     getActor := getActor env;
     getChainInfo := f;
     genericAction := genericAction env;
     fetchCors := fetchCors env |}.

Definition with_api (f : string -> string -> jsval -> Outcome) (env : Env)
  : Env :=
  {| apiUrls := apiUrls env;
     historyNodeUrls := historyNodeUrls env;
     historyNodeActions := historyNodeActions env;
     info_currencyCode := info_currencyCode env;
     EndPoint_transferTokens := EndPoint_transferTokens env;
     getActor := getActor env;
     getChainInfo := getChainInfo env;
     genericAction := f;
     fetchCors := fetchCors env |}.

(** The request names of the history nodes, for settings that want
    them. *)
Definition historyActions : HistoryNodeActions :=
  {| getActions := Some "get_actions"%string;
     getTransfers := Some "get_transfers"%string |}.

(** The settings with a history node behind them and the request names to
    reach it. *)
Definition with_history (f : string -> jsval -> Outcome) (env : Env) : Env :=
  {| apiUrls := apiUrls env;
     historyNodeUrls := historyNodeUrls env;
     historyNodeActions := Some historyActions;
     info_currencyCode := info_currencyCode env;
     EndPoint_transferTokens := EndPoint_transferTokens env;
     getActor := getActor env;
     getChainInfo := getChainInfo env;
     genericAction := genericAction env;
     fetchCors := f |}.

(** A history record of the given height, kind, id, payer and payee key. *)
Definition record (h : Z) (kind id from to_key : string) (amount : Z)
  : FioTransactionSuperNode :=
  {| block_height := h;
     block_time := "2020-05-01T00:00:00";
     payer := from;
     payee := "";
     payee_public_key := to_key;
     transfer_amount := amount;
     fee_amount := 2000000000;
     transaction_total := amount + 2000000000;
     notes := "";
     action := kind;
     tpid := "";
     transaction_id := id |}.

(** A history node that knows 25 actions and serves the given pages, the
    most recent one first, ten positions apart. *)
Definition historyNode (pages : list (list FioTransactionSuperNode))
  (url : string) (body : jsval) : Outcome :=
  if String.eqb url "https://fiotestnet.greymass.com/v1/history/get_actions"
  then Returns (RActions [25])
  else
    match get_prop "pos" body with
    | JNum pos =>
        Returns (RTransfers (default [] (pages !! Z.to_nat ((25 - pos) / 10))))
    | _ => Throws unreachable
    end.

(** The scenario of the spec: incoming transfers at heights 150, 140, 130
    on the first page and 120, 110, 90 on the second; a third page would
    follow. *)
Definition incoming (h : Z) (id : string) : FioTransactionSuperNode :=
  record h "trnsfiopubky" id "otheractor11" "FIO5ourKey" 1000000000.

Definition scenarioPages : list (list FioTransactionSuperNode) :=
  [[incoming 150 "t150"; incoming 140 "t140"; incoming 130 "t130"];
   [incoming 120 "t120"; incoming 110 "t110"; incoming 90 "t90"];
   [incoming 80 "t80"]]%string.

Definition scenarioEnv : Env := with_history (historyNode scenarioPages) offline.

(** Settings that name the requests of the history nodes, with every node
    unreachable. *)
Definition deafHistoryEnv : Env :=
  with_history (fun _ _ => Throws unreachable) offline.

(** The same history with the record at height 90 replaced by one at
    height 105, above the watermark of the scenario. *)
Definition scenarioPagesAbove : list (list FioTransactionSuperNode) :=
  [[incoming 150 "t150"; incoming 140 "t140"; incoming 130 "t130"];
   [incoming 120 "t120"; incoming 110 "t110"; incoming 105 "t105"];
   [incoming 80 "t80"]]%string.

Definition scenarioAboveEnv : Env :=
  with_history (historyNode scenarioPagesAbove) offline.

(** A FIO API rejection, as the SDK throws it. *)
Definition badRequest : SdkError :=
  {| e_errorCode := Some 400;
     e_message := "Bad request";
     e_json := JObj [("type", JStr "invalid_input")]%string;
     e_list := JArr [JObj [("field", JStr "amount");
                           ("message", JStr "Invalid amount value")]]%string |}.

(** The first api node rejects every request; the second would answer a
    fee query. *)
Definition rejectingEnv : Env :=
  with_api (fun apiUrl _ _ =>
              if String.eqb apiUrl "https://testnet.fioprotocol.io:443/v1/"
              then Throws badRequest
              else Returns (RFee 5))
    offline.

(** Api nodes that all quote the given fee and accept transfers. *)
Definition feeEnv (f : Z) : Env :=
  with_api (fun _ actionName _ =>
              if String.eqb actionName "getFee" then Returns (RFee f)
              else if String.eqb actionName "transferTokens"
              then Returns (RTransferTokens "txnew" 200)
              else Throws unreachable)
    offline.

(** A request to send [amount] to another key. *)
Definition spendOf (amount : string) : EdgeSpendInfo :=
  {| si_currencyCode := None;
     spendTargets :=
       [{| publicAddress := "FIO7other"; st_nativeAmount := amount |}] |}.

(** Api nodes that all report the given head block. *)
Definition chainAt (h : Z) : Env :=
  with_chain (fun _ => Returns (RChainInfo h)) offline.

(** Api nodes whose chain info is an object without [head_block_num]. *)
Definition headlessChain : Env :=
  with_chain
    (fun _ => Returns (ROther (JObj [("chain_id", JStr "b20901")]%string)))
    offline.

(** Api nodes that all report the given balance. *)
Definition balanceEnv (b : Z) : Env :=
  with_api (fun _ actionName _ =>
              if String.eqb actionName "getFioBalance"
              then Returns (RFioBalance b)
              else Throws unreachable)
    offline.

Definition walletAtHeight (h : Z) : Engine :=
  set_blockHeight (JNum h) (wallet 0 ∅).

(** A synced wallet: watermark, balance, one address and one domain. *)
Definition syncedWallet : Engine :=
  set_fioDomains
    [{| fd_name := JStr "edge"; fd_expiration := JStr "2021-05-01T00:00:00";
        fd_isPublic := false |}]
    (set_fioAddresses
       [{| fa_name := JStr "alice@edge";
           fa_expiration := JStr "2021-05-01T00:00:00" |}]
       (wallet 150 {["FIO"%string := "100"%string]})).

(** Entries of a names response. *)
Definition remoteAlice : RemoteFioAddress :=
  {| fio_address := "alice@edge"; ra_expiration := "2022-05-01T00:00:00" |}.
Definition remoteBob : RemoteFioAddress :=
  {| fio_address := "bob@edge"; ra_expiration := "2022-06-01T00:00:00" |}.
Definition remoteEdgePublic : RemoteFioDomain :=
  {| fio_domain := "edge"; rd_expiration := "2021-05-01T00:00:00";
     is_public := 1 |}.
Definition remoteFioDomainNew : RemoteFioDomain :=
  {| fio_domain := "fio"; rd_expiration := "2023-01-01T00:00:00";
     is_public := 0 |}.

(** An outgoing transfer as the engine would have recorded it. *)
Definition sampleTx : EdgeTransaction :=
  {| txid := "tx1";
     date := DateParseSeconds "2020-05-01T00:00:00";
     currencyCode := "FIO";
     blockHeight := 150;
     nativeAmount := "-1000000000";
     networkFee := "2000000000";
     parentNetworkFee := Some "0"%string;
     ourReceiveAddresses := [];
     signedTx := "";
     otherParams := Some {| transactionJson := None |};
     metadata := Some {| md_name := ""; md_notes := "" |} |}.

(** One transaction as the history node reports it: the fee charge and
    the transfer itself, under the same transaction id. *)
Definition feeAndTransferPages : list (list FioTransactionSuperNode) :=
  [[record 150 "transfer" "tx1" "aftyershcu22" "" 2000000000;
    record 150 "trnsfiopubky" "tx1" "aftyershcu22" "FIO7other" 1000000000]
  ]%string.

Definition feeAndTransferEnv : Env :=
  with_history (historyNode feeAndTransferPages) offline.

(** The transaction [makeSpend] builds for sending 90 with fee 5. *)
Definition spendTx : EdgeTransaction :=
  {| txid := "";
     date := DateZero;
     currencyCode := "FIO";
     blockHeight := 0;
     nativeAmount := "-95";
     networkFee := "5";
     parentNetworkFee := None;
     ourReceiveAddresses := [];
     signedTx := "0";
     otherParams :=
       Some {| transactionJson :=
         Some {| actions :=
           [{| act_account := "fio.token";
               act_name := "trnsfiopubky";
               act_authorization :=
                 [{| actor := ""; permission := "active" |}];
               act_data :=
                 {| data_from := "FIO5ourKey";
                    data_to := "FIO7other";
                    data_quantity := "90";
                    data_memo := "" |} |}] |} |};
     metadata := None |}.

(** Api nodes that quote a fee of 5 and accept registrations and
    renewals, answering with a new expiration. *)
Definition registrarEnv : Env :=
  with_api (fun _ actionName _ =>
              if String.eqb actionName "getFee" then Returns (RFee 5)
              else Returns
                     (ROther (JObj [("expiration",
                                     JStr "2023-05-01T00:00:00");
                                    ("fee_collected", JNum 5)]%string)))
    offline.

(** Api nodes that quote a fee of 5 and accept registrations and
    renewals with an answer that names no expiration. *)
Definition bareRegistrarEnv : Env :=
  with_api (fun _ actionName _ =>
              if String.eqb actionName "getFee" then Returns (RFee 5)
              else Returns (ROther (JObj [("status", JStr "OK")]%string)))
    offline.

(** An [EndPoint] table for the examples: the path of each end point the
    wallet asks a fee for. *)
Definition endPoints (actionName : string) : jsval :=
  if String.eqb actionName "registerFioAddress"
  then JStr "register_fio_address"
  else if String.eqb actionName "renewFioAddress"
  then JStr "renew_fio_address"
  else if String.eqb actionName "renewFioDomain"
  then JStr "renew_fio_domain"
  else if String.eqb actionName "transferTokens"
  then JStr "transfer_tokens_pub_key"
  else JUndefined.

(** Three api nodes, the first unreachable, and two history nodes, the
    first answering the query for the latest action with a 400. *)
Definition flakyEnv : Env :=
  {| apiUrls := ["https://a.fio.example/v1/"; "https://b.fio.example/v1/";
                 "https://c.fio.example/v1/"]%string;
     historyNodeUrls := ["https://h1.fio.example/v1/";
                         "https://h2.fio.example/v1/"]%string;
     historyNodeActions := Some historyActions;
     info_currencyCode := "FIO";
     EndPoint_transferTokens := JStr "transfer_tokens_pub_key";
     getActor := fun _ => "aftyershcu22"%string;
     getChainInfo := fun apiUrl =>
       if String.eqb apiUrl "https://a.fio.example/v1/"
       then Throws unreachable else Returns (RChainInfo 500);
     genericAction := fun apiUrl _ _ =>
       if String.eqb apiUrl "https://a.fio.example/v1/"
       then Throws unreachable else Returns (RFee 5);
     fetchCors := fun url _ =>
       if String.eqb url "https://h1.fio.example/v1/history/get_actions"
       then Throws badRequest else Returns (RActions []) |}.

(** Api nodes that report a balance of 100 and the names of the wallet. *)
Definition namesEnv : Env :=
  with_api (fun _ actionName _ =>
              if String.eqb actionName "getFioBalance"
              then Returns (RFioBalance 100)
              else Returns (RFioNames [remoteAlice; remoteBob]
                              [remoteEdgePublic]))
    offline.

(** A names answer that lists one address and has no [fio_domains]. *)
Definition addressesOnly : jsval :=
  JObj [("fio_addresses",
         JArr [JObj [("fio_address", JStr "bob@edge");
                     ("expiration", JStr "2022-06-01T00:00:00")]])]%string.

(** Api nodes that report a balance of 100 and that answer. *)
Definition addressesOnlyEnv : Env :=
  with_api (fun _ actionName _ =>
              if String.eqb actionName "getFioBalance"
              then Returns (RFioBalance 100)
              else Returns (ROther addressesOnly))
    offline.

End Fixtures.

(* ===================================================================== *)
(** * Properties                                                          *)
(* ===================================================================== *)

(** ** The model at concrete inputs                                       *)

Example bns_examples :
  bns_add "90" "20" = Some "110"%string /\
  bns_sub "-90" "5" = Some "-95"%string /\
  bns_eq "1.0" "1" = Some true /\
  bns_eq "1.0" "1.01" = Some false /\
  bns_gt "110" "100" = Some true /\
  bns_gt "95" "100" = Some false /\
  bns_add "0.15" "1.05" = Some "1.2"%string /\
  bns_sub "1" "1.005" = Some "-0.005"%string /\
  bns_abs "-12.50" = Some "12.5"%string /\
  bns_add "--5" "1" = None /\
  bns_eq "abc" "1" = None /\
  Bns.Z_to_string 1000000000 = "1000000000"%string /\
  Bns.Z_to_string 0 = "0"%string /\
  Bns.Z_to_string (-7) = "-7"%string.
Proof. repeat split; vm_compute; reflexivity. Qed.

Example sort_desc_example :
  map (fun t => (block_height t, transaction_id t))
    (sort_desc [Fixtures.incoming 110 "a"; Fixtures.incoming 150 "b";
                Fixtures.incoming 110 "c"; Fixtures.incoming 130 "d"])
  = [(150, "b"); (130, "d"); (110, "a"); (110, "c")]%string.
Proof. reflexivity. Qed.

Example error_without_message :
  Error_message (res_prop "errorMessage"
                   (RApiError (apiErrorWrapper Fixtures.badRequest)))
  = ""%string /\
  get_prop "message"
    (res_prop "data" (RApiError (apiErrorWrapper Fixtures.badRequest)))
  = JStr "Bad request".
Proof. split; reflexivity. Qed.

Example second_cycle_adds_nothing :
  exists st1 st2,
    checkTransactions Fixtures.scenarioEnv (Fixtures.wallet 100 ∅)
    = Some (st1, Ok true) /\
    checkTransactions Fixtures.scenarioEnv st1 = Some (st2, Ok true) /\
    addCalls (trace st2) = addCalls (trace st1) /\
    watermark st2 = 150.
Proof.
  do 2 eexists. split; [vm_compute; reflexivity|].
  split; [vm_compute; reflexivity|]. split; vm_compute; reflexivity.
Qed.

(** ** Decimal strings: printing, reading back, values                   *)

Module BnsFacts.
Import Bns.

Lemma pow10_pos k : 0 < pow10 k.
Proof. unfold pow10. apply Z.pow_pos_nonneg; lia. Qed.

Lemma pow10_S k : pow10 (S k) = 10 * pow10 k.
Proof. unfold pow10. rewrite Nat2Z.inj_succ, Z.pow_succ_r; lia. Qed.

Lemma pow10_add a b : pow10 (a + b) = pow10 a * pow10 b.
Proof. unfold pow10. rewrite Nat2Z.inj_add, Z.pow_add_r; lia. Qed.

Lemma pow10_den k : Z.pos (Z.to_pos (pow10 k)) = pow10 k.
Proof. apply Z2Pos.id, pow10_pos. Qed.

Lemma digit_roundtrip d : 0 <= d < 10 -> digit_of_ascii (ascii_of_digit d) = Some d.
Proof.
  intros H.
  assert (d = 0 \/ d = 1 \/ d = 2 \/ d = 3 \/ d = 4 \/ d = 5 \/ d = 6 \/
          d = 7 \/ d = 8 \/ d = 9) as Hd by lia.
  repeat (destruct Hd as [-> | Hd]; [reflexivity|]). subst. reflexivity.
Qed.

Lemma digit_range c d : digit_of_ascii c = Some d -> 0 <= d < 10.
Proof.
  unfold digit_of_ascii. destruct (_ && _) eqn:E; [|discriminate].
  intros [= <-]. apply andb_prop in E as [E1 E2]. lia.
Qed.

Lemma digit_not_dot c d : digit_of_ascii c = Some d -> Ascii.eqb c "." = false.
Proof.
  intros H. destruct (Ascii.eqb_spec c "."%char) as [->|]; [discriminate|reflexivity].
Qed.

Lemma digit_not_minus c d : digit_of_ascii c = Some d -> Ascii.eqb c "-" = false.
Proof.
  intros H. destruct (Ascii.eqb_spec c "-"%char) as [->|]; [discriminate|reflexivity].
Qed.

Lemma parse_digits_app a b acc :
  parse_digits (a ++ b) acc
  = match parse_digits a acc with Some v => parse_digits b v | None => None end.
Proof.
  revert acc. induction a as [|c a IH]; intros acc; simpl; [reflexivity|].
  destruct (digit_of_ascii c); [apply IH | reflexivity].
Qed.

Lemma digits_fuel_spec fuel n :
  0 <= n < 2 ^ Z.of_nat (S fuel) ->
  parse_digits (digits_fuel fuel n) 0 = Some n /\
  Forall is_digit (digits_fuel fuel n) /\
  digits_fuel fuel n <> [].
Proof.
  revert n. induction fuel as [|f IH]; intros n Hn.
  - simpl in *. assert (n = 0 \/ n = 1) as [-> | ->] by lia;
      (split; [reflexivity|]; split; [|discriminate]);
      repeat constructor; eexists; reflexivity.
  - cbn [digits_fuel]. destruct (Z.ltb_spec n 10) as [Hlt|Hge].
    + simpl. rewrite digit_roundtrip by lia.
      split; [f_equal; lia|]. split; [|discriminate].
      repeat constructor. unfold is_digit. rewrite digit_roundtrip by lia. eauto.
    + assert (0 <= n / 10 < 2 ^ Z.of_nat (S f)) as Hq.
      { split; [apply Z.div_pos; lia|].
        apply Z.div_lt_upper_bound; [lia|].
        rewrite (Nat2Z.inj_succ (S f)), Z.pow_succ_r in Hn by lia. lia. }
      destruct (IH _ Hq) as (Hp & Hd & Hne).
      pose proof (Z.mod_pos_bound n 10 ltac:(lia)) as Hm.
      split; [|split].
      * rewrite parse_digits_app, Hp. simpl.
        rewrite digit_roundtrip by lia. f_equal.
        pose proof (Z.div_mod n 10 ltac:(lia)). lia.
      * apply Forall_app. split; [exact Hd|]. repeat constructor.
        unfold is_digit. rewrite digit_roundtrip by lia. eauto.
      * intros H. apply app_eq_nil in H as [_ H]. discriminate.
Qed.

Lemma digits_of_spec n :
  0 <= n ->
  parse_digits (digits_of n) 0 = Some n /\
  Forall is_digit (digits_of n) /\
  digits_of n <> [].
Proof.
  intros Hn. apply digits_fuel_spec. split; [exact Hn|].
  destruct (Z.eq_dec n 0) as [->|Hz]; [simpl; lia|].
  rewrite Nat2Z.inj_succ, Z2Nat.id by apply Z.log2_nonneg.
  apply Z.log2_spec. lia.
Qed.

Lemma split_dot_digits i :
  Forall is_digit i -> split_dot i = (i, None).
Proof.
  induction 1 as [|c i [d Hc] Hi IH]; simpl; [reflexivity|].
  rewrite (digit_not_dot _ _ Hc), IH. reflexivity.
Qed.

Lemma split_dot_point i f :
  Forall is_digit i -> split_dot (i ++ "."%char :: f) = (i, Some f).
Proof.
  induction 1 as [|c i [d Hc] Hi IH]; simpl; [reflexivity|].
  rewrite (digit_not_dot _ _ Hc), IH. reflexivity.
Qed.

Lemma parse_digits_zeros k acc :
  acc = 0 -> parse_digits (replicate k "0"%char) acc = Some 0.
Proof. intros ->. induction k as [|k IH]; simpl; [reflexivity | exact IH]. Qed.

Lemma pad_zeros_spec k l n :
  parse_digits l 0 = Some n -> Forall is_digit l ->
  parse_digits (pad_zeros k l) 0 = Some n /\
  Forall is_digit (pad_zeros k l) /\
  (k <= length (pad_zeros k l))%nat.
Proof.
  intros Hp Hd. unfold pad_zeros. split; [|split].
  - rewrite parse_digits_app, parse_digits_zeros by reflexivity. exact Hp.
  - apply Forall_app. split; [|exact Hd].
    apply Forall_replicate. eexists; reflexivity.
  - rewrite length_app, length_replicate. lia.
Qed.

Lemma parse_unsigned_print m k :
  0 <= m -> parse_unsigned (print_unsigned m k) = Some (Dec m k) /\
            exists c r d, print_unsigned m k = c :: r /\
                          digit_of_ascii c = Some d.
Proof.
  intros Hm. destruct (digits_of_spec m Hm) as (Hp & Hd & Hne).
  unfold print_unsigned. destruct k as [|k].
  - split.
    + unfold parse_unsigned. rewrite (split_dot_digits _ Hd).
      destruct (digits_of m); [congruence|]. now rewrite Hp.
    + destruct (digits_of m) as [|c r]; [congruence|].
      apply Forall_cons in Hd as [[d Hc] _]. eauto.
  - destruct (pad_zeros_spec (S (S k)) _ _ Hp Hd) as (Hp' & Hd' & Hlen).
    set (ds := pad_zeros (S (S k)) (digits_of m)) in *.
    set (cut := (length ds - S k)%nat).
    assert (Forall is_digit (take cut ds)) as Hi
        by (apply Forall_take; exact Hd').
    assert (take cut ds <> []) as Hine.
    { intros H. apply (f_equal length) in H. rewrite length_take in H.
      simpl in H. lia. }
    split.
    + unfold parse_unsigned. rewrite (split_dot_point _ _ Hi).
      destruct (take cut ds) as [|c r] eqn:E; [congruence|]. rewrite <- E.
      pose proof Hp' as Hall. rewrite <- (take_drop cut ds) in Hall.
      rewrite parse_digits_app in Hall.
      destruct (parse_digits (take cut ds) 0) as [v|]; [|discriminate].
      rewrite Hall. do 2 f_equal. rewrite length_drop. lia.
    + destruct (take cut ds) as [|c r] eqn:E; [congruence|].
      rewrite <- E in Hi. rewrite E in Hi.
      apply Forall_cons in Hi as [[d Hc] _]. simpl. eauto.
Qed.

Lemma normalize_spec m k :
  let '(m', k') := normalize m k in
  m' * pow10 k = m * pow10 k' /\ (0 <= m -> 0 <= m') /\ (m < 0 -> m' < 0).
Proof.
  revert m. induction k as [|k IH]; intros m; simpl; [lia|].
  destruct (Z.eqb_spec (m mod 10) 0) as [Hz|Hnz]; [|lia].
  specialize (IH (m / 10)). destruct (normalize (m / 10) k) as [m' k'].
  destruct IH as (IH & Hpos & Hneg). rewrite pow10_S.
  pose proof (Z.div_mod m 10 ltac:(lia)) as Hdm.
  split; [|split].
  - assert (m = 10 * (m / 10)) as Hm by lia.
    transitivity (10 * (m' * pow10 k)); [ring|].
    rewrite IH. transitivity (10 * (m / 10) * pow10 k'); [ring|].
    now rewrite <- Hm.
  - intros H. apply Hpos. apply Z.div_pos; lia.
  - intros H. apply Hneg. lia.
Qed.

Lemma parse_print_chars d :
  exists d', parse_chars (print_chars d) = Some d' /\
             mant d' * pow10 (scale d) = mant d * pow10 (scale d').
Proof.
  unfold print_chars. pose proof (normalize_spec (mant d) (scale d)) as Hn.
  destruct (normalize (mant d) (scale d)) as [m k].
  destruct Hn as (Hv & Hpos & Hneg).
  destruct (Z.ltb_spec m 0) as [Hlt|Hge].
  - exists (Dec m k). split; [|exact Hv].
    unfold parse_chars. simpl.
    destruct (parse_unsigned_print (- m) k ltac:(lia)) as [-> _].
    simpl. unfold dec_opp. simpl. f_equal. f_equal. lia.
  - exists (Dec m k). split; [|exact Hv].
    destruct (parse_unsigned_print m k Hge) as (Hp & c & r & dg & Hc & Hdg).
    unfold parse_chars. rewrite Hc, (digit_not_minus _ _ Hdg), <- Hc.
    exact Hp.
Qed.

(** *** Values *)

Local Open Scope Q_scope.

Lemma Qsame_den_eq x y p : (x # p == y # p) <-> x = y.
Proof.
  unfold Qeq. simpl. split; [|congruence].
  intros H. apply Z.mul_reg_r in H; [exact H | discriminate].
Qed.

Lemma Qsame_den_lt x y p : (x # p < y # p) <-> (x < y)%Z.
Proof.
  unfold Qlt. simpl. symmetry. apply Z.mul_lt_mono_pos_r. reflexivity.
Qed.

Lemma Qsame_den_add x y p : (x + y # p) == (x # p) + (y # p).
Proof. unfold Qeq, Qplus. simpl. rewrite Pos2Z.inj_mul. ring. Qed.

Lemma Qsame_den_sub x y p : (x - y # p) == (x # p) - (y # p).
Proof.
  unfold Qeq, Qminus, Qplus, Qopp. simpl. rewrite Pos2Z.inj_mul. ring.
Qed.

Lemma dec_value_eq_iff a b :
  dec_value a == dec_value b <->
  (mant a * pow10 (scale b) = mant b * pow10 (scale a))%Z.
Proof. unfold dec_value, Qeq. simpl. now rewrite !pow10_den. Qed.

Lemma align_value a b :
  let '(x, y, s) := align a b in
  dec_value (Dec x s) == dec_value a /\ dec_value (Dec y s) == dec_value b.
Proof.
  unfold align. rewrite !dec_value_eq_iff. simpl.
  split; rewrite <- Z.mul_assoc, <- pow10_add; do 2 f_equal; lia.
Qed.

Lemma dec_add_value a b : dec_value (dec_add a b) == dec_value a + dec_value b.
Proof.
  unfold dec_add. pose proof (align_value a b) as H.
  destruct (align a b) as [[x y] s]. destruct H as [<- <-].
  apply Qsame_den_add.
Qed.

Lemma dec_sub_value a b : dec_value (dec_sub a b) == dec_value a - dec_value b.
Proof.
  unfold dec_sub. pose proof (align_value a b) as H.
  destruct (align a b) as [[x y] s]. destruct H as [<- <-].
  apply Qsame_den_sub.
Qed.

Lemma dec_opp_value a : dec_value (dec_opp a) == - dec_value a.
Proof. reflexivity. Qed.

Lemma dec_abs_value a : dec_value (dec_abs a) == Qabs (dec_value a).
Proof. reflexivity. Qed.

Lemma dec_eqb_value a b : dec_eqb a b = true <-> dec_value a == dec_value b.
Proof.
  unfold dec_eqb. pose proof (align_value a b) as H.
  destruct (align a b) as [[x y] s]. destruct H as [<- <-].
  unfold dec_value. simpl. rewrite Qsame_den_eq. apply Z.eqb_eq.
Qed.

Lemma dec_gtb_value a b : dec_gtb a b = true <-> dec_value b < dec_value a.
Proof.
  unfold dec_gtb. pose proof (align_value a b) as H.
  destruct (align a b) as [[x y] s]. destruct H as [<- <-].
  unfold dec_value. simpl. rewrite Qsame_den_lt, Z.gtb_ltb. apply Z.ltb_lt.
Qed.

Lemma of_Z_value n : dec_value (of_Z n) == inject_Z n.
Proof. reflexivity. Qed.

Lemma parse_print d :
  exists d', parse (print d) = Some d' /\ dec_value d' == dec_value d.
Proof.
  destruct (parse_print_chars d) as (d' & Hp & Hv). exists d'.
  unfold parse, print. rewrite list_ascii_of_string_of_list_ascii.
  split; [exact Hp|]. now apply dec_value_eq_iff.
Qed.

Lemma parse_unsigned_head l d :
  parse_unsigned l = Some d ->
  exists c r, l = c :: r /\ Ascii.eqb c "-" = false.
Proof.
  unfold parse_unsigned. destruct l as [|c r]; simpl; [discriminate|].
  destruct (Ascii.eqb c "."); [discriminate|].
  destruct (split_dot r) as [i f]. simpl.
  destruct (digit_of_ascii c) as [dg|] eqn:E.
  - intros _. exists c, r. split; [reflexivity|].
    apply (digit_not_minus _ _ E).
  - destruct f; discriminate.
Qed.

(** *** Strings and the values they denote *)

Lemma denotes_proper s v v' : denotes s v -> v == v' -> denotes s v'.
Proof. intros (d & Hp & Hv) E. exists d. split; [exact Hp|]. now rewrite Hv. Qed.

Lemma denotes_fun s v v' : denotes s v -> denotes s v' -> v == v'.
Proof.
  intros (d & Hp & Hv) (d' & Hp' & Hv'). rewrite Hp in Hp'.
  injection Hp' as <-. now rewrite <- Hv, <- Hv'.
Qed.

Lemma denotes_print d : denotes (print d) (dec_value d).
Proof. destruct (parse_print d) as (d' & Hp & Hv). now exists d'. Qed.

Lemma denotes_Z_to_string n : denotes (Z_to_string n) (inject_Z n).
Proof. apply denotes_print. Qed.

Lemma bns_add_denotes x y vx vy :
  denotes x vx -> denotes y vy ->
  exists s, bns_add x y = Some s /\ denotes s (vx + vy).
Proof.
  intros (a & Ha & Va) (b & Hb & Vb). unfold bns_add. rewrite Ha, Hb.
  eexists. split; [reflexivity|].
  eapply denotes_proper; [apply denotes_print|].
  now rewrite dec_add_value, Va, Vb.
Qed.

Lemma bns_sub_denotes x y vx vy :
  denotes x vx -> denotes y vy ->
  exists s, bns_sub x y = Some s /\ denotes s (vx - vy).
Proof.
  intros (a & Ha & Va) (b & Hb & Vb). unfold bns_sub. rewrite Ha, Hb.
  eexists. split; [reflexivity|].
  eapply denotes_proper; [apply denotes_print|].
  now rewrite dec_sub_value, Va, Vb.
Qed.

Lemma bns_abs_denotes x vx :
  denotes x vx -> exists s, bns_abs x = Some s /\ denotes s (Qabs vx).
Proof.
  intros (a & Ha & Va). unfold bns_abs. rewrite Ha.
  eexists. split; [reflexivity|].
  eapply denotes_proper; [apply denotes_print|].
  now rewrite dec_abs_value, Va.
Qed.

Lemma bns_eq_denotes x y vx vy :
  denotes x vx -> denotes y vy ->
  exists b, bns_eq x y = Some b /\ (b = true <-> vx == vy).
Proof.
  intros (a & Ha & Va) (b & Hb & Vb). unfold bns_eq. rewrite Ha, Hb.
  eexists. split; [reflexivity|]. now rewrite dec_eqb_value, Va, Vb.
Qed.

Lemma bns_gt_denotes x y vx vy :
  denotes x vx -> denotes y vy ->
  exists b, bns_gt x y = Some b /\ (b = true <-> vy < vx).
Proof.
  intros (a & Ha & Va) (b & Hb & Vb). unfold bns_gt. rewrite Ha, Hb.
  eexists. split; [reflexivity|]. now rewrite dec_gtb_value, Va, Vb.
Qed.

Lemma denotes_unsigned_signed s v :
  denotes_unsigned s v -> denotes s v /\ denotes ("-" ++ s) (- v).
Proof.
  intros (d & Hp & Hv). split.
  - exists d. split; [|exact Hv]. unfold parse, parse_chars.
    destruct (parse_unsigned_head _ _ Hp) as (c & r & Hl & Hc).
    rewrite Hl, Hc, <- Hl. exact Hp.
  - exists (dec_opp d). split; [|now rewrite dec_opp_value, Hv].
    unfold parse.
    change (list_ascii_of_string ("-" ++ s))
      with ("-"%char :: list_ascii_of_string s).
    unfold parse_chars. change (Ascii.eqb "-" "-") with true. cbv iota.
    now rewrite Hp.
Qed.

Local Close Scope Q_scope.

Lemma normalize_canonical m k :
  let '(m', k') := normalize m k in k' = O \/ m' mod 10 <> 0.
Proof.
  revert m. induction k as [|k IH]; intros m; simpl; [now left|].
  destruct (Z.eqb_spec (m mod 10) 0); [apply IH | now right].
Qed.

Lemma canonical_lt m1 k1 m2 k2 :
  (k1 < k2)%nat -> m2 mod 10 <> 0 -> m1 * pow10 k2 <> m2 * pow10 k1.
Proof.
  intros Hk Hm H. apply Hm.
  replace k2 with (k1 + S (k2 - k1 - 1))%nat in H by lia.
  rewrite pow10_add, pow10_S in H.
  assert (m2 = 10 * (m1 * pow10 (k2 - k1 - 1))) as ->.
  { apply (Z.mul_reg_r _ _ (pow10 k1)).
    - pose proof (pow10_pos k1). lia.
    - rewrite <- H. ring. }
  rewrite Z.mul_comm. apply Z.mod_mul. lia.
Qed.

Lemma canonical_unique m1 k1 m2 k2 :
  (k1 = O \/ m1 mod 10 <> 0) -> (k2 = O \/ m2 mod 10 <> 0) ->
  m1 * pow10 k2 = m2 * pow10 k1 -> m1 = m2 /\ k1 = k2.
Proof.
  intros H1 H2 H.
  destruct (lt_eq_lt_dec k1 k2) as [[Hlt | ->] | Hgt].
  - exfalso. destruct H2 as [-> | H2]; [lia|].
    now apply (canonical_lt m1 k1 m2 k2).
  - split; [|reflexivity]. apply (Z.mul_reg_r _ _ (pow10 k2)); [|exact H].
    pose proof (pow10_pos k2). lia.
  - exfalso. destruct H1 as [-> | H1]; [lia|].
    now apply (canonical_lt m2 k2 m1 k1).
Qed.

Lemma print_canonical a b :
  (dec_value a == dec_value b)%Q -> print a = print b.
Proof.
  intros H. apply dec_value_eq_iff in H. unfold print, print_chars.
  pose proof (normalize_spec (mant a) (scale a)) as Ha.
  pose proof (normalize_canonical (mant a) (scale a)) as Ca.
  pose proof (normalize_spec (mant b) (scale b)) as Hb.
  pose proof (normalize_canonical (mant b) (scale b)) as Cb.
  destruct (normalize (mant a) (scale a)) as [m1 k1].
  destruct (normalize (mant b) (scale b)) as [m2 k2].
  destruct Ha as (Ha & _). destruct Hb as (Hb & _).
  destruct (canonical_unique m1 k1 m2 k2 Ca Cb) as [-> ->]; [|reflexivity].
  pose proof (pow10_pos (scale a)). pose proof (pow10_pos (scale b)).
  apply (Z.mul_reg_r _ _ (pow10 (scale a) * pow10 (scale b))); [lia|].
  transitivity (m1 * pow10 (scale a) * pow10 k2 * pow10 (scale b)); [ring|].
  rewrite Ha.
  transitivity (mant a * pow10 (scale b) * pow10 k1 * pow10 k2); [ring|].
  rewrite H.
  transitivity (mant b * pow10 k2 * pow10 (scale a) * pow10 k1); [ring|].
  rewrite <- Hb. ring.
Qed.

End BnsFacts.

(** ** History records below the watermark or of another kind             *)

Lemma processTransaction_skip (transfer : FioTransactionSuperNode)
  (actor : string) (st : Engine) :
  block_height transfer <= highestTxHeight (otherData (walletLocalData st)) \/
  (action transfer <> "trnsfiopubky"%string /\
   action transfer <> "transfer"%string) ->
  processTransaction transfer actor st = (st, block_height transfer).
Proof.
  intros H. unfold processTransaction.
  destruct (block_height transfer
            <=? highestTxHeight (otherData (walletLocalData st))) eqn:Hh;
    [reflexivity|].
  destruct H as [H | [H1 H2]]; [apply Z.leb_gt in Hh; lia|].
  apply String.eqb_neq in H1, H2. rewrite H1, H2. reflexivity.
Qed.

Lemma find_from_bound (id : string) (l : list EdgeTransaction) (i : Z) :
  0 <= i -> find_from id l i = -1 \/ i <= find_from id l i.
Proof.
  revert i. induction l as [|t r IH]; intros i Hi; simpl; [now left|].
  destruct (String.eqb (txid t) id); [right; lia|].
  destruct (IH (i + 1)) as [H | H]; [lia | now left | right; lia].
Qed.

Lemma find_from_found (id : string) (l : list EdgeTransaction) (i : Z) :
  0 <= i -> (find_from id l i > -1 <-> id ∈ map txid l).
Proof.
  revert i. induction l as [|t r IH]; intros i Hi; simpl.
  - split; [lia | intros H; inversion H].
  - destruct (String.eqb (txid t) id) eqn:E.
    + apply String.eqb_eq in E. subst id. split; [intros _; left | lia].
    + apply String.eqb_neq in E. rewrite IH by lia. split.
      * intros H. now right.
      * intros H. inversion H; subst; [congruence | assumption].
Qed.

Lemma txs_of_addTransaction (cc : string) (tx : EdgeTransaction)
  (st : Engine) :
  txs_of cc (addTransaction cc tx st) = txs_of cc st ++ [tx].
Proof.
  unfold txs_of at 1. unfold addTransaction. simpl.
  now rewrite lookup_insert_eq.
Qed.

Lemma addCalls_app (a b : list Event) :
  addCalls (a ++ b) = addCalls a ++ addCalls b.
Proof. unfold addCalls. apply omap_app. Qed.

(** C1 (amended): a record at or below the watermark, or of a kind other
    than the two recognized ones, is skipped: [processTransaction] returns
    its height and leaves the engine as it was.  A value-transfer record
    whose txid is already recorded is skipped in the same way, so that
    kind never gives [addTransaction] a txid the currency already has;
    an ownership-transfer record above the watermark is always handed to
    [addTransaction], recorded or not. *)
Theorem C1_skip_and_fee_dedup (transfer : FioTransactionSuperNode)
  (actor : string) (st : Engine) :
  (block_height transfer <= highestTxHeight (otherData (walletLocalData st)) \/
   (action transfer <> "trnsfiopubky"%string /\
    action transfer <> "transfer"%string) ->
   processTransaction transfer actor st = (st, block_height transfer)) /\
  (action transfer = "transfer"%string ->
   findTransaction "FIO" (transaction_id transfer) st > -1 ->
   processTransaction transfer actor st = (st, block_height transfer)) /\
  (action transfer = "transfer"%string ->
   NoDup (map txid (txs_of "FIO" st)) ->
   NoDup (map txid (txs_of "FIO" (processTransaction transfer actor st).1))) /\
  (action transfer = "trnsfiopubky"%string ->
   highestTxHeight (otherData (walletLocalData st)) < block_height transfer ->
   addCalls (trace (processTransaction transfer actor st).1) =
   addCalls (trace st) ++ [("FIO"%string, transaction_id transfer)]).
Proof.
  split; [apply processTransaction_skip|].
  split; [|split].
  - intros Ha Hf. unfold processTransaction. rewrite Ha. simpl.
    destruct (_ <=? _); [reflexivity|].
    apply Z.gtb_gt in Hf. now rewrite Hf.
  - intros Ha Hnd. unfold processTransaction. rewrite Ha. simpl.
    destruct (_ <=? _); [assumption|].
    destruct (findTransaction "FIO" (transaction_id transfer) st >? -1)
      eqn:Hf; [assumption|].
    cbn [fst]. rewrite txs_of_addTransaction, map_app. simpl.
    apply NoDup_app. split; [assumption|]. split; [|apply NoDup_singleton].
    intros x Hx Hx'. apply list_elem_of_singleton in Hx'. subst x.
    apply (find_from_found _ _ 0) in Hx; [|lia].
    unfold findTransaction in Hf. rewrite Z.gtb_ltb in Hf.
    apply Z.ltb_ge in Hf. lia.
  - intros Ha Hh. unfold processTransaction. rewrite Ha. simpl.
    apply Z.leb_gt in Hh. rewrite Hh.
    destruct (String.eqb (payee_public_key transfer) (publicKey (keys st)));
      cbn; rewrite addCalls_app; reflexivity.
Qed.

(** C1, at concrete records: one below the watermark, a fee record whose
    txid is already recorded, and an incoming transfer above the
    watermark. *)
Lemma C1_skip_and_fee_dedup_witness :
  processTransaction (Fixtures.incoming 90 "t90") "aftyershcu22"
    (Fixtures.wallet 100 ∅) = (Fixtures.wallet 100 ∅, 90) /\
  (let st := addTransaction "FIO" Fixtures.sampleTx (Fixtures.wallet 100 ∅) in
   processTransaction
     (Fixtures.record 150 "transfer" "tx1" "aftyershcu22" "" 2000000000)
     "aftyershcu22" st = (st, 150)) /\
  NoDup (map txid
           (txs_of "FIO"
              (processTransaction
                 (Fixtures.record 150 "transfer" "tx1" "aftyershcu22" ""
                    2000000000)
                 "aftyershcu22" (Fixtures.wallet 100 ∅)).1)) /\
  addCalls (trace (processTransaction (Fixtures.incoming 150 "t150")
                     "aftyershcu22" (Fixtures.wallet 100 ∅)).1) =
  [("FIO", "t150")]%string.
Proof.
  split; [|split; [|split]].
  - apply (proj1 (C1_skip_and_fee_dedup (Fixtures.incoming 90 "t90")
             "aftyershcu22" (Fixtures.wallet 100 ∅))).
    left. simpl. lia.
  - apply (proj1 (proj2 (C1_skip_and_fee_dedup
             (Fixtures.record 150 "transfer" "tx1" "aftyershcu22" ""
                2000000000)
             "aftyershcu22"
             (addTransaction "FIO" Fixtures.sampleTx
                (Fixtures.wallet 100 ∅))))).
    + reflexivity.
    + vm_compute. reflexivity.
  - apply (proj1 (proj2 (proj2 (C1_skip_and_fee_dedup
             (Fixtures.record 150 "transfer" "tx1" "aftyershcu22" ""
                2000000000)
             "aftyershcu22" (Fixtures.wallet 100 ∅))))).
    + reflexivity.
    + vm_compute. constructor.
  - apply (proj2 (proj2 (proj2 (C1_skip_and_fee_dedup
             (Fixtures.incoming 150 "t150") "aftyershcu22"
             (Fixtures.wallet 100 ∅))))).
    + reflexivity.
    + simpl. lia.
Defined.

(** C1 (as stated) fails: one sync cycle over a page that carries the fee
    charge and the transfer of the same transaction calls [addTransaction]
    twice with the pair ("FIO", "tx1"). *)
Lemma C1_same_txid_added_twice :
  exists st',
    checkTransactions Fixtures.feeAndTransferEnv (Fixtures.wallet 100 ∅)
    = Some (st', Ok true) /\
    addCalls (trace st') = [("FIO", "tx1"); ("FIO", "tx1")]%string /\
    ~ NoDup (addCalls (trace st')).
Proof.
  eexists. split; [vm_compute; reflexivity|].
  split; [vm_compute; reflexivity|].
  intros H. vm_compute in H. inversion H as [|x l Hx Hl]; subst.
  apply Hx. left.
Qed.

(** ** Self-to-self ownership transfers                                   *)

(** C6: an ownership-transfer record above the watermark that is paid to
    the wallet's own key by the wallet's own actor is recorded with
    [nativeAmount = "0"] and with the wallet's key among its receive
    addresses. *)
Theorem C6_self_transfer_zero (transfer : FioTransactionSuperNode)
  (actor : string) (st : Engine) :
  highestTxHeight (otherData (walletLocalData st)) < block_height transfer ->
  action transfer = "trnsfiopubky"%string ->
  payee_public_key transfer = publicKey (keys st) ->
  payer transfer = actor ->
  exists tx,
    processTransaction transfer actor st
    = (addTransaction "FIO" tx st, block_height transfer) /\
    txid tx = transaction_id transfer /\
    nativeAmount tx = "0"%string /\
    publicKey (keys st) ∈ ourReceiveAddresses tx /\
    last (txs_of "FIO" (processTransaction transfer actor st).1) = Some tx.
Proof.
  intros Hh Ha Hk Hp. unfold processTransaction.
  apply Z.leb_gt in Hh. rewrite Hh, Ha. simpl.
  apply String.eqb_eq in Hk. rewrite Hk.
  apply String.eqb_eq in Hp. rewrite Hp.
  eexists. split; [reflexivity|]. simpl.
  split; [reflexivity|]. split; [reflexivity|].
  split; [left|].
  rewrite txs_of_addTransaction. apply last_snoc.
Qed.

(** C6, at a transfer of the wallet's actor to the wallet's own key. *)
Lemma C6_self_transfer_zero_witness :
  let transfer :=
    Fixtures.record 150 "trnsfiopubky" "tself" "aftyershcu22" "FIO5ourKey"
      1000000000 in
  let st := Fixtures.wallet 100 ∅ in
  exists tx,
    processTransaction transfer "aftyershcu22" st
    = (addTransaction "FIO" tx st, 150) /\
    txid tx = "tself"%string /\
    nativeAmount tx = "0"%string /\
    "FIO5ourKey"%string ∈ ourReceiveAddresses tx /\
    last (txs_of "FIO" (processTransaction transfer "aftyershcu22" st).1)
    = Some tx.
Proof.
  apply (C6_self_transfer_zero
           (Fixtures.record 150 "trnsfiopubky" "tself" "aftyershcu22"
              "FIO5ourKey" 1000000000)
           "aftyershcu22" (Fixtures.wallet 100 ∅));
    [simpl; lia | reflexivity | reflexivity | reflexivity].
Defined.

(** ** Remote calls only extend the trace                                 *)

Lemma emit_add_events (ev : Event) (st : Engine) :
  emit ev st = add_events [ev] st.
Proof. reflexivity. Qed.

Lemma add_events_nil (st : Engine) : add_events [] st = st.
Proof. destruct st. unfold add_events. simpl. now rewrite app_nil_r. Qed.

Lemma add_events_app (a b : list Event) (st : Engine) :
  add_events b (add_events a st) = add_events (a ++ b) st.
Proof. unfold add_events. simpl. now rewrite app_assoc. Qed.

Lemma asyncWaterfall_from_trace_only {A} (funcs : list (M A))
  (errors : list Exn) :
  Forall trace_only funcs -> trace_only (asyncWaterfall_from funcs errors).
Proof.
  intros H. revert errors. induction H as [|f r Hf Hr IH]; intros errors st.
  - exists []. simpl. now rewrite add_events_nil.
  - simpl. unfold try_catch. destruct (Hf st) as [evs Hevs].
    destruct (f st) as [st1 [a|e]]; simpl in *; [now exists evs|].
    subst st1. destruct (IH (e :: errors) (add_events evs st)) as [evs' H'].
    exists (evs ++ evs'). now rewrite H', add_events_app.
Qed.

Lemma apiAttempt_trace_only env actionName params apiUrl :
  trace_only (apiAttempt env actionName params apiUrl).
Proof.
  intros st. exists [EvSdkCall apiUrl actionName params].
  unfold apiAttempt. destruct (sdkCall _ _ _ _); [reflexivity|].
  destruct (isFioApiError e); reflexivity.
Qed.

Lemma historyAttempt_trace_only env params uri apiUrl :
  trace_only (historyAttempt env params uri apiUrl).
Proof.
  intros st. eexists [_]. unfold historyAttempt.
  destruct (fetchCors _ _ _); reflexivity.
Qed.

(** Lines 522-532 touch nothing, and what they return is the answer they
    were given, which is then neither [undefined] nor [null] and does not
    say it is an error. *)
Lemma throwIfError_state res st : (throwIfError res st).1 = st.
Proof.
  unfold throwIfError.
  destruct (resp_member "isError" res) as [isError|]; [|reflexivity].
  destruct (js_truthy isError); [|reflexivity].
  now destruct (js_member "json" (res_prop "data" res)),
               (js_member "list" (res_prop "data" res)),
               (js_member "code" (res_prop "data" res)).
Qed.

Lemma throwIfError_result res st st' :
  (throwIfError res st).2 = (throwIfError res st').2.
Proof.
  unfold throwIfError.
  destruct (resp_member "isError" res) as [isError|]; [|reflexivity].
  destruct (js_truthy isError); [|reflexivity].
  now destruct (js_member "json" (res_prop "data" res)),
               (js_member "list" (res_prop "data" res)),
               (js_member "code" (res_prop "data" res)).
Qed.

Lemma throwIfError_ok res st r :
  (throwIfError res st).2 = Ok r ->
  r = res /\ js_truthy (res_prop "isError" res) = false /\
  forall k, resp_member k res = Some (res_prop k res).
Proof.
  unfold throwIfError, resp_member, res_prop, js_member.
  destruct (resp_object res) eqn:E; try discriminate;
    try (intros [= <-]; split; [reflexivity|]; split; [reflexivity|];
         intros k; reflexivity).
  destruct (js_truthy _) eqn:T.
  - now destruct (get_prop "data" _).
  - intros [= <-]. repeat split; auto.
Qed.

Lemma throwIfError_plain res st :
  js_truthy (res_prop "isError" res) = false ->
  resp_object res <> JUndefined -> resp_object res <> JNull ->
  throwIfError res st = (st, Ok res).
Proof.
  unfold throwIfError, resp_member, res_prop, js_member.
  intros T Hu Hn. destruct (resp_object res); try congruence;
    try reflexivity; now rewrite T.
Qed.

Lemma multicastServers_trace_only env actionName params uri :
  trace_only (multicastServers env actionName params uri).
Proof.
  unfold multicastServers. destruct (String.eqb actionName "history").
  - apply asyncWaterfall_from_trace_only, Forall_map, Forall_forall.
    intros; apply historyAttempt_trace_only.
  - intros st. unfold bind.
    destruct (asyncWaterfall_from_trace_only
                (map (apiAttempt env actionName params) (apiUrls env)) []
                ltac:(apply Forall_map, Forall_forall;
                      intros; apply apiAttempt_trace_only) st) as [evs H].
    exists evs. unfold asyncWaterfall.
    destruct (asyncWaterfall_from _ _ st) as [st1 [res|e]]; simpl in *;
      [|assumption].
    now rewrite throwIfError_state.
Qed.

(** What the api nodes are reported to have answered is never
    [undefined] or [null]: every property can be read off it. *)
Lemma multicastServers_ok_member env actionName params uri st res :
  String.eqb actionName "history" = false ->
  (multicastServers env actionName params uri st).2 = Ok res ->
  forall k, resp_member k res = Some (res_prop k res).
Proof.
  intros Ha. unfold multicastServers, bind. rewrite Ha.
  destruct (asyncWaterfall _ st) as [s1 [r|e]]; [|discriminate].
  intros H. now apply throwIfError_ok in H as (-> & _ & Hm).
Qed.

(** ** Application-level rejections                                       *)

Lemma apiWaterfall_rejection env actionName params pre url post e errors st :
  Forall (fun u => exists e', sdkCall env actionName params u = Throws e' /\
                              isFioApiError e' = false) pre ->
  sdkCall env actionName params url = Throws e ->
  isFioApiError e = true ->
  asyncWaterfall_from
    (map (apiAttempt env actionName params) (pre ++ url :: post)) errors st
  = (add_events (map (fun u => EvSdkCall u actionName params) (pre ++ [url]))
       st,
     Ok (RApiError (apiErrorWrapper e))).
Proof.
  intros Hpre Hurl He. revert errors st.
  induction Hpre as [|u pre (e' & Hu & He') Hpre IH]; intros errors st; simpl.
  - unfold try_catch, apiAttempt. rewrite Hurl, He. reflexivity.
  - unfold try_catch at 1. unfold apiAttempt at 1. rewrite Hu, He'.
    rewrite IH, emit_add_events, add_events_app. reflexivity.
Qed.

(** Whatever completes with a FIO API error (code 400, 403 or 404) on
    some api node, after transport failures on the nodes before it, ends
    the waterfall there: no later node is tried, and a [FioError] is
    thrown that carries the code, the json and the list of the rejection.
    Its message is the empty string. *)
Lemma multicastServers_api_rejection env actionName params uri pre url post
  e st :
  String.eqb actionName "history" = false ->
  apiUrls env = pre ++ url :: post ->
  Forall (fun u => exists e', sdkCall env actionName params u = Throws e' /\
                              isFioApiError e' = false) pre ->
  sdkCall env actionName params url = Throws e ->
  isFioApiError e = true ->
  multicastServers env actionName params uri st
  = (add_events (map (fun u => EvSdkCall u actionName params) (pre ++ [url]))
       st,
     Throw (ExFio {| fe_name := "FioError";
                     fe_message := "";
                     fe_list := e_list e;
                     fe_errorCode := from_option JNum JUndefined (e_errorCode e);
                     fe_json := e_json e |})).
Proof.
  intros Ha Hurls Hpre Hurl He. unfold multicastServers. rewrite Ha, Hurls.
  unfold bind, asyncWaterfall.
  rewrite (apiWaterfall_rejection _ _ _ _ _ _ _ _ _ Hpre Hurl He).
  reflexivity.
Qed.

(** C4 (code at the failing input): the first api node rejects a fee
    query with code 400 and message "Bad request".  The waterfall stops
    there and a [FioError] with the code, json and list of the rejection is
    thrown, but its message is empty: line 524 reads [res.errorMessage],
    which the wrapper object of lines 505-513 does not have (the message
    sits in [res.data.message]). *)
Theorem C4_rejection_message_lost :
  let params := JObj [("endPoint", JStr "transfer_tokens_pub_key")]%string in
  exists fe,
    multicastServers Fixtures.rejectingEnv "getFee" params None
      (Fixtures.wallet 0 ∅)
    = (emit (EvSdkCall "https://testnet.fioprotocol.io:443/v1/" "getFee"
               params) (Fixtures.wallet 0 ∅),
       Throw (ExFio fe)) /\
    fe_errorCode fe = JNum 400 /\
    fe_json fe = e_json Fixtures.badRequest /\
    fe_list fe = e_list Fixtures.badRequest /\
    fe_message fe = ""%string /\
    fe_message fe <> e_message Fixtures.badRequest.
Proof.
  eexists. split; [vm_compute; reflexivity|].
  repeat split. discriminate.
Qed.

(** ** Resync                                                             *)

Lemma clearFioData_effect (st : Engine) :
  highestTxHeight (otherData (walletLocalData (clearFioData st))) = 0 /\
  feeTransactions (otherData (walletLocalData (clearFioData st))) = [] /\
  fioAddresses (otherData (walletLocalData (clearFioData st))) = [] /\
  fioDomains (otherData (walletLocalData (clearFioData st)))
  = fioDomains (otherData (walletLocalData st)) /\
  totalBalances (walletLocalData (clearFioData st))
  = totalBalances (walletLocalData st).
Proof. repeat split. Qed.

Lemma super_clearBlockchainCache_effect (st : Engine) :
  fioDomains (otherData (walletLocalData (super_clearBlockchainCache st)))
  = [].
Proof. reflexivity. Qed.

(** C9: after [clearBlockchainCache] the watermark is zero and the
    address list and the domain list are empty.  Lines 611-613 themselves
    zero the watermark and empty the address list (and the fee list)
    whatever the inherited reset left, and touch neither the balances nor
    the domain list: the domain list is emptied by the inherited reset. *)
Theorem C9_reset_clears_lists (st : Engine) :
  let st' := clearBlockchainCache st in
  highestTxHeight (otherData (walletLocalData st')) = 0 /\
  fioAddresses (otherData (walletLocalData st')) = [] /\
  fioDomains (otherData (walletLocalData st')) = [] /\
  forall inherited : Engine,
    highestTxHeight (otherData (walletLocalData (clearFioData inherited)))
    = 0 /\
    fioAddresses (otherData (walletLocalData (clearFioData inherited)))
    = [] /\
    fioDomains (otherData (walletLocalData (clearFioData inherited)))
    = fioDomains (otherData (walletLocalData inherited)) /\
    totalBalances (walletLocalData (clearFioData inherited))
    = totalBalances (walletLocalData inherited).
Proof.
  intros st'. subst st'. unfold clearBlockchainCache.
  destruct (clearFioData_effect (super_clearBlockchainCache st))
    as (Hw & _ & Ha & Hd & Hb).
  pose proof (super_clearBlockchainCache_effect st) as Sd.
  split; [exact Hw|]. split; [exact Ha|].
  split; [now rewrite Hd, Sd|].
  intros inherited.
  destruct (clearFioData_effect inherited) as (Iw & _ & Ia & Id & Ib).
  auto.
Qed.

(** ** Height polling                                                     *)

Lemma js_strict_eq_eq (a b : jsval) : js_strict_eq a b = true -> a = b.
Proof.
  destruct a, b; simpl; try discriminate; try reflexivity.
  - intros H. apply Bool.eqb_prop in H. now subst.
  - intros H. apply Z.eqb_eq in H. now subst.
  - intros H. apply String.eqb_eq in H. now subst.
Qed.

Lemma js_strict_eq_refl (a : jsval) :
  js_primitive a = true -> js_strict_eq a a = true.
Proof.
  destruct a; simpl; try discriminate; intros _; try reflexivity.
  - apply Bool.eqb_reflx.
  - apply Z.eqb_refl.
  - apply String.eqb_refl.
Qed.

Lemma checkBlockchainInnerLoop_height (env : Env) (st : Engine) :
  (checkBlockchainInnerLoop env st).2 = Ok tt /\
  wl_blockHeight (walletLocalData (checkBlockchainInnerLoop env st).1)
  = default (wl_blockHeight (walletLocalData st)) (observedHead env st).
Proof.
  unfold checkBlockchainInnerLoop, observedHead, try_catch, bind.
  destruct (multicastServers_trace_only env "getChainInfo" JUndefined None st)
    as [evs Hevs].
  destruct (multicastServers env "getChainInfo" JUndefined None st)
    as [st1 [info|e]]; simpl in *; subst st1; [|now split].
  destruct (resp_member "head_block_num" info) as [v|]; [|now split].
  simpl.
  destruct (js_strict_eq (wl_blockHeight (walletLocalData st)) v) eqn:E;
    simpl; split; try reflexivity.
  now apply js_strict_eq_eq in E.
Qed.

(** C8 (amended): a height poll never throws and leaves the cached
    [blockHeight] equal to what the first answering node holds under
    [head_block_num], the reported number for a chain info and
    [undefined] for an answer without that property; it is unchanged
    when the request fails.  So a poll lowers a cached number exactly
    when the observed head is a number below it, and over any sequence of
    polls whose observed heads are numbers at or above a bound that the
    cached height respects, the cached height stays a number at or above
    that bound. *)
Theorem C8_height_follows_observation (env : Env) (st : Engine) :
  (checkBlockchainInnerLoop env st).2 = Ok tt /\
  wl_blockHeight (walletLocalData (checkBlockchainInnerLoop env st).1)
  = default (wl_blockHeight (walletLocalData st)) (observedHead env st) /\
  (forall info,
     (multicastServers env "getChainInfo" JUndefined None st).2 = Ok info ->
     wl_blockHeight (walletLocalData (checkBlockchainInnerLoop env st).1)
     = get_prop "head_block_num" (resp_object info) /\
     (forall head_block_num,
        info = RChainInfo head_block_num ->
        wl_blockHeight (walletLocalData (checkBlockchainInnerLoop env st).1)
        = JNum head_block_num)) /\
  (forall e,
     (multicastServers env "getChainInfo" JUndefined None st).2 = Throw e ->
     wl_blockHeight (walletLocalData (checkBlockchainInnerLoop env st).1)
     = wl_blockHeight (walletLocalData st)) /\
  (forall cached : Z,
     wl_blockHeight (walletLocalData st) = JNum cached ->
     (exists h,
        wl_blockHeight (walletLocalData (checkBlockchainInnerLoop env st).1)
        = JNum h /\ h < cached) <->
     (exists h, observedHead env st = Some (JNum h) /\ h < cached)) /\
  (forall (envs : list Env) (lo : Z),
     (forall env' st' v, env' ∈ envs -> observedHead env' st' = Some v ->
                         exists h, v = JNum h /\ lo <= h) ->
     (exists h, wl_blockHeight (walletLocalData st) = JNum h /\ lo <= h) ->
     exists h,
       wl_blockHeight (walletLocalData (pollHeights envs st)) = JNum h /\
       lo <= h).
Proof.
  destruct (checkBlockchainInnerLoop_height env st) as [Hr Hh].
  split; [exact Hr|]. split; [exact Hh|].
  split; [|split; [|split]].
  - intros info Hinfo. rewrite Hh. unfold observedHead. rewrite Hinfo.
    rewrite (multicastServers_ok_member env "getChainInfo" JUndefined None
               st info eq_refl Hinfo).
    split; [reflexivity|]. now intros h ->.
  - intros e He. rewrite Hh. unfold observedHead. now rewrite He.
  - intros cached Hc. rewrite Hh.
    destruct (observedHead env st) as [v|]; simpl.
    + split.
      * intros (h & -> & H). now exists h.
      * intros (h & [= ->] & H). now exists h.
    + rewrite Hc. split.
      * intros (h & [= <-] & H). lia.
      * intros (h & [=] & _).
  - clear. intros envs lo. revert st.
    induction envs as [|env envs IH]; intros st Hobs Hlo; simpl; [exact Hlo|].
    apply IH.
    + intros env' st' h Hin. apply Hobs. now right.
    + destruct (checkBlockchainInnerLoop_height env st) as [_ ->].
      destruct (observedHead env st) as [v|] eqn:E; simpl; [|exact Hlo].
      apply (Hobs env st v); [left | exact E].
Qed.

(** C8, at concrete polls: heads 120 then 130 observed from a cached
    height of 100 keep the cached height at or above 100. *)
Lemma C8_height_follows_observation_witness :
  exists h,
    wl_blockHeight
      (walletLocalData
         (pollHeights [Fixtures.chainAt 120; Fixtures.chainAt 130]
            (Fixtures.walletAtHeight 100))) = JNum h /\
    100 <= h.
Proof.
  apply (proj2 (proj2 (proj2 (proj2 (proj2 (C8_height_follows_observation
           Fixtures.offline (Fixtures.walletAtHeight 100))))))).
  - intros env' st' v Hin Hobs.
    apply list_elem_of_In in Hin.
    destruct Hin as [<- | [<- | []]]; vm_compute in Hobs;
      injection Hobs as <-; eexists; (split; [reflexivity | lia]).
  - exists 100. split; [reflexivity | lia].
Defined.

(** C8 (as stated) fails: with 100 cached, a node that reports head 90
    makes the poll store 90. *)
Lemma C8_height_decreases :
  let st := Fixtures.walletAtHeight 100 in
  let st' := (checkBlockchainInnerLoop (Fixtures.chainAt 90) st).1 in
  wl_blockHeight (walletLocalData st) = JNum 100 /\
  wl_blockHeight (walletLocalData st') = JNum 90 /\
  ~ (100 <= 90).
Proof.
  split; [reflexivity|]. split; [vm_compute; reflexivity | lia].
Qed.

(** ** Balance updates                                                    *)

Lemma balanceChanges_app (a b : list Event) :
  balanceChanges (a ++ b) = balanceChanges a ++ balanceChanges b.
Proof. unfold balanceChanges. apply omap_app. Qed.

Lemma updateBalance_effect (tk balance : string)
  (st : Engine) (vnew vold : Q) :
  denotes balance vnew ->
  denotes (default "0"%string (totalBalances (walletLocalData st) !! tk))
    vold ->
  let st' := (updateBalance tk balance st).1 in
  (updateBalance tk balance st).2 = Ok tt /\
  (~ (vnew == vold)%Q ->
   balanceChanges (trace st') = balanceChanges (trace st) ++ [(tk, balance)] /\
   walletLocalDataDirty st' = true /\
   totalBalances (walletLocalData st') !! tk = Some balance) /\
  ((vnew == vold)%Q ->
   balanceChanges (trace st') = balanceChanges (trace st) /\
   walletLocalDataDirty st' = walletLocalDataDirty st /\
   totalBalances (walletLocalData st') !! tk
   = Some (default "0"%string (totalBalances (walletLocalData st) !! tk))).
Proof.
  intros Hnew Hold. unfold updateBalance. cbv zeta.
  set (st0 := match totalBalances (walletLocalData st) !! tk with
              | Some _ => st
              | None => set_totalBalance tk "0" st
              end).
  assert (totalBalances (walletLocalData st0) !! tk
          = Some (default "0"%string
                    (totalBalances (walletLocalData st) !! tk))) as Hc.
  { subst st0. destruct (totalBalances (walletLocalData st) !! tk) eqn:E;
      simpl; [exact E | apply lookup_insert_eq]. }
  assert (trace st0 = trace st /\
          walletLocalDataDirty st0 = walletLocalDataDirty st) as [Ht Hd].
  { subst st0. destruct (totalBalances (walletLocalData st) !! tk);
      split; reflexivity. }
  rewrite Hc. cbn [default from_option].
  change (id (default "0"%string (totalBalances (walletLocalData st) !! tk)))
    with (default "0"%string (totalBalances (walletLocalData st) !! tk)).
  destruct (BnsFacts.bns_eq_denotes _ _ _ _ Hnew Hold) as (same & -> & Hsame).
  destruct same; cbn.
  - split; [reflexivity|]. split.
    + intros Hne. exfalso. apply Hne, Hsame. reflexivity.
    + intros _. rewrite balanceChanges_app, Ht, Hd, Hc, app_nil_r. auto.
  - split; [reflexivity|]. split.
    + intros _. rewrite !balanceChanges_app, Ht, lookup_insert_eq. cbn.
      rewrite app_nil_r. auto.
    + intros He. apply Hsame in He. discriminate.
Qed.

(** C5: for every currency code and amount, [updateBalance] notifies
    [onBalanceChanged] (once, with that code and amount) if and only if the
    amount and the cached balance denote different decimals, however they
    are written; in that case it also sets the dirty flag and stores the
    amount, and otherwise it leaves flag and balance as they were. *)
Theorem C5_balance_change_iff_value_differs (tk balance : string)
  (st : Engine) (vnew vold : Q) :
  denotes balance vnew ->
  denotes (default "0"%string (totalBalances (walletLocalData st) !! tk))
    vold ->
  let st' := (updateBalance tk balance st).1 in
  (updateBalance tk balance st).2 = Ok tt /\
  exists notified,
    balanceChanges (trace st') = balanceChanges (trace st) ++ notified /\
    (notified = [(tk, balance)] <-> ~ (vnew == vold)%Q) /\
    (notified = [] <-> (vnew == vold)%Q) /\
    (~ (vnew == vold)%Q ->
     walletLocalDataDirty st' = true /\
     totalBalances (walletLocalData st') !! tk = Some balance) /\
    ((vnew == vold)%Q ->
     walletLocalDataDirty st' = walletLocalDataDirty st /\
     totalBalances (walletLocalData st') !! tk
     = Some (default "0"%string (totalBalances (walletLocalData st) !! tk))).
Proof.
  intros Hnew Hold st'.
  destruct (updateBalance_effect tk balance st vnew vold Hnew Hold)
    as (Hr & Hne & Heq).
  fold st' in Hne, Heq. split; [exact Hr|].
  destruct (Qeq_dec vnew vold) as [E|N].
  - destruct (Heq E) as (H1 & H2 & H3). exists [].
    rewrite app_nil_r. split; [exact H1|]. split; [|split; [|split]].
    + split; [discriminate | intros H; contradiction].
    + split; [intros _; exact E | reflexivity].
    + intros H. contradiction.
    + intros _. split; assumption.
  - destruct (Hne N) as (H1 & H2 & H3). exists [(tk, balance)].
    split; [exact H1|]. split; [|split; [|split]].
    + split; [intros _; exact N | reflexivity].
    + split; [discriminate | intros H; contradiction].
    + intros _. split; assumption.
    + intros H. contradiction.
Qed.

(** C5, at concrete balances: with ["1"] cached, the amount ["1.0"] is
    the same decimal and notifies nothing; the amount ["2"] notifies. *)
Lemma C5_balance_change_iff_value_differs_witness :
  let st := Fixtures.wallet 0 {["FIO"%string := "1"%string]} in
  (exists notified,
     balanceChanges (trace (updateBalance "FIO" "1.0" st).1)
     = balanceChanges (trace st) ++ notified /\
     (notified = [] <-> (1 == 1)%Q)) /\
  (exists notified,
     balanceChanges (trace (updateBalance "FIO" "2" st).1)
     = balanceChanges (trace st) ++ notified /\
     (notified = [("FIO", "2")]%string <-> ~ (2 == 1)%Q)).
Proof.
  intros st.
  assert (denotes
            (default "0"%string
               (totalBalances (walletLocalData st) !! "FIO"%string)) 1) as H1
      by (vm_compute; eexists; split; reflexivity).
  assert (denotes "1.0" 1) as H10 by (eexists; split; reflexivity).
  assert (denotes "2" 2) as H2 by (eexists; split; reflexivity).
  split.
  - destruct (C5_balance_change_iff_value_differs "FIO" "1.0" st 1 1 H10 H1)
      as (_ & notified & Hn & _ & Hz & _).
    exists notified. split; assumption.
  - destruct (C5_balance_change_iff_value_differs "FIO" "2" st 2 1 H2 H1)
      as (_ & notified & Hn & Hd & _).
    exists notified. split; assumption.
Defined.

(** ** Building a spend                                                   *)

(** The balance [makeSpend] compares against. *)
Lemma makeSpend_steps (env : Env) (spend : EdgeSpendInfo) (st st1 : Engine)
  (target : EdgeSpendTarget) (rest : list EdgeSpendTarget) (f : Z)
  (vq vb : Q) :
  spendTargets spend = target :: rest ->
  denotes_unsigned (st_nativeAmount target) vq ->
  denotes
    (default "0"%string
       (totalBalances (walletLocalData st)
        !! default (info_currencyCode env) (si_currencyCode spend))) vb ->
  multicastServers env "getFee"
    (JObj [("endPoint"%string, EndPoint_transferTokens env)]) None st
  = (st1, Ok (RFee f)) ->
  ((vb < vq + inject_Z f)%Q /\
   makeSpend env spend st = (st1, Throw ExInsufficientFunds)) \/
  (~ (vb < vq + inject_Z f)%Q /\
   exists nativeAmount,
     denotes nativeAmount (- (vq + inject_Z f))%Q /\
     (exists d, nativeAmount = Bns.print d) /\
     makeSpend env spend st
     = (st1,
        Ok {| txid := "";
              date := DateZero;
              currencyCode :=
                default (info_currencyCode env) (si_currencyCode spend);
              blockHeight := 0;
              nativeAmount := nativeAmount;
              networkFee := Bns.Z_to_string f;
              parentNetworkFee := None;
              ourReceiveAddresses := [];
              signedTx := "0";
              otherParams :=
                Some {| transactionJson :=
                  Some {| actions :=
                    [{| act_account := "fio.token";
                        act_name := "trnsfiopubky";
                        act_authorization :=
                          [{| actor := ""; permission := "active" |}];
                        act_data :=
                          {| data_from := publicKey (keys st1);
                             data_to := publicAddress target;
                             data_quantity := st_nativeAmount target;
                             data_memo := "" |} |}] |} |};
              metadata := None |})).
Proof.
  intros Ht Hq Hb Hfee.
  destruct (BnsFacts.denotes_unsigned_signed _ _ Hq) as [Hq1 Hq2].
  pose proof (BnsFacts.denotes_Z_to_string f) as Hf.
  destruct (BnsFacts.bns_add_denotes _ _ _ _ Hq1 Hf) as (total & Hadd & Htot).
  destruct (BnsFacts.bns_gt_denotes _ _ _ _ Htot Hb) as (over & Hgt & Hover).
  unfold makeSpend, bind, super_makeSpend. rewrite Hfee, Ht.
  change (resp_fee (RFee f)) with (JNum f). cbn [js_to_string].
  rewrite Hadd, Hgt.
  destruct over.
  - left. split; [now apply Hover | reflexivity].
  - right. split; [intros H; apply Hover in H; discriminate|].
    assert (exists s, bns_sub ("-" ++ st_nativeAmount target)
                        (Bns.Z_to_string f) = Some s /\
                      denotes s (- (vq + inject_Z f))%Q /\
                      exists d, s = Bns.print d) as (s & Hsub & Hs & Hd).
    { destruct Hq2 as (a & Ha & Va). destruct Hf as (b & Hb' & Vb).
      unfold bns_sub. rewrite Ha, Hb'. eexists. split; [reflexivity|].
      split; [|eexists; reflexivity].
      eapply BnsFacts.denotes_proper; [apply BnsFacts.denotes_print|].
      rewrite BnsFacts.dec_sub_value, Va, Vb. ring. }
    exists s. split; [exact Hs|]. split; [exact Hd|].
    unfold throw. rewrite Hsub. reflexivity.
Qed.

(** C3: once the fee is fetched, [makeSpend] throws
    [InsufficientFundsError] exactly when amount plus fee exceeds the
    cached balance, and otherwise returns an unsigned transaction whose
    [nativeAmount] denotes minus the sum of amount and fee and whose
    [networkFee] is the fetched fee.  With balance ["100"] and amount
    ["90"], a fee of 20 fails and a fee of 5 yields ["-95"]. *)
Theorem C3_makeSpend_funds_check :
  (forall (env : Env) (spend : EdgeSpendInfo) (st st1 : Engine)
          (target : EdgeSpendTarget) (rest : list EdgeSpendTarget) (f : Z)
          (vq vb : Q),
     spendTargets spend = target :: rest ->
     denotes_unsigned (st_nativeAmount target) vq ->
     denotes
       (default "0"%string
          (totalBalances (walletLocalData st)
           !! default (info_currencyCode env) (si_currencyCode spend))) vb ->
     multicastServers env "getFee"
       (JObj [("endPoint"%string, EndPoint_transferTokens env)]) None st
     = (st1, Ok (RFee f)) ->
     ((makeSpend env spend st).2 = Throw ExInsufficientFunds <->
      (vb < vq + inject_Z f)%Q) /\
     (~ (vb < vq + inject_Z f)%Q ->
      exists tx,
        (makeSpend env spend st).2 = Ok tx /\
        denotes (nativeAmount tx) (- (vq + inject_Z f))%Q /\
        networkFee tx = Bns.Z_to_string f /\
        txid tx = ""%string /\ signedTx tx = "0"%string)) /\
  (let st := Fixtures.wallet 0 {["FIO"%string := "100"%string]} in
   (makeSpend (Fixtures.feeEnv 20) (Fixtures.spendOf "90") st).2
   = Throw ExInsufficientFunds /\
   exists tx,
     (makeSpend (Fixtures.feeEnv 5) (Fixtures.spendOf "90") st).2 = Ok tx /\
     nativeAmount tx = "-95"%string /\ networkFee tx = "5"%string).
Proof.
  split.
  - intros env spend st st1 target rest f vq vb Ht Hq Hb Hfee.
    destruct (makeSpend_steps _ _ _ _ _ _ _ _ _ Ht Hq Hb Hfee)
      as [[Hlt ->] | [Hge (s & Hs & _ & ->)]]; cbn [snd].
    + split; [tauto|]. intros H. contradiction.
    + split; [split; [discriminate | contradiction]|].
      intros _. eexists. split; [reflexivity|]. cbn. auto.
  - split; [vm_compute; reflexivity|].
    eexists. split; [vm_compute; reflexivity|]. split; reflexivity.
Qed.

(** C3, at the balance ["100"], the amount ["90"] and a fee of 20. *)
Lemma C3_makeSpend_funds_check_witness :
  let st := Fixtures.wallet 0 {["FIO"%string := "100"%string]} in
  ((makeSpend (Fixtures.feeEnv 20) (Fixtures.spendOf "90") st).2
   = Throw ExInsufficientFunds <-> (100 < 90 + inject_Z 20)%Q) /\
  (exists tx,
     (makeSpend (Fixtures.feeEnv 5) (Fixtures.spendOf "90") st).2 = Ok tx /\
     denotes (nativeAmount tx) (- (90 + inject_Z 5))%Q /\
     networkFee tx = Bns.Z_to_string 5 /\
     txid tx = ""%string /\ signedTx tx = "0"%string).
Proof.
  intros st. split.
  - refine (proj1 (proj1 C3_makeSpend_funds_check
                     (Fixtures.feeEnv 20) (Fixtures.spendOf "90") st _
                     _ _ 20 90%Q 100%Q _ _ _ _)).
    + reflexivity.
    + eexists. split; [vm_compute; reflexivity | reflexivity].
    + vm_compute. eexists. split; reflexivity.
    + vm_compute. reflexivity.
  - refine (proj2 (proj1 C3_makeSpend_funds_check
                     (Fixtures.feeEnv 5) (Fixtures.spendOf "90") st _
                     _ _ 5 90%Q 100%Q _ _ _ _) _).
    + reflexivity.
    + eexists. split; [vm_compute; reflexivity | reflexivity].
    + vm_compute. eexists. split; reflexivity.
    + vm_compute. reflexivity.
    + vm_compute. discriminate.
Defined.

(** ** From a built spend to the broadcast request                        *)

Lemma parse_digits_nonneg (l : list ascii) (acc v : Z) :
  0 <= acc -> Bns.parse_digits l acc = Some v -> 0 <= v.
Proof.
  revert acc. induction l as [|c l IH]; intros acc Hacc; simpl.
  - now intros [= <-].
  - destruct (Bns.digit_of_ascii c) as [d|] eqn:E; [|discriminate].
    apply BnsFacts.digit_range in E. apply IH. lia.
Qed.

Lemma denotes_unsigned_nonneg (s : string) (v : Q) :
  denotes_unsigned s v -> (0 <= v)%Q.
Proof.
  intros (d & Hp & Hv). rewrite <- Hv. unfold Bns.dec_value, Qle. simpl.
  rewrite Z.mul_1_r. revert Hp. unfold Bns.parse_unsigned.
  destruct (Bns.split_dot _) as [[|c i] f]; [discriminate|].
  destruct (Bns.parse_digits (c :: i) 0) as [m|] eqn:Hm;
    [|destruct f; discriminate].
  apply parse_digits_nonneg in Hm; [|lia].
  destruct f as [f|].
  - destruct (Bns.parse_digits f m) as [m'|] eqn:Hm'; [|discriminate].
    intros [= <-]. simpl. now apply parse_digits_nonneg in Hm'.
  - intros [= <-]. exact Hm.
Qed.

Lemma apiWaterfall_trace env actionName params urls errors st :
  exists n,
    (asyncWaterfall_from (map (apiAttempt env actionName params) urls)
       errors st).1
    = add_events (sdkCalls actionName params (take n urls)) st /\
    (urls <> [] -> (0 < n)%nat).
Proof.
  revert errors st. induction urls as [|u urls IH]; intros errors st.
  - exists O. split; [|congruence]. simpl. now rewrite add_events_nil.
  - simpl. unfold try_catch at 1. unfold apiAttempt at 1.
    destruct (sdkCall env actionName params u) as [res|e].
    + exists 1%nat. split; [|lia]. reflexivity.
    + destruct (isFioApiError e).
      * exists 1%nat. split; [|lia]. reflexivity.
      * destruct (IH (ExSdk e :: errors)
                    (emit (EvSdkCall u actionName params) st))
          as (n & Hn & _).
        exists (S n). split; [|lia]. rewrite Hn. simpl.
        now rewrite emit_add_events, add_events_app.
Qed.

Lemma multicastServers_api_trace env actionName params uri st :
  String.eqb actionName "history" = false ->
  exists n,
    (multicastServers env actionName params uri st).1
    = add_events (sdkCalls actionName params (take n (apiUrls env))) st /\
    (apiUrls env <> [] -> (0 < n)%nat).
Proof.
  intros Ha. unfold multicastServers. rewrite Ha. unfold bind, asyncWaterfall.
  destruct (apiWaterfall_trace env actionName params (apiUrls env) [] st)
    as (n & Hn & Hpos).
  exists n. split; [|exact Hpos].
  destruct (asyncWaterfall_from _ _ st) as [st1 [res|e]]; simpl in *;
    [|exact Hn].
  now rewrite throwIfError_state.
Qed.

(** C10: for a transaction that [makeSpend] built for the requested
    amount q and the fetched fee f, the request [broadcastTx] makes of
    every api node it tries carries, as its [amount],
    [abs(nativeAmount + networkFee)], a string that denotes q and that is
    q itself when q is written canonically; its payee is the target's
    address and its [maxFee] the fee. *)
Theorem C10_broadcast_amount_is_requested
  (env : Env) (spend : EdgeSpendInfo) (st st1 : Engine)
  (target : EdgeSpendTarget) (rest : list EdgeSpendTarget) (f : Z)
  (vq vb : Q) :
  spendTargets spend = target :: rest ->
  denotes_unsigned (st_nativeAmount target) vq ->
  denotes
    (default "0"%string
       (totalBalances (walletLocalData st)
        !! default (info_currencyCode env) (si_currencyCode spend))) vb ->
  multicastServers env "getFee"
    (JObj [("endPoint"%string, EndPoint_transferTokens env)]) None st
  = (st1, Ok (RFee f)) ->
  ~ (vb < vq + inject_Z f)%Q ->
  exists tx amount,
    (makeSpend env spend st).2 = Ok tx /\
    bns_add (nativeAmount tx) (networkFee tx) ≫= bns_abs = Some amount /\
    denotes amount vq /\
    (canonical (st_nativeAmount target) -> amount = st_nativeAmount target) /\
    forall env' st',
      exists n request,
        (broadcastTx env' tx st').1
        = add_events
            (sdkCalls "transferTokens" request (take n (apiUrls env'))) st' /\
        get_prop "amount" request = JStr amount /\
        get_prop "payeeFioPublicKey" request = JStr (publicAddress target) /\
        get_prop "maxFee" request = JStr (networkFee tx) /\
        (apiUrls env' <> [] -> (0 < n)%nat).
Proof.
  intros Ht Hq Hb Hfee Hok.
  destruct (makeSpend_steps _ _ _ _ _ _ _ _ _ Ht Hq Hb Hfee)
    as [[Hlt _] | [_ (s & Hs & _ & Hmk)]]; [contradiction|].
  pose proof (BnsFacts.denotes_Z_to_string f) as Hf.
  pose proof (denotes_unsigned_nonneg _ _ Hq) as Hnn.
  assert (exists a, bns_add s (Bns.Z_to_string f) ≫= bns_abs
                    = Some (Bns.print a) /\ (Bns.dec_value a == vq)%Q)
    as (a & Hamt & Va).
  { destruct Hs as (x & Hx & Vx). destruct Hf as (y & Hy & Vy).
    unfold bns_add. rewrite Hx, Hy. simpl. unfold bns_abs.
    destruct (BnsFacts.parse_print (Bns.dec_add x y)) as (z & -> & Vz).
    eexists. split; [reflexivity|].
    rewrite BnsFacts.dec_abs_value, Vz, BnsFacts.dec_add_value, Vx, Vy.
    assert (- (vq + inject_Z f) + inject_Z f == - vq)%Q as -> by ring.
    rewrite Qabs_opp. now apply Qabs_pos. }
  eexists. exists (Bns.print a). rewrite Hmk. split; [reflexivity|].
  cbn [nativeAmount networkFee]. split; [exact Hamt|].
  split; [|split].
  - eapply BnsFacts.denotes_proper; [apply BnsFacts.denotes_print | exact Va].
  - intros (d & Hd & <-). apply BnsFacts.print_canonical.
    destruct (BnsFacts.denotes_unsigned_signed _ _ Hq) as [(d' & Hd' & Vd) _].
    rewrite Hd in Hd'. injection Hd' as <-. now rewrite Va, Vd.
  - intros env' st'. unfold broadcastTx.
    cbn [otherParams transactionJson mbind option_bind actions act_data
         data_to nativeAmount networkFee].
    rewrite Hamt. unfold bind.
    destruct (multicastServers_api_trace env' "transferTokens"
                (JObj [("payeeFioPublicKey", JStr (publicAddress target));
                       ("amount", JStr (Bns.print a));
                       ("maxFee", JStr (Bns.Z_to_string f))]%string)
                None st' eq_refl) as (n & Hn & Hpos).
    exists n,
      (JObj [("payeeFioPublicKey", JStr (publicAddress target));
             ("amount", JStr (Bns.print a));
             ("maxFee", JStr (Bns.Z_to_string f))]%string).
    split; [|repeat split; exact Hpos].
    destruct (multicastServers env' "transferTokens" _ None st')
      as [st2 [res|e]]; simpl in *; [|exact Hn].
    destruct (resp_member "transaction_id" res);
      destruct (resp_member "block_num" res); exact Hn.
Qed.

(** C10, at the balance ["100"], the amount ["90"] and a fee of 5. *)
Lemma C10_broadcast_amount_is_requested_witness :
  let st := Fixtures.wallet 0 {["FIO"%string := "100"%string]} in
  let target := {| publicAddress := "FIO7other"; st_nativeAmount := "90" |} in
  exists tx amount,
    (makeSpend (Fixtures.feeEnv 5) (Fixtures.spendOf "90") st).2 = Ok tx /\
    bns_add (nativeAmount tx) (networkFee tx) ≫= bns_abs = Some amount /\
    denotes amount 90 /\
    (canonical (st_nativeAmount target) -> amount = st_nativeAmount target) /\
    forall env' st',
      exists n request,
        (broadcastTx env' tx st').1
        = add_events
            (sdkCalls "transferTokens" request (take n (apiUrls env'))) st' /\
        get_prop "amount" request = JStr amount /\
        get_prop "payeeFioPublicKey" request = JStr (publicAddress target) /\
        get_prop "maxFee" request = JStr (networkFee tx) /\
        (apiUrls env' <> [] -> (0 < n)%nat).
Proof.
  intros st target.
  refine (C10_broadcast_amount_is_requested
            (Fixtures.feeEnv 5) (Fixtures.spendOf "90") st _
            target [] 5 90%Q 100%Q _ _ _ _ _).
  - reflexivity.
  - eexists. split; [vm_compute; reflexivity | reflexivity].
  - vm_compute. eexists. split; reflexivity.
  - vm_compute. reflexivity.
  - vm_compute. discriminate.
Defined.

(** ** The history walk and the watermark                                 *)

Lemma processTransaction_height transfer actor st :
  (processTransaction transfer actor st).2 = block_height transfer.
Proof.
  unfold processTransaction.
  repeat match goal with
         | |- context [if ?b then _ else _] => destruct b
         end; reflexivity.
Qed.

Lemma processTransaction_watermark transfer actor st :
  watermark (processTransaction transfer actor st).1 = watermark st.
Proof.
  unfold processTransaction.
  repeat match goal with
         | |- context [if ?b then _ else _] => destruct b
         end; reflexivity.
Qed.

Lemma processPage_candidate transfers i actor nh st :
  watermark st <= nh ->
  let '(st', nh', _) := processPage transfers i actor nh st in
  nh <= nh' /\ watermark st' = watermark st /\
  (nh' <= watermark st -> st' = st).
Proof.
  revert i nh st. induction transfers as [|t ts IH]; intros i nh st Hw.
  - simpl. split; [lia|]. split; reflexivity.
  - cbn [processPage].
    pose proof (processTransaction_height t actor st) as Hh.
    pose proof (processTransaction_watermark t actor st) as Hwm.
    pose proof (processTransaction_skip t actor st) as Hskip.
    destruct (processTransaction t actor st) as [st1 blockNum].
    simpl in Hh, Hwm. subst blockNum.
    destruct (Z.gtb_spec (block_height t) nh) as [Hgt|Hle].
    + specialize (IH (i + 1) (block_height t) st1 ltac:(lia)).
      destruct (processPage ts (i + 1) actor (block_height t) st1)
        as [[st' nh'] fin].
      destruct IH as (H1 & H2 & H3). split; [lia|]. split; [congruence|].
      intros H. lia.
    + assert (block_height t <= watermark st -> st1 = st) as Hsame.
      { intros H. specialize (Hskip (or_introl H)). congruence. }
      destruct (_ || _).
      * split; [lia|]. split; [exact Hwm|]. intros H. apply Hsame. lia.
      * specialize (IH (i + 1) nh st1 ltac:(lia)).
        destruct (processPage ts (i + 1) actor nh st1) as [[st' nh'] fin].
        destruct IH as (H1 & H2 & H3). split; [lia|]. split; [congruence|].
        intros H. rewrite H3 by lia. apply Hsame. lia.
Qed.

Lemma watermark_add_events evs st : watermark (add_events evs st) = watermark st.
Proof. reflexivity. Qed.

Lemma pagingLoop_candidate fuel env actor offset pos nh st st' cand :
  watermark st <= nh ->
  pagingLoop fuel env actor offset pos nh st = Some (st', Ok cand) ->
  nh <= cand /\ watermark st' = watermark st /\
  (cand <= watermark st -> exists evs, st' = add_events evs st).
Proof.
  revert pos nh st. induction fuel as [|fuel IH]; intros pos nh st Hw;
    [discriminate|].
  cbn [pagingLoop]. destruct (pos <? 0).
  { intros [= <- <-]. split; [lia|]. split; [reflexivity|].
    intros _. exists []. now rewrite add_events_nil. }
  destruct (historyNodeActions env) as [names|]; [|discriminate].
  destruct (multicastServers_trace_only env "history"
              (transfersParams st pos offset)
              (getTransfers names) st) as [evs Hevs].
  destruct (multicastServers env "history" _ _ st) as [st1 [res|e]];
    [|discriminate].
  simpl in Hevs. subst st1.
  destruct res; try discriminate.
  destruct (0 <? length (sort_desc transfers))%nat.
  - pose proof (processPage_candidate (sort_desc transfers) 0 actor nh
                  (add_events evs st) Hw) as Hp.
    destruct (processPage (sort_desc transfers) 0 actor nh
                (add_events evs st)) as [[st2 nh2] fin].
    destruct Hp as (H1 & H2 & H3).
    rewrite watermark_add_events in H2, H3.
    destruct fin.
    + intros [= <- <-]. split; [lia|]. split; [exact H2|].
      intros H. exists evs. now apply H3.
    + intros Hrec.
      destruct (IH (pos - offset) nh2 st2 ltac:(lia) Hrec)
        as (H4 & H5 & H6).
      split; [lia|]. split; [congruence|].
      intros H. rewrite H2 in H6. destruct (H6 H) as [evs' ->].
      rewrite H3 by lia. exists (evs ++ evs').
      now rewrite add_events_app.
  - intros [= <- <-]. split; [lia|]. split; [reflexivity|].
    intros _. now exists evs.
Qed.

Lemma pagingLoop_total fuel env actor pos nh st :
  (1 <= fuel)%nat -> pos < 10 * (Z.of_nat fuel - 1) ->
  exists res, pagingLoop fuel env actor 10 pos nh st = Some res.
Proof.
  revert pos nh st. induction fuel as [|fuel IH]; intros pos nh st Hf Hpos;
    [lia|].
  cbn [pagingLoop]. destruct (Z.ltb_spec pos 0) as [Hneg|Hnn]; [eauto|].
  destruct (historyNodeActions env) as [names|]; [|eauto].
  destruct (multicastServers env "history" _ _ st) as [st1 [res|e]];
    [|eauto].
  destruct res; eauto.
  destruct (0 <? length (sort_desc transfers))%nat; [|eauto].
  destruct (processPage _ _ _ _ _) as [[st2 nh2] fin].
  destruct fin; [eauto|]. apply IH; lia.
Qed.

Lemma pagingFuel_enough pos :
  (1 <= pagingFuel pos)%nat /\ pos < 10 * (Z.of_nat (pagingFuel pos) - 1).
Proof.
  unfold pagingFuel. split; [lia|].
  destruct (Z.ltb_spec pos 0) as [Hneg|Hnn]; [lia|].
  rewrite Nat2Z.inj_add, Z2Nat.id by (apply Z.div_pos; lia).
  pose proof (Z.div_mod pos 10 ltac:(lia)).
  pose proof (Z.mod_pos_bound pos 10 ltac:(lia)). lia.
Qed.

Lemma lastActionSeq_trace_only env actor : trace_only (lastActionSeq env actor).
Proof.
  intros st. unfold lastActionSeq, try_catch, bind.
  destruct (historyNodeActions env) as [names|];
    [|exists []; simpl; now rewrite add_events_nil].
  destruct (multicastServers_trace_only env "history"
              (JObj [("account_name", JStr actor); ("pos", JNum (-1));
                     ("offset", JNum (-1))]%string)
              (getActions names) st) as [evs Hevs].
  exists evs.
  destruct (multicastServers env "history" _ _ st) as [st1 [res|e]];
    simpl in *; [|exact Hevs].
  destruct res; try exact Hevs.
  destruct account_action_seqs; exact Hevs.
Qed.

Lemma checkTransactions_commit env st :
  checkTransactions env st
  = match historyWalk env st with
    | None => None
    | Some (st1, Throw e) => Some (st1, Throw e)
    | Some (st1, Ok cand) =>
        if cand >? watermark st1 then
          Some (localDataDirty (set_highestTxHeight cand st1), Ok true)
        else Some (st1, Ok true)
    end.
Proof.
  unfold checkTransactions, historyWalk.
  destruct (lastActionSeq_trace_only env (getActor env (publicKey (keys st)))
              st) as [evs Hevs].
  destruct (lastActionSeq env _ st) as [st1 [seq|e]]; [|reflexivity].
  simpl in Hevs. subst st1.
  destruct (seq =? 0).
  - rewrite watermark_add_events.
    now rewrite Z.gtb_ltb, Z.ltb_irrefl.
  - destruct (pagingLoop _ _ _ _ _ _ _) as [[st2 [cand|e]]|]; reflexivity.
Qed.

Lemma historyWalk_candidate env st st1 cand :
  historyWalk env st = Some (st1, Ok cand) ->
  watermark st <= cand /\ watermark st1 = watermark st /\
  (cand <= watermark st -> exists evs, st1 = add_events evs st).
Proof.
  unfold historyWalk.
  destruct (lastActionSeq_trace_only env (getActor env (publicKey (keys st)))
              st) as [evs Hevs].
  destruct (lastActionSeq env _ st) as [st0 [seq|e]]; [|discriminate].
  simpl in Hevs. subst st0. destruct (seq =? 0).
  - intros [= <- <-]. split; [lia|]. split; [reflexivity|].
    intros _. now exists evs.
  - intros Hloop.
    destruct (pagingLoop_candidate _ _ _ _ _ _ _ _ _
                (Z.le_refl (watermark (add_events evs st))) Hloop)
      as (H1 & H2 & H3).
    split; [exact H1|]. split; [exact H2|].
    intros H. destruct (H3 H) as [evs' ->]. exists (evs ++ evs').
    now rewrite add_events_app.
Qed.

Lemma historyWalk_total env st : exists res, historyWalk env st = Some res.
Proof.
  unfold historyWalk.
  destruct (lastActionSeq env _ st) as [st0 [seq|e]]; [|eauto].
  destruct (seq =? 0); [eauto|].
  apply pagingLoop_total; apply pagingFuel_enough.
Qed.

(** C2: from a watermark of 100, pages with heights [150,140,130] and
    [120,110,90] make [checkTransactions] commit 150 and mark the state
    dirty, and the record at height 90 ends the paging: the third page is
    not requested, whereas it is when that record sits at height 105.
    In general [checkTransactions] always returns; when the candidate of
    the walk exceeds the recorded watermark it is committed and the state
    marked dirty, and when it does not, the engine is left as it was up to
    the remote requests in the trace. *)
Theorem C2_watermark_commit :
  (exists st',
     checkTransactions Fixtures.scenarioEnv (Fixtures.wallet 100 ∅)
     = Some (st', Ok true) /\
     watermark st' = 150 /\ walletLocalDataDirty st' = true /\
     fetchedPositions (trace st') = [JNum (-1); JNum 25; JNum 15]) /\
  (exists st',
     checkTransactions Fixtures.scenarioAboveEnv (Fixtures.wallet 100 ∅)
     = Some (st', Ok true) /\
     fetchedPositions (trace st')
     = [JNum (-1); JNum 25; JNum 15; JNum 5]) /\
  (forall env st, exists st' r, checkTransactions env st = Some (st', r)) /\
  (forall env st st1 cand,
     historyWalk env st = Some (st1, Ok cand) ->
     (watermark st < cand ->
      checkTransactions env st
      = Some (localDataDirty (set_highestTxHeight cand st1), Ok true)) /\
     (cand <= watermark st ->
      exists evs, checkTransactions env st = Some (add_events evs st, Ok true))).
Proof.
  split; [|split; [|split]].
  - eexists. split; [vm_compute; reflexivity|].
    repeat split; vm_compute; reflexivity.
  - eexists. split; vm_compute; reflexivity.
  - intros env st. rewrite checkTransactions_commit.
    destruct (historyWalk_total env st) as [[st1 [cand|e]] ->]; [|eauto].
    destruct (_ >? _); eauto.
  - intros env st st1 cand Hwalk.
    destruct (historyWalk_candidate _ _ _ _ Hwalk) as (H1 & H2 & H3).
    rewrite checkTransactions_commit, Hwalk, H2. split.
    + intros H. apply Z.gtb_lt in H. now rewrite H.
    + intros H. destruct (H3 H) as [evs ->]. exists evs.
      destruct (Z.gtb_spec cand (watermark st)); [lia | reflexivity].
Qed.

(** C2, at the scenario (candidate 150 above the watermark 100) and at a
    wallet whose nodes are all unreachable (no candidate above it). *)
Lemma C2_watermark_commit_witness :
  (exists st1,
     checkTransactions Fixtures.scenarioEnv (Fixtures.wallet 100 ∅)
     = Some (localDataDirty (set_highestTxHeight 150 st1), Ok true)) /\
  (exists evs,
     checkTransactions Fixtures.offline (Fixtures.wallet 100 ∅)
     = Some (add_events evs (Fixtures.wallet 100 ∅), Ok true)).
Proof.
  split.
  - eexists.
    refine (proj1 (proj2 (proj2 (proj2 C2_watermark_commit))
                     Fixtures.scenarioEnv (Fixtures.wallet 100 ∅) _ 150 _) _).
    + vm_compute. reflexivity.
    + simpl. lia.
  - refine (proj2 (proj2 (proj2 (proj2 C2_watermark_commit))
                     Fixtures.offline (Fixtures.wallet 100 ∅) _ 100 _) _).
    + vm_compute. reflexivity.
    + simpl. lia.
Defined.

(** ** Account polling when the balance query fails                       *)

Lemma balanceChanges_sdkCalls actionName params urls :
  balanceChanges (sdkCalls actionName params urls) = [].
Proof. induction urls as [|u urls IH]; [reflexivity | exact IH]. Qed.

Lemma apiWaterfall_all_throw env actionName params urls errors st :
  Forall (fun u => exists e, sdkCall env actionName params u = Throws e) urls ->
  exists n r,
    asyncWaterfall_from (map (apiAttempt env actionName params) urls)
      errors st
    = (add_events (sdkCalls actionName params (take n urls)) st, r) /\
    ((exists e, r = Throw e) \/
     (exists e, r = Ok (RApiError (apiErrorWrapper e)))).
Proof.
  intros H. revert errors st.
  induction H as [|u urls [e He] _ IH]; intros errors st.
  - exists O. eexists. split; [|left; eauto]. simpl.
    now rewrite add_events_nil.
  - simpl. unfold try_catch at 1. unfold apiAttempt at 1. rewrite He.
    destruct (isFioApiError e).
    + exists 1%nat. eexists. split; [reflexivity|]. right. eauto.
    + destruct (IH (ExSdk e :: errors)
                  (emit (EvSdkCall u actionName params) st))
        as (n & r & -> & Hr).
      exists (S n), r. split; [|exact Hr]. simpl.
      now rewrite emit_add_events, add_events_app.
Qed.

Lemma multicastServers_all_throw env actionName params uri st :
  String.eqb actionName "history" = false ->
  (forall u, u ∈ apiUrls env ->
             exists e, sdkCall env actionName params u = Throws e) ->
  exists n e,
    multicastServers env actionName params uri st
    = (add_events (sdkCalls actionName params (take n (apiUrls env))) st,
       Throw e).
Proof.
  intros Ha Hall. unfold multicastServers. rewrite Ha.
  unfold bind, asyncWaterfall.
  destruct (apiWaterfall_all_throw env actionName params (apiUrls env) [] st)
    as (n & r & -> & [[e ->] | [e ->]]).
  { apply Forall_forall. exact Hall. }
  - exists n, e. reflexivity.
  - exists n. eexists. reflexivity.
Qed.

Lemma fold_left_names_frame {A} (step : Engine * bool -> A -> Engine * bool)
  (l : list A) (acc : Engine * bool) :
  (forall st b x,
     totalBalances (walletLocalData (step (st, b) x).1)
     = totalBalances (walletLocalData st) /\
     trace (step (st, b) x).1 = trace st /\
     walletLocalDataDirty (step (st, b) x).1 = walletLocalDataDirty st) ->
  totalBalances (walletLocalData (fold_left step l acc).1)
  = totalBalances (walletLocalData acc.1) /\
  trace (fold_left step l acc).1 = trace acc.1 /\
  walletLocalDataDirty (fold_left step l acc).1 = walletLocalDataDirty acc.1.
Proof.
  intros Hstep. revert acc. induction l as [|x l IH]; intros acc; simpl;
    [auto|].
  destruct (IH (step acc x)) as (H1 & H2 & H3).
  destruct acc as [st b]. destruct (Hstep st b x) as (G1 & G2 & G3).
  simpl. split; [congruence|]. split; congruence.
Qed.

Lemma mergeFioNames_frame fio_addresses fio_domains st :
  balance_frame st (mergeFioNames fio_addresses fio_domains st).
Proof.
  unfold mergeFioNames.
  match goal with
  | |- context [fold_left ?f fio_addresses (st, false)] =>
      pose proof (fold_left_names_frame f fio_addresses (st, false)) as H1
  end.
  destruct (fold_left _ fio_addresses (st, false)) as [st1 ch1].
  match goal with
  | |- context [fold_left ?f fio_domains (st1, ch1)] =>
      pose proof (fold_left_names_frame f fio_domains (st1, ch1)) as H2
  end.
  destruct (fold_left _ fio_domains (st1, ch1)) as [st2 ch2].
  simpl in H1, H2.
  destruct H1 as (A1 & A2 & A3).
  { intros s b x. destruct (mergeFioAddress _ _). repeat split. }
  destruct H2 as (B1 & B2 & B3).
  { intros s b x. destruct (mergeFioDomain _ _). repeat split. }
  unfold balance_frame.
  destruct ch2; simpl; (split; [congruence|]); (split; [congruence|]);
    [reflexivity | congruence].
Qed.

(** The loops over an untyped answer change the two name lists and, at
    the end, the dirty flag; nothing else. *)
Lemma forFioAddresses_shape items isChanged st :
  exists l, (forFioAddresses items isChanged st).1 = set_fioAddresses l st.
Proof.
  revert isChanged st. induction items as [|item items IH];
    intros isChanged st; simpl.
  - exists (fioAddresses (otherData (walletLocalData st))).
    now destruct st as [[h b []] d k s1 s2 tl q tr].
  - destruct (js_member "fio_address" item) as [name|],
             (js_member "expiration" item) as [expiration|];
      try (exists (fioAddresses (otherData (walletLocalData st)));
           now destruct st as [[h b []] d k s1 s2 tl q tr]).
    destruct (mergeAddress name expiration _) as [l changed].
    destruct (IH (isChanged || changed) (set_fioAddresses l st)) as [l' ->].
    now exists l'.
Qed.

Lemma forFioDomains_shape items isChanged st :
  exists l, (forFioDomains items isChanged st).1 = set_fioDomains l st.
Proof.
  revert isChanged st. induction items as [|item items IH];
    intros isChanged st; simpl.
  - exists (fioDomains (otherData (walletLocalData st))).
    now destruct st as [[h b []] d k s1 s2 tl q tr].
  - destruct (js_member "fio_domain" item) as [name|],
             (js_member "expiration" item) as [expiration|],
             (js_member "is_public" item) as [is_public|];
      try (exists (fioDomains (otherData (walletLocalData st)));
           now destruct st as [[h b []] d k s1 s2 tl q tr]).
    destruct (mergeDomain name expiration _ _) as [l changed].
    destruct (IH (isChanged || changed) (set_fioDomains l st)) as [l' ->].
    now exists l'.
Qed.

Lemma mergeNamesAnswer_shape result st :
  exists la ld (dirty : bool),
    (mergeNamesAnswer result st).1
    = (if dirty then localDataDirty else id)
        (set_fioDomains ld (set_fioAddresses la st)).
Proof.
  assert (st = set_fioDomains (fioDomains (otherData (walletLocalData st)))
                 (set_fioAddresses
                    (fioAddresses (otherData (walletLocalData st))) st))
    as Hst by now destruct st as [[h b []] d k s1 s2 tl q tr].
  unfold mergeNamesAnswer, bind.
  destruct (js_member "fio_addresses" result ≫= js_iterate) as [items|];
    [|do 2 eexists; exists false; exact Hst].
  destruct (forFioAddresses_shape items false st) as [la Hla].
  destruct (forFioAddresses items false st) as [s1 [c1|e]];
    simpl in Hla; subst s1.
  2:{ exists la, (fioDomains (otherData (walletLocalData st))), false.
      now destruct st as [[h b []] d k s1 s2 tl q tr]. }
  destruct (js_member "fio_domains" result ≫= js_iterate) as [ditems|].
  2:{ exists la, (fioDomains (otherData (walletLocalData st))), false.
      now destruct st as [[h b []] d k s1 s2 tl q tr]. }
  destruct (forFioDomains_shape ditems c1 (set_fioAddresses la st))
    as [ld Hld].
  destruct (forFioDomains ditems c1 (set_fioAddresses la st))
    as [s2 [c2|e]]; simpl in Hld; subst s2.
  - exists la, ld, c2. now destruct c2.
  - now exists la, ld, false.
Qed.

Lemma mergeNamesAnswer_frame result st :
  balance_frame st (mergeNamesAnswer result st).1.
Proof.
  destruct (mergeNamesAnswer_shape result st) as (la & ld & d & ->).
  unfold balance_frame. destruct d; simpl; auto.
Qed.

Lemma checkFioNames_frame env st :
  (checkFioNames env st).2 = Ok tt /\ balance_frame st (checkFioNames env st).1.
Proof.
  unfold checkFioNames, try_catch, bind.
  destruct (multicastServers_api_trace env "getFioNames"
              (JObj [("fioPublicKey", JStr (publicKey (keys st)))]%string)
              None st eq_refl) as (n & Hn & _).
  destruct (multicastServers env "getFioNames" _ None st) as [st1 [res|e]];
    simpl in Hn; subst st1.
  - assert (balance_frame st
              (add_events (sdkCalls "getFioNames"
                 (JObj [("fioPublicKey", JStr (publicKey (keys st)))]%string)
                 (take n (apiUrls env))) st)) as Hf.
    { unfold balance_frame. simpl.
      rewrite balanceChanges_app, balanceChanges_sdkCalls, app_nil_r. auto. }
    assert (forall result,
              (let (st', r) :=
                 mergeNamesAnswer result
                   (add_events (sdkCalls "getFioNames"
                      (JObj [("fioPublicKey",
                              JStr (publicKey (keys st)))]%string)
                      (take n (apiUrls env))) st) in
               match r with
               | Ok a => (st', Ok a)
               | Throw _ => ret tt st'
               end).2 = Ok tt /\
              balance_frame st
                (let (st', r) :=
                   mergeNamesAnswer result
                     (add_events (sdkCalls "getFioNames"
                        (JObj [("fioPublicKey",
                                JStr (publicKey (keys st)))]%string)
                        (take n (apiUrls env))) st) in
                 match r with
                 | Ok a => (st', Ok a)
                 | Throw _ => ret tt st'
                 end).1) as Hany.
    { intros result.
      pose proof (mergeNamesAnswer_frame result
                    (add_events (sdkCalls "getFioNames"
                       (JObj [("fioPublicKey",
                               JStr (publicKey (keys st)))]%string)
                       (take n (apiUrls env))) st)) as (G1 & G2 & G3).
      destruct Hf as (F1 & F2 & F3).
      destruct (mergeNamesAnswer result _) as [s2 [[]|e]]; simpl in *;
        (split; [reflexivity|]); unfold balance_frame;
        (split; [congruence|]); (split; [congruence|]); auto. }
    destruct res; try apply Hany.
    simpl. split; [reflexivity|].
    destruct Hf as (F1 & F2 & F3).
    destruct (mergeFioNames_frame fio_addresses fio_domains
                (add_events (sdkCalls "getFioNames"
                   (JObj [("fioPublicKey",
                           JStr (publicKey (keys st)))]%string)
                   (take n (apiUrls env))) st)) as (G1 & G2 & G3).
    unfold balance_frame. split; [congruence|]. split; [congruence|]. auto.
  - simpl. split; [reflexivity|]. unfold balance_frame. simpl.
    rewrite balanceChanges_app, balanceChanges_sdkCalls, app_nil_r. auto.
Qed.

(** C7 (amended): when the balance query fails on every api node, the
    polling cycle still completes without throwing, and it treats the
    balance as ["0"]: a cached balance that denotes zero stays as it is and
    nothing is notified, any other cached balance is replaced by ["0"],
    the dirty flag is set and [onBalanceChanged(currencyCode, "0")] is
    notified once. *)
Theorem C7_failed_balance_query_reads_zero (env : Env) (st : Engine)
  (vold : Q) :
  (forall apiUrl, apiUrl ∈ apiUrls env ->
     exists e, genericAction env apiUrl "getFioBalance" JUndefined = Throws e) ->
  denotes
    (default "0"%string
       (totalBalances (walletLocalData st) !! info_currencyCode env)) vold ->
  let st' := (checkAccountInnerLoop env st).1 in
  (checkAccountInnerLoop env st).2 = Ok tt /\
  ((vold == 0)%Q ->
   totalBalances (walletLocalData st') !! info_currencyCode env
   = Some (default "0"%string
             (totalBalances (walletLocalData st) !! info_currencyCode env)) /\
   balanceChanges (trace st') = balanceChanges (trace st)) /\
  (~ (vold == 0)%Q ->
   totalBalances (walletLocalData st') !! info_currencyCode env
   = Some "0"%string /\
   balanceChanges (trace st')
   = balanceChanges (trace st) ++ [(info_currencyCode env, "0"%string)] /\
   walletLocalDataDirty st' = true).
Proof.
  intros Hfail Hold.
  set (cc := info_currencyCode env) in *.
  set (st0 := match totalBalances (walletLocalData st) !! cc with
              | Some _ => st
              | None => set_totalBalance cc "0" st
              end).
  assert (totalBalances (walletLocalData st0) !! cc
          = Some (default "0"%string
                    (totalBalances (walletLocalData st) !! cc))) as Hc.
  { subst st0. destruct (totalBalances (walletLocalData st) !! cc) eqn:E;
      simpl; [exact E | apply lookup_insert_eq]. }
  assert (trace st0 = trace st) as Ht.
  { subst st0. now destruct (totalBalances (walletLocalData st) !! cc). }
  destruct (multicastServers_all_throw env "getFioBalance" JUndefined None st0
              eq_refl Hfail) as (n & e & Hquery).
  set (st1 := add_events
                (sdkCalls "getFioBalance" JUndefined (take n (apiUrls env)))
                st0) in *.
  assert (denotes "0" 0) as Hzero by (eexists; split; reflexivity).
  assert (denotes (default "0"%string
                     (totalBalances (walletLocalData st1) !! cc)) vold)
    as Hold1.
  { subst st1. simpl. rewrite Hc. exact Hold. }
  pose proof (updateBalance_effect cc "0" st1 0 vold Hzero Hold1) as Hupd.
  cbv zeta in Hupd. destruct Hupd as (Hr2 & Hne & Heq).
  set (st2 := (updateBalance cc "0" st1).1) in *.
  assert (checkAccountInnerLoop env st = checkFioNames env st2) as ->.
  { unfold checkAccountInnerLoop, bind, modify, try_catch. fold cc. fold st0.
    rewrite Hquery. unfold ret.
    destruct (updateBalance cc "0" st1) as [s2 r2] eqn:E. simpl in Hr2.
    subst r2. reflexivity. }
  pose proof (checkFioNames_frame env st2) as (Hr & F1 & F2 & F3).
  cbv zeta. split; [exact Hr|].
  assert (balanceChanges (trace st1) = balanceChanges (trace st)) as Hb1.
  { subst st1. simpl.
    now rewrite balanceChanges_app, balanceChanges_sdkCalls, app_nil_r, Ht. }
  assert (totalBalances (walletLocalData st1) !! cc
          = Some (default "0"%string
                    (totalBalances (walletLocalData st) !! cc))) as Hc1.
  { subst st1. simpl. exact Hc. }
  split.
  - intros Hz. destruct Heq as (E1 & E2 & E3); [now symmetry|].
    rewrite F1, F2, E1, E3, Hc1, Hb1. auto.
  - intros Hnz. destruct Hne as (E1 & E2 & E3).
    { intros H. apply Hnz. now symmetry. }
    rewrite F1, F2, E1, E3, Hb1. auto.
Qed.

(** C7, at a wallet with ["100"] cached whose nodes are all unreachable. *)
Lemma C7_failed_balance_query_reads_zero_witness :
  let st := Fixtures.wallet 0 {["FIO"%string := "100"%string]} in
  let st' := (checkAccountInnerLoop Fixtures.offline st).1 in
  (checkAccountInnerLoop Fixtures.offline st).2 = Ok tt /\
  totalBalances (walletLocalData st') !! "FIO"%string = Some "0"%string /\
  balanceChanges (trace st')
  = balanceChanges (trace st) ++ [("FIO", "0")]%string /\
  walletLocalDataDirty st' = true.
Proof.
  intros st st'. subst st'.
  assert (forall apiUrl, apiUrl ∈ apiUrls Fixtures.offline ->
            exists e, genericAction Fixtures.offline apiUrl "getFioBalance"
                        JUndefined = Throws e) as Hfail
      by (intros apiUrl _; eexists; reflexivity).
  assert (denotes
            (default "0"%string
               (totalBalances (walletLocalData st)
                !! info_currencyCode Fixtures.offline)) 100) as Hold
      by (vm_compute; eexists; split; reflexivity).
  destruct (C7_failed_balance_query_reads_zero Fixtures.offline st 100
              Hfail Hold) as (Hr & _ & Hnz).
  split; [exact Hr|]. apply Hnz. vm_compute. discriminate.
Defined.

(** C7 (as stated) fails: with ["100"] cached and every node
    unreachable, the cycle overwrites the cached balance with ["0"] and
    notifies [onBalanceChanged("FIO", "0")]. *)
Lemma C7_cached_balance_overwritten :
  let st := Fixtures.wallet 0 {["FIO"%string := "100"%string]} in
  let st' := (checkAccountInnerLoop Fixtures.offline st).1 in
  totalBalances (walletLocalData st) !! "FIO"%string = Some "100"%string /\
  totalBalances (walletLocalData st') !! "FIO"%string = Some "0"%string /\
  totalBalances (walletLocalData st') !! "FIO"%string
  <> totalBalances (walletLocalData st) !! "FIO"%string /\
  balanceChanges (trace st') = [("FIO", "0")]%string.
Proof.
  split; [vm_compute; reflexivity|]. split; [vm_compute; reflexivity|].
  split; [vm_compute; discriminate | vm_compute; reflexivity].
Qed.

(* ===================================================================== *)
(** * Further properties of the engine                                    *)
(* ===================================================================== *)

(** ** Sorting a page                                                     *)

Lemma insert_desc_perm x l : insert_desc x l ≡ₚ x :: l.
Proof.
  induction l as [|y r IH]; simpl; [reflexivity|].
  destruct (block_height y <=? block_height x); [reflexivity|].
  rewrite IH. apply Permutation_swap.
Qed.

Lemma insert_desc_sorted x l :
  StronglySorted (fun a b => block_height b <= block_height a) l ->
  StronglySorted (fun a b => block_height b <= block_height a)
    (insert_desc x l).
Proof.
  induction 1 as [|y r Hr IH Hy]; simpl.
  - repeat constructor.
  - destruct (Z.leb_spec (block_height y) (block_height x)) as [Hle|Hgt].
    + constructor; [constructor; assumption|].
      constructor; [exact Hle|].
      eapply Forall_impl; [exact Hy|]. simpl. intros z Hz. lia.
    + constructor; [exact IH|].
      rewrite insert_desc_perm. constructor; [lia | exact Hy].
Qed.

Lemma insert_desc_filter x l h :
  filter (fun t => block_height t = h) (insert_desc x l)
  = filter (fun t => block_height t = h) (x :: l).
Proof.
  induction l as [|y r IH]; simpl; [reflexivity|].
  destruct (Z.leb_spec (block_height y) (block_height x)) as [Hle|Hgt];
    [reflexivity|].
  rewrite !filter_cons in *.
  destruct (decide (block_height x = h)) as [Hx|Hx];
    destruct (decide (block_height y = h)) as [Hy|Hy]; try lia;
    rewrite IH; reflexivity.
Qed.

(** X1: the page sort loses and invents no record, puts larger heights
    first, and keeps records of equal height in the order the node sent
    them. *)
Theorem sort_desc_sorts (l : list FioTransactionSuperNode) :
  sort_desc l ≡ₚ l /\
  StronglySorted (fun a b => block_height b <= block_height a) (sort_desc l) /\
  forall h,
    filter (fun t => block_height t = h) (sort_desc l)
    = filter (fun t => block_height t = h) l.
Proof.
  unfold sort_desc. induction l as [|x l (IHp & IHs & IHf)]; simpl.
  - split; [reflexivity|]. split; [constructor | reflexivity].
  - split; [|split].
    + rewrite insert_desc_perm. now constructor.
    + now apply insert_desc_sorted.
    + intros h. rewrite insert_desc_filter, !filter_cons, IHf. reflexivity.
Qed.

(** ** Merging the account's addresses and domains                        *)

Lemma js_strict_eq_str (x : jsval) (s : string) :
  reflect (x = JStr s) (js_strict_eq x (JStr s)).
Proof.
  destruct x; simpl; try (constructor; discriminate).
  destruct (String.eqb_spec s0 s); constructor; congruence.
Qed.

Lemma js_strict_eq_str_refl (s : string) :
  js_strict_eq (JStr s) (JStr s) = true.
Proof. simpl. apply String.eqb_refl. Qed.

Lemma js_strict_eq_str_neq (x : jsval) (s : string) :
  x <> JStr s -> js_strict_eq x (JStr s) = false.
Proof. now destruct (js_strict_eq_str x s). Qed.

Lemma elem_of_str_dec (s : string) (l : list jsval) :
  {JStr s ∈ l} + {JStr s ∉ l}.
Proof.
  induction l as [|x l [IH|IH]].
  - right. intros H. inversion H.
  - left. now right.
  - destruct (js_strict_eq_str x s) as [E|N].
    + left. rewrite E. left.
    + right. intros H. apply elem_of_cons in H as [H|H]; auto.
Qed.

Lemma mergeFioAddress_names r l :
  (JStr (fio_address r) ∈ map fa_name l ->
   map fa_name (mergeFioAddress r l).1 = map fa_name l) /\
  (JStr (fio_address r) ∉ map fa_name l ->
   map fa_name (mergeFioAddress r l).1
   = map fa_name l ++ [JStr (fio_address r)]).
Proof.
  unfold mergeFioAddress.
  induction l as [|a l [IH1 IH2]]; simpl.
  - split; [intros H; inversion H | reflexivity].
  - destruct (js_strict_eq_str (fa_name a) (fio_address r)) as [E|N].
    + split.
      * intros _. destruct (negb _); reflexivity.
      * intros H. exfalso. apply H. rewrite E. left.
    + destruct (mergeAddress _ _ l) as [l' ch]. simpl in *. split.
      * intros H. apply elem_of_cons in H as [H|H]; [congruence|].
        now rewrite IH1.
      * intros H. rewrite IH2; [reflexivity|].
        intros H'. apply H. now right.
Qed.

Lemma mergeFioAddress_find r l :
  List.find (fun a => js_strict_eq (fa_name a) (JStr (fio_address r)))
    (mergeFioAddress r l).1
  = Some {| fa_name := JStr (fio_address r);
           fa_expiration := JStr (ra_expiration r) |}.
Proof.
  unfold mergeFioAddress.
  induction l as [|a l IH]; simpl.
  - now rewrite String.eqb_refl.
  - destruct (js_strict_eq_str (fa_name a) (fio_address r)) as [E|N].
    + destruct (js_strict_eq_str (fa_expiration a) (ra_expiration r))
        as [E'|N']; simpl.
      * rewrite E; simpl; rewrite String.eqb_refl. destruct a; simpl in *.
        congruence.
      * rewrite E; simpl; rewrite String.eqb_refl. reflexivity.
    + destruct (mergeAddress _ _ l) as [l' ch]. simpl in *.
      apply js_strict_eq_str_neq in N. now rewrite N.
Qed.

Lemma mergeFioAddress_changed r l :
  (mergeFioAddress r l).2 = false <-> (mergeFioAddress r l).1 = l.
Proof.
  unfold mergeFioAddress.
  induction l as [|a l IH]; simpl.
  - split; discriminate.
  - destruct (js_strict_eq (fa_name a) (JStr (fio_address r))).
    + destruct (js_strict_eq_str (fa_expiration a) (ra_expiration r))
        as [E'|N']; simpl; [tauto|].
      split; [discriminate|]. intros [= H]. destruct a; simpl in *. congruence.
    + destruct (mergeAddress _ _ l) as [l' ch]. simpl in *.
      rewrite IH. split; [congruence | now intros [= ->]].
Qed.

Lemma mergeFioAddress_others r l a :
  a ∈ l -> fa_name a <> JStr (fio_address r) -> a ∈ (mergeFioAddress r l).1.
Proof.
  unfold mergeFioAddress.
  induction l as [|b l IH]; intros Ha Hn; [inversion Ha|]. simpl.
  destruct (js_strict_eq_str (fa_name b) (fio_address r)) as [E|N].
  - assert (a <> b) by congruence.
    apply elem_of_cons in Ha as [->|Ha]; [congruence|].
    destruct (negb _); simpl; now right.
  - destruct (mergeAddress _ _ l) as [l' ch]. simpl in *.
    apply elem_of_cons in Ha as [->|Ha]; [left | right; auto].
Qed.

Lemma mergeFioAddress_settled r l :
  List.find (fun a => js_strict_eq (fa_name a) (JStr (fio_address r))) l
  = Some {| fa_name := JStr (fio_address r);
           fa_expiration := JStr (ra_expiration r) |} ->
  mergeFioAddress r l = (l, false).
Proof.
  unfold mergeFioAddress.
  induction l as [|a l IH]; simpl; [discriminate|].
  destruct (js_strict_eq_str (fa_name a) (fio_address r)) as [E|N].
  - intros [= ->]. simpl. now rewrite String.eqb_refl.
  - intros Hf. now rewrite (IH Hf).
Qed.

Lemma mergeFioAddress_nodup r l :
  NoDup (map fa_name l) -> NoDup (map fa_name (mergeFioAddress r l).1).
Proof.
  intros Hnd. destruct (mergeFioAddress_names r l) as [Hin Hnin].
  destruct (elem_of_str_dec (fio_address r) (map fa_name l)) as [H|H];
    [now rewrite Hin|].
  rewrite Hnin by exact H.
  apply NoDup_app. split; [exact Hnd|]. split; [|apply NoDup_singleton].
  intros x Hx Hx'. apply list_elem_of_singleton in Hx'. congruence.
Qed.

(** X2: one round of the address loop treats the list as keyed by name.
    Afterwards the first entry of the reported name carries the reported
    expiration; the names are the old ones, plus the reported one at the
    end if it was new; entries of other names are kept; names that were
    distinct stay distinct; the round reports no change exactly when the
    list is as before; and a second round with the same record changes
    nothing. *)
Theorem mergeFioAddress_keyed_update (r : RemoteFioAddress)
  (l : list FioAddress) :
  let l' := (mergeFioAddress r l).1 in
  List.find (fun a => js_strict_eq (fa_name a) (JStr (fio_address r))) l'
  = Some {| fa_name := JStr (fio_address r);
           fa_expiration := JStr (ra_expiration r) |} /\
  (JStr (fio_address r) ∈ map fa_name l -> map fa_name l' = map fa_name l) /\
  (JStr (fio_address r) ∉ map fa_name l ->
   map fa_name l' = map fa_name l ++ [JStr (fio_address r)]) /\
  (forall a, a ∈ l -> fa_name a <> JStr (fio_address r) -> a ∈ l') /\
  (NoDup (map fa_name l) -> NoDup (map fa_name l')) /\
  ((mergeFioAddress r l).2 = false <-> l' = l) /\
  mergeFioAddress r l' = (l', false).
Proof.
  intros l'. subst l'.
  destruct (mergeFioAddress_names r l) as [Hin Hnin].
  split; [apply mergeFioAddress_find|].
  split; [exact Hin|]. split; [exact Hnin|].
  split; [intros a; apply mergeFioAddress_others|].
  split; [|split; [apply mergeFioAddress_changed|]].
  - apply mergeFioAddress_nodup.
  - apply mergeFioAddress_settled, mergeFioAddress_find.
Qed.

(** X2, at the address list of the synced wallet: a new name is appended,
    a known name is not. *)
Lemma mergeFioAddress_keyed_update_witness :
  let l := fioAddresses (otherData (walletLocalData Fixtures.syncedWallet)) in
  map fa_name (mergeFioAddress Fixtures.remoteBob l).1
  = map fa_name l ++ [JStr "bob@edge"] /\
  map fa_name (mergeFioAddress Fixtures.remoteAlice l).1 = map fa_name l /\
  NoDup (map fa_name (mergeFioAddress Fixtures.remoteBob l).1) /\
  {| fa_name := JStr "alice@edge";
     fa_expiration := JStr "2021-05-01T00:00:00" |}
  ∈ (mergeFioAddress Fixtures.remoteBob l).1.
Proof.
  intros l.
  destruct (mergeFioAddress_keyed_update Fixtures.remoteBob l)
    as (_ & _ & Hnew & Hothers & Hnd & _).
  destruct (mergeFioAddress_keyed_update Fixtures.remoteAlice l)
    as (_ & Hknown & _).
  split; [|split; [|split]].
  - apply Hnew. simpl. intros H. apply list_elem_of_singleton in H.
    discriminate.
  - apply Hknown. simpl. left.
  - apply Hnd. simpl. apply NoDup_singleton.
  - apply Hothers; [simpl; left | simpl; discriminate].
Defined.

Lemma mergeFioDomain_head existed r :
  {| fd_name := fd_name existed;
     fd_expiration :=
       if negb (js_strict_eq (fd_expiration existed) (JStr (rd_expiration r)))
       then JStr (rd_expiration r) else fd_expiration existed;
     fd_isPublic :=
       if negb (Bool.eqb (fd_isPublic existed) (negb (is_public r =? 0)))
       then negb (is_public r =? 0) else fd_isPublic existed |}
  = {| fd_name := fd_name existed;
       fd_expiration := JStr (rd_expiration r);
       fd_isPublic := negb (is_public r =? 0) |}.
Proof.
  f_equal.
  - destruct (js_strict_eq_str (fd_expiration existed) (rd_expiration r));
      simpl; congruence.
  - destruct (Bool.eqb (fd_isPublic existed) (negb (is_public r =? 0))) eqn:E;
      simpl; [now apply Bool.eqb_prop in E | reflexivity].
Qed.

Lemma mergeFioDomain_names r l :
  (JStr (fio_domain r) ∈ map fd_name l ->
   map fd_name (mergeFioDomain r l).1 = map fd_name l) /\
  (JStr (fio_domain r) ∉ map fd_name l ->
   map fd_name (mergeFioDomain r l).1 = map fd_name l ++ [JStr (fio_domain r)]).
Proof.
  unfold mergeFioDomain.
  induction l as [|a l [IH1 IH2]]; simpl.
  - split; [intros H; inversion H | reflexivity].
  - destruct (js_strict_eq_str (fd_name a) (fio_domain r)) as [E|N].
    + split; [reflexivity|]. intros H. exfalso. apply H. rewrite E. left.
    + destruct (mergeDomain _ _ _ l) as [l' ch]. simpl in *. split.
      * intros H. apply elem_of_cons in H as [H|H]; [congruence|].
        now rewrite IH1.
      * intros H. rewrite IH2; [reflexivity|].
        intros H'. apply H. now right.
Qed.

Lemma mergeFioDomain_find r l :
  List.find (fun d => js_strict_eq (fd_name d) (JStr (fio_domain r)))
    (mergeFioDomain r l).1
  = Some {| fd_name := JStr (fio_domain r);
           fd_expiration := JStr (rd_expiration r);
            fd_isPublic := negb (is_public r =? 0) |}.
Proof.
  unfold mergeFioDomain.
  induction l as [|a l IH]; simpl.
  - now rewrite String.eqb_refl.
  - destruct (js_strict_eq_str (fd_name a) (fio_domain r)) as [E|N].
    + cbn [fst List.find fd_name]. rewrite E; simpl; rewrite String.eqb_refl.
      rewrite <- E. f_equal. apply mergeFioDomain_head.
    + destruct (mergeDomain _ _ _ l) as [l' ch]. simpl in *.
      apply js_strict_eq_str_neq in N. now rewrite N.
Qed.

Lemma mergeFioDomain_changed r l :
  (mergeFioDomain r l).2 = false <-> (mergeFioDomain r l).1 = l.
Proof.
  unfold mergeFioDomain.
  induction l as [|a l IH]; simpl.
  - split; discriminate.
  - destruct (js_strict_eq (fd_name a) (JStr (fio_domain r))).
    + cbn [fst snd]. rewrite mergeFioDomain_head. split.
      * intros H. apply orb_false_elim in H as [H1 H2].
        apply negb_false_iff in H1, H2.
        apply js_strict_eq_eq in H1. apply Bool.eqb_prop in H2.
        destruct a; simpl in *. congruence.
      * intros [= H]. destruct a; simpl in *. injection H as H1 H2.
        rewrite <- H1, <- H2. simpl.
        now rewrite String.eqb_refl, Bool.eqb_reflx.
    + destruct (mergeDomain _ _ _ l) as [l' ch]. simpl in *.
      rewrite IH. split; [congruence | now intros [= ->]].
Qed.

Lemma mergeFioDomain_others r l a :
  a ∈ l -> fd_name a <> JStr (fio_domain r) -> a ∈ (mergeFioDomain r l).1.
Proof.
  unfold mergeFioDomain.
  induction l as [|b l IH]; intros Ha Hn; [inversion Ha|]. simpl.
  destruct (js_strict_eq_str (fd_name b) (fio_domain r)) as [E|N].
  - apply elem_of_cons in Ha as [->|Ha]; [congruence|]. simpl. now right.
  - destruct (mergeDomain _ _ _ l) as [l' ch]. simpl in *.
    apply elem_of_cons in Ha as [->|Ha]; [left | right; auto].
Qed.

Lemma mergeFioDomain_settled r l :
  List.find (fun d => js_strict_eq (fd_name d) (JStr (fio_domain r))) l
  = Some {| fd_name := JStr (fio_domain r);
           fd_expiration := JStr (rd_expiration r);
            fd_isPublic := negb (is_public r =? 0) |} ->
  mergeFioDomain r l = (l, false).
Proof.
  unfold mergeFioDomain.
  induction l as [|a l IH]; simpl; [discriminate|].
  destruct (js_strict_eq_str (fd_name a) (fio_domain r)) as [E|N].
  - intros [= ->]. simpl. now rewrite String.eqb_refl, Bool.eqb_reflx.
  - intros Hf. now rewrite (IH Hf).
Qed.

Lemma mergeFioDomain_nodup r l :
  NoDup (map fd_name l) -> NoDup (map fd_name (mergeFioDomain r l).1).
Proof.
  intros Hnd. destruct (mergeFioDomain_names r l) as [Hin Hnin].
  destruct (elem_of_str_dec (fio_domain r) (map fd_name l)) as [H|H];
    [now rewrite Hin|].
  rewrite Hnin by exact H.
  apply NoDup_app. split; [exact Hnd|]. split; [|apply NoDup_singleton].
  intros x Hx Hx'. apply list_elem_of_singleton in Hx'. congruence.
Qed.

(** X3: one round of the domain loop treats the list as keyed by name.
    Afterwards the first entry of the reported name carries the reported
    expiration and visibility; the names are the old ones, plus the
    reported one at the end if it was new; entries of other names are
    kept; distinct names stay distinct; the round reports no change
    exactly when the list is as before; and a second round with the same
    record changes nothing. *)
Theorem mergeFioDomain_keyed_update (r : RemoteFioDomain)
  (l : list FioDomain) :
  let l' := (mergeFioDomain r l).1 in
  List.find (fun d => js_strict_eq (fd_name d) (JStr (fio_domain r))) l'
  = Some {| fd_name := JStr (fio_domain r);
           fd_expiration := JStr (rd_expiration r);
            fd_isPublic := negb (is_public r =? 0) |} /\
  (JStr (fio_domain r) ∈ map fd_name l -> map fd_name l' = map fd_name l) /\
  (JStr (fio_domain r) ∉ map fd_name l ->
   map fd_name l' = map fd_name l ++ [JStr (fio_domain r)]) /\
  (forall d, d ∈ l -> fd_name d <> JStr (fio_domain r) -> d ∈ l') /\
  (NoDup (map fd_name l) -> NoDup (map fd_name l')) /\
  ((mergeFioDomain r l).2 = false <-> l' = l) /\
  mergeFioDomain r l' = (l', false).
Proof.
  intros l'. subst l'.
  destruct (mergeFioDomain_names r l) as [Hin Hnin].
  split; [apply mergeFioDomain_find|].
  split; [exact Hin|]. split; [exact Hnin|].
  split; [intros a; apply mergeFioDomain_others|].
  split; [|split; [apply mergeFioDomain_changed|]].
  - apply mergeFioDomain_nodup.
  - apply mergeFioDomain_settled, mergeFioDomain_find.
Qed.

(** X3, at the domain list of the synced wallet. *)
Lemma mergeFioDomain_keyed_update_witness :
  let l := fioDomains (otherData (walletLocalData Fixtures.syncedWallet)) in
  map fd_name (mergeFioDomain Fixtures.remoteFioDomainNew l).1
  = map fd_name l ++ [JStr "fio"] /\
  map fd_name (mergeFioDomain Fixtures.remoteEdgePublic l).1 = map fd_name l /\
  NoDup (map fd_name (mergeFioDomain Fixtures.remoteFioDomainNew l).1) /\
  {| fd_name := JStr "edge"; fd_expiration := JStr "2021-05-01T00:00:00";
     fd_isPublic := false |}
  ∈ (mergeFioDomain Fixtures.remoteFioDomainNew l).1.
Proof.
  intros l.
  destruct (mergeFioDomain_keyed_update Fixtures.remoteFioDomainNew l)
    as (_ & _ & Hnew & Hothers & Hnd & _).
  destruct (mergeFioDomain_keyed_update Fixtures.remoteEdgePublic l)
    as (_ & Hknown & _).
  split; [|split; [|split]].
  - apply Hnew. simpl. intros H. apply list_elem_of_singleton in H.
    discriminate.
  - apply Hknown. simpl. left.
  - apply Hnd. simpl. apply NoDup_singleton.
  - apply Hothers; [simpl; left | simpl; discriminate].
Defined.

Lemma set_fioAddresses_same st :
  set_fioAddresses (fioAddresses (otherData (walletLocalData st))) st = st.
Proof. destruct st as [[h b []] d k s1 s2 tl q tr]. reflexivity. Qed.

Lemma set_fioDomains_same st :
  set_fioDomains (fioDomains (otherData (walletLocalData st))) st = st.
Proof. destruct st as [[h b []] d k s1 s2 tl q tr]. reflexivity. Qed.

Lemma fold_addresses fio_addresses st b :
  exists c,
    fold_left
      (fun '(st, isChanged) fioAddress =>
         let '(l, changed) :=
           mergeFioAddress fioAddress
             (fioAddresses (otherData (walletLocalData st))) in
         (set_fioAddresses l st, isChanged || changed))
      fio_addresses (st, b)
    = (set_fioAddresses
         (mergedAddresses fio_addresses
            (fioAddresses (otherData (walletLocalData st)))) st,
       b || c) /\
    (c = false ->
     mergedAddresses fio_addresses
       (fioAddresses (otherData (walletLocalData st)))
     = fioAddresses (otherData (walletLocalData st))).
Proof.
  revert st b. induction fio_addresses as [|r fa IH]; intros st b.
  - exists false. simpl. rewrite set_fioAddresses_same, orb_false_r. auto.
  - simpl.
    pose proof (proj1 (mergeFioAddress_changed r
                  (fioAddresses (otherData (walletLocalData st))))) as Hch.
    destruct (mergeFioAddress r
                (fioAddresses (otherData (walletLocalData st))))
      as [l1 c1] eqn:E. simpl in Hch.
    destruct (IH (set_fioAddresses l1 st) (b || c1)) as (c2 & -> & Hc2).
    exists (c1 || c2). simpl in *. split.
    + now rewrite orb_assoc.
    + intros H. apply orb_false_elim in H as [-> ->].
      fold (mergedAddresses fa l1). rewrite Hc2 by reflexivity. now apply Hch.
Qed.

Lemma fold_domains fio_domains st b :
  exists c,
    fold_left
      (fun '(st, isChanged) fioDomain =>
         let '(l, changed) :=
           mergeFioDomain fioDomain
             (fioDomains (otherData (walletLocalData st))) in
         (set_fioDomains l st, isChanged || changed))
      fio_domains (st, b)
    = (set_fioDomains
         (mergedDomains fio_domains
            (fioDomains (otherData (walletLocalData st)))) st,
       b || c) /\
    (c = false ->
     mergedDomains fio_domains (fioDomains (otherData (walletLocalData st)))
     = fioDomains (otherData (walletLocalData st))).
Proof.
  revert st b. induction fio_domains as [|r fd IH]; intros st b.
  - exists false. simpl. rewrite set_fioDomains_same, orb_false_r. auto.
  - simpl.
    pose proof (proj1 (mergeFioDomain_changed r
                  (fioDomains (otherData (walletLocalData st))))) as Hch.
    destruct (mergeFioDomain r (fioDomains (otherData (walletLocalData st))))
      as [l1 c1] eqn:E. simpl in Hch.
    destruct (IH (set_fioDomains l1 st) (b || c1)) as (c2 & -> & Hc2).
    exists (c1 || c2). simpl in *. split.
    + now rewrite orb_assoc.
    + intros H. apply orb_false_elim in H as [-> ->].
      fold (mergedDomains fd l1). rewrite Hc2 by reflexivity. now apply Hch.
Qed.

Lemma mergeFioNames_shape fio_addresses fio_domains st :
  exists changed : bool,
    mergeFioNames fio_addresses fio_domains st
    = (if changed then localDataDirty else id)
        (set_fioDomains
           (mergedDomains fio_domains
              (fioDomains (otherData (walletLocalData st))))
           (set_fioAddresses
              (mergedAddresses fio_addresses
                 (fioAddresses (otherData (walletLocalData st)))) st)) /\
    (changed = false -> mergeFioNames fio_addresses fio_domains st = st).
Proof.
  unfold mergeFioNames.
  destruct (fold_addresses fio_addresses st false) as (c1 & -> & H1).
  destruct (fold_domains fio_domains
              (set_fioAddresses
                 (mergedAddresses fio_addresses
                    (fioAddresses (otherData (walletLocalData st)))) st)
              (false || c1)) as (c2 & -> & H2).
  exists (c1 || c2). simpl in *. split; [now destruct (c1 || c2)|].
  intros H. rewrite H. apply orb_false_elim in H as [-> ->].
  rewrite H1, H2 by reflexivity.
  now rewrite set_fioAddresses_same, set_fioDomains_same.
Qed.

Lemma mergedAddresses_names fa l :
  (forall x, x ∈ map fa_name l -> x ∈ map fa_name (mergedAddresses fa l)) /\
  (forall r, r ∈ fa ->
             JStr (fio_address r) ∈ map fa_name (mergedAddresses fa l)) /\
  (NoDup (map fa_name l) -> NoDup (map fa_name (mergedAddresses fa l))).
Proof.
  revert l. induction fa as [|r fa IH]; intros l; simpl.
  - split; [auto|]. split; [intros r H; inversion H | auto].
  - destruct (IH (mergeFioAddress r l).1) as (I1 & I2 & I3).
    destruct (mergeFioAddress_names r l) as [Hin Hnin].
    pose proof (mergeFioAddress_nodup r l) as Hnd.
    assert (forall x, x ∈ map fa_name l ->
                      x ∈ map fa_name (mergeFioAddress r l).1) as Hmono.
    { intros x Hx.
      destruct (elem_of_str_dec (fio_address r) (map fa_name l)) as [H|H].
      - now rewrite Hin.
      - rewrite Hnin by exact H. apply elem_of_app. now left. }
    assert (JStr (fio_address r) ∈ map fa_name (mergeFioAddress r l).1) as Hr.
    { destruct (elem_of_str_dec (fio_address r) (map fa_name l)) as [H|H].
      - now rewrite Hin.
      - rewrite Hnin by exact H. apply elem_of_app. right. left. }
    split; [|split].
    + intros x Hx. apply I1, Hmono, Hx.
    + intros r' Hr'. apply elem_of_cons in Hr' as [->|Hr'];
        [apply I1, Hr | apply I2, Hr'].
    + intros H. apply I3, Hnd, H.
Qed.

Lemma mergedDomains_names fd l :
  (forall x, x ∈ map fd_name l -> x ∈ map fd_name (mergedDomains fd l)) /\
  (forall r, r ∈ fd ->
             JStr (fio_domain r) ∈ map fd_name (mergedDomains fd l)) /\
  (NoDup (map fd_name l) -> NoDup (map fd_name (mergedDomains fd l))).
Proof.
  revert l. induction fd as [|r fd IH]; intros l; simpl.
  - split; [auto|]. split; [intros r H; inversion H | auto].
  - destruct (IH (mergeFioDomain r l).1) as (I1 & I2 & I3).
    destruct (mergeFioDomain_names r l) as [Hin Hnin].
    pose proof (mergeFioDomain_nodup r l) as Hnd.
    assert (forall x, x ∈ map fd_name l ->
                      x ∈ map fd_name (mergeFioDomain r l).1) as Hmono.
    { intros x Hx.
      destruct (elem_of_str_dec (fio_domain r) (map fd_name l)) as [H|H].
      - now rewrite Hin.
      - rewrite Hnin by exact H. apply elem_of_app. now left. }
    assert (JStr (fio_domain r) ∈ map fd_name (mergeFioDomain r l).1) as Hr.
    { destruct (elem_of_str_dec (fio_domain r) (map fd_name l)) as [H|H].
      - now rewrite Hin.
      - rewrite Hnin by exact H. apply elem_of_app. right. left. }
    split; [|split].
    + intros x Hx. apply I1, Hmono, Hx.
    + intros r' Hr'. apply elem_of_cons in Hr' as [->|Hr'];
        [apply I1, Hr | apply I2, Hr'].
    + intros H. apply I3, Hnd, H.
Qed.

Lemma mergeFioAddress_find_other r l n :
  n <> fio_address r ->
  List.find (fun a => js_strict_eq (fa_name a) (JStr n)) (mergeFioAddress r l).1
  = List.find (fun a => js_strict_eq (fa_name a) (JStr n)) l.
Proof.
  intros Hn. unfold mergeFioAddress. induction l as [|a l IH]; simpl.
  - apply String.eqb_neq in Hn. rewrite String.eqb_sym in Hn. now rewrite Hn.
  - destruct (js_strict_eq_str (fa_name a) (fio_address r)) as [E|N].
    + assert (js_strict_eq (fa_name a) (JStr n) = false) as Hf
          by (apply js_strict_eq_str_neq; congruence).
      destruct (negb _); simpl; now rewrite Hf.
    + destruct (mergeAddress _ _ l) as [l' ch]. simpl in *.
      now rewrite IH.
Qed.

Lemma mergedAddresses_find_other fa l n :
  n ∉ map fio_address fa ->
  List.find (fun a => js_strict_eq (fa_name a) (JStr n)) (mergedAddresses fa l)
  = List.find (fun a => js_strict_eq (fa_name a) (JStr n)) l.
Proof.
  revert l. induction fa as [|r fa IH]; intros l Hn; simpl; [reflexivity|].
  apply not_elem_of_cons in Hn as [Hn1 Hn2].
  fold (mergedAddresses fa (mergeFioAddress r l).1).
  rewrite IH by exact Hn2. now apply mergeFioAddress_find_other.
Qed.

Lemma mergedAddresses_find fa l r :
  NoDup (map fio_address fa) -> r ∈ fa ->
  List.find (fun a => js_strict_eq (fa_name a) (JStr (fio_address r)))
    (mergedAddresses fa l)
  = Some {| fa_name := JStr (fio_address r);
           fa_expiration := JStr (ra_expiration r) |}.
Proof.
  revert l. induction fa as [|r0 fa IH]; intros l Hnd Hr; [inversion Hr|].
  simpl in Hnd. apply NoDup_cons in Hnd as [Hr0 Hnd].
  simpl. fold (mergedAddresses fa (mergeFioAddress r0 l).1).
  apply elem_of_cons in Hr as [->|Hr].
  - rewrite mergedAddresses_find_other by exact Hr0.
    apply mergeFioAddress_find.
  - now apply IH.
Qed.

Lemma mergeFioDomain_find_other r l n :
  n <> fio_domain r ->
  List.find (fun d => js_strict_eq (fd_name d) (JStr n)) (mergeFioDomain r l).1
  = List.find (fun d => js_strict_eq (fd_name d) (JStr n)) l.
Proof.
  intros Hn. unfold mergeFioDomain. induction l as [|a l IH]; simpl.
  - apply String.eqb_neq in Hn. rewrite String.eqb_sym in Hn. now rewrite Hn.
  - destruct (js_strict_eq_str (fd_name a) (fio_domain r)) as [E|N].
    + assert (js_strict_eq (fd_name a) (JStr n) = false) as Hf
          by (apply js_strict_eq_str_neq; congruence).
      simpl. now rewrite Hf.
    + destruct (mergeDomain _ _ _ l) as [l' ch]. simpl in *.
      now rewrite IH.
Qed.

Lemma mergedDomains_find_other fd l n :
  n ∉ map fio_domain fd ->
  List.find (fun d => js_strict_eq (fd_name d) (JStr n)) (mergedDomains fd l)
  = List.find (fun d => js_strict_eq (fd_name d) (JStr n)) l.
Proof.
  revert l. induction fd as [|r fd IH]; intros l Hn; simpl; [reflexivity|].
  apply not_elem_of_cons in Hn as [Hn1 Hn2].
  fold (mergedDomains fd (mergeFioDomain r l).1).
  rewrite IH by exact Hn2. now apply mergeFioDomain_find_other.
Qed.

Lemma mergedDomains_find fd l r :
  NoDup (map fio_domain fd) -> r ∈ fd ->
  List.find (fun d => js_strict_eq (fd_name d) (JStr (fio_domain r)))
    (mergedDomains fd l)
  = Some {| fd_name := JStr (fio_domain r);
           fd_expiration := JStr (rd_expiration r);
            fd_isPublic := negb (is_public r =? 0) |}.
Proof.
  revert l. induction fd as [|r0 fd IH]; intros l Hnd Hr; [inversion Hr|].
  simpl in Hnd. apply NoDup_cons in Hnd as [Hr0 Hnd].
  simpl. fold (mergedDomains fd (mergeFioDomain r0 l).1).
  apply elem_of_cons in Hr as [->|Hr].
  - rewrite mergedDomains_find_other by exact Hr0.
    apply mergeFioDomain_find.
  - now apply IH.
Qed.

(** X4: merging a names response is a union with update.  Every
    reported address and domain name is in the local lists afterwards, no
    local name is dropped, and distinct names stay distinct; when the
    response names each address (domain) once, each is stored with the
    reported expiration (and visibility).  Either nothing changed at all
    or the dirty flag is set, and the merge touches nothing but the two
    lists and that flag. *)
Theorem mergeFioNames_union (fio_addresses : list RemoteFioAddress)
  (fio_domains : list RemoteFioDomain) (st : Engine) :
  let st' := mergeFioNames fio_addresses fio_domains st in
  let od := otherData (walletLocalData st) in
  let od' := otherData (walletLocalData st') in
  (forall r, r ∈ fio_addresses ->
             JStr (fio_address r) ∈ map fa_name (fioAddresses od')) /\
  (forall r, r ∈ fio_domains ->
             JStr (fio_domain r) ∈ map fd_name (fioDomains od')) /\
  (forall x, x ∈ map fa_name (fioAddresses od) ->
             x ∈ map fa_name (fioAddresses od')) /\
  (forall x, x ∈ map fd_name (fioDomains od) ->
             x ∈ map fd_name (fioDomains od')) /\
  (NoDup (map fa_name (fioAddresses od)) ->
   NoDup (map fa_name (fioAddresses od'))) /\
  (NoDup (map fd_name (fioDomains od)) ->
   NoDup (map fd_name (fioDomains od'))) /\
  (NoDup (map fio_address fio_addresses) ->
   forall r, r ∈ fio_addresses ->
     List.find (fun a => js_strict_eq (fa_name a) (JStr (fio_address r)))
       (fioAddresses od')
     = Some {| fa_name := JStr (fio_address r);
               fa_expiration := JStr (ra_expiration r) |}) /\
  (NoDup (map fio_domain fio_domains) ->
   forall r, r ∈ fio_domains ->
     List.find (fun d => js_strict_eq (fd_name d) (JStr (fio_domain r)))
       (fioDomains od')
     = Some {| fd_name := JStr (fio_domain r);
               fd_expiration := JStr (rd_expiration r);
               fd_isPublic := negb (is_public r =? 0) |}) /\
  (st' = st \/ walletLocalDataDirty st' = true) /\
  totalBalances (walletLocalData st') = totalBalances (walletLocalData st) /\
  wl_blockHeight (walletLocalData st') = wl_blockHeight (walletLocalData st) /\
  highestTxHeight od' = highestTxHeight od /\
  transactionList st' = transactionList st /\
  trace st' = trace st.
Proof.
  intros st' od od'.
  destruct (mergeFioNames_shape fio_addresses fio_domains st)
    as (changed & Hshape & Hsame).
  assert (fioAddresses od' = mergedAddresses fio_addresses (fioAddresses od))
    as Ha by (subst od' st'; rewrite Hshape; now destruct changed).
  assert (fioDomains od' = mergedDomains fio_domains (fioDomains od))
    as Hd by (subst od' st'; rewrite Hshape; now destruct changed).
  destruct (mergedAddresses_names fio_addresses (fioAddresses od))
    as (A1 & A2 & A3).
  destruct (mergedDomains_names fio_domains (fioDomains od))
    as (D1 & D2 & D3).
  rewrite Ha, Hd.
  split; [exact A2|]. split; [exact D2|]. split; [exact A1|].
  split; [exact D1|]. split; [exact A3|]. split; [exact D3|].
  split; [intros Hnd r Hr; now apply mergedAddresses_find|].
  split; [intros Hnd r Hr; now apply mergedDomains_find|].
  split.
  - destruct changed; [right | left; now apply Hsame].
    subst st'. now rewrite Hshape.
  - subst od od' st'. rewrite Hshape. now destruct changed.
Qed.

(** X4, at the synced wallet and a response with a renewed and a new
    address. *)
Lemma mergeFioNames_union_witness :
  let fa := [Fixtures.remoteAlice; Fixtures.remoteBob] in
  let st' := mergeFioNames fa [] Fixtures.syncedWallet in
  JStr "bob@edge"
  ∈ map fa_name (fioAddresses (otherData (walletLocalData st'))) /\
  JStr "edge"
  ∈ map fd_name (fioDomains (otherData (walletLocalData st'))) /\
  NoDup (map fa_name (fioAddresses (otherData (walletLocalData st')))) /\
  List.find (fun a => js_strict_eq (fa_name a) (JStr "alice@edge"))
    (fioAddresses (otherData (walletLocalData st')))
  = Some {| fa_name := JStr "alice@edge";
            fa_expiration := JStr "2022-05-01T00:00:00" |}.
Proof.
  intros fa st'.
  destruct (mergeFioNames_union fa [] Fixtures.syncedWallet)
    as (Hin & _ & _ & Hkeep & Hnd & _ & Hfind & _).
  split; [|split; [|split]].
  - apply (Hin Fixtures.remoteBob). right. left.
  - apply Hkeep. simpl. left.
  - apply Hnd. simpl. apply NoDup_singleton.
  - apply (Hfind ltac:(simpl; repeat constructor;
                        [intros H; apply list_elem_of_singleton in H;
                         discriminate | intros H; inversion H])
                 Fixtures.remoteAlice).
    left.
Defined.


(** ** What a history record is recorded as                               *)

Lemma Z_to_string_unsigned (n : Z) :
  0 <= n -> denotes_unsigned (Bns.Z_to_string n) (inject_Z n).
Proof.
  intros Hn. exists (Bns.Dec n 0). split; [|reflexivity].
  unfold Bns.Z_to_string, Bns.print, Bns.print_chars, Bns.of_Z. simpl.
  destruct (Z.ltb_spec n 0) as [H|_]; [lia|].
  rewrite list_ascii_of_string_of_list_ascii.
  apply (BnsFacts.parse_unsigned_print n 0 Hn).
Qed.

Lemma processTransaction_cases (transfer : FioTransactionSuperNode)
  (actor : string) (st : Engine) :
  processTransaction transfer actor st = (st, block_height transfer) \/
  exists tx,
    processTransaction transfer actor st
    = (addTransaction "FIO" tx st, block_height transfer) /\
    watermark st < block_height transfer /\
    txid tx = transaction_id transfer /\
    currencyCode tx = "FIO"%string /\
    blockHeight tx
    = (if block_height transfer >? 0 then block_height transfer else 0).
Proof.
  unfold processTransaction.
  destruct (Z.leb_spec (block_height transfer) (watermark st)) as [Hle|Hgt];
    [now left|].
  destruct (String.eqb_spec (action transfer) "trnsfiopubky") as [E1|N1].
  - rewrite E1. simpl. right.
    destruct (String.eqb (payee_public_key transfer) (publicKey (keys st)));
      eexists; (split; [reflexivity|]); simpl; auto.
  - destruct (String.eqb_spec (action transfer) "transfer") as [E2|N2];
      simpl; [|now left].
    destruct (findTransaction "FIO" (transaction_id transfer) st >? -1);
      [now left|].
    right. eexists. split; [reflexivity|]. simpl. auto.
Qed.

(** X5: a history record above the watermark is recorded with the
    amount the node reports.  A [trnsfiopubky] record becomes a
    transaction whose network fee is the record's fee and whose amount is
    minus the transferred amount when the payee key is not the wallet's,
    and the transferred amount, received on the wallet's key, when it is
    and someone else paid.  A [transfer] record whose id is not yet in the
    list becomes a transaction named "FIO fee" of minus that amount and
    network fee "0". *)
Theorem processTransaction_amounts (transfer : FioTransactionSuperNode)
  (actor : string) (st : Engine) :
  watermark st < block_height transfer ->
  0 <= transfer_amount transfer ->
  (action transfer = "trnsfiopubky"%string ->
   exists tx,
     processTransaction transfer actor st
     = (addTransaction "FIO" tx st, block_height transfer) /\
     networkFee tx = Bns.Z_to_string (fee_amount transfer) /\
     (payee_public_key transfer <> publicKey (keys st) ->
      denotes (nativeAmount tx) (- inject_Z (transfer_amount transfer))%Q /\
      ourReceiveAddresses tx = []) /\
     (payee_public_key transfer = publicKey (keys st) ->
      payer transfer <> actor ->
      denotes (nativeAmount tx) (inject_Z (transfer_amount transfer)) /\
      ourReceiveAddresses tx = [publicKey (keys st)])) /\
  (action transfer = "transfer"%string ->
   findTransaction "FIO" (transaction_id transfer) st = -1 ->
   exists tx,
     processTransaction transfer actor st
     = (addTransaction "FIO" tx st, block_height transfer) /\
     denotes (nativeAmount tx) (- inject_Z (transfer_amount transfer))%Q /\
     networkFee tx = "0"%string /\
     ourReceiveAddresses tx = [] /\
     metadata tx
     = Some {| md_name := "FIO fee"; md_notes := notes transfer |}).
Proof.
  intros Hh Hamt. apply Z.leb_gt in Hh.
  destruct (BnsFacts.denotes_unsigned_signed _ _
              (Z_to_string_unsigned _ Hamt)) as [Hpos Hneg].
  split.
  - intros Ha. unfold processTransaction. rewrite Hh, Ha. simpl.
    destruct (String.eqb_spec (payee_public_key transfer)
                (publicKey (keys st))) as [E|N].
    + destruct (String.eqb_spec (payer transfer) actor) as [E'|N'];
        eexists; (split; [reflexivity|]); simpl;
        (split; [reflexivity|]); (split; [congruence|]); intros _ H;
        [congruence | auto].
    + eexists. split; [reflexivity|]. simpl. split; [reflexivity|].
      split; [auto | congruence].
  - intros Ha Hf. unfold processTransaction. rewrite Hh, Ha. simpl.
    rewrite Hf. simpl. eexists. split; [reflexivity|]. simpl. auto.
Qed.

(** X5, at an incoming transfer of height 120 seen by a wallet whose
    watermark is 100. *)
Lemma processTransaction_amounts_witness :
  exists tx,
    processTransaction (Fixtures.incoming 120 "t120") "aftyershcu22"
      (Fixtures.wallet 100 ∅)
    = (addTransaction "FIO" tx (Fixtures.wallet 100 ∅), 120) /\
    denotes (nativeAmount tx) (inject_Z 1000000000) /\
    ourReceiveAddresses tx = ["FIO5ourKey"%string].
Proof.
  destruct (processTransaction_amounts (Fixtures.incoming 120 "t120")
              "aftyershcu22" (Fixtures.wallet 100 ∅)) as [H _];
    [simpl; lia | simpl; lia |].
  destruct (H eq_refl) as (tx & Heq & _ & _ & Hin).
  exists tx. split; [exact Heq|]. apply Hin; [reflexivity | discriminate].
Defined.

(** ** What a sync cycle adds                                             *)

Lemma addedTxs_app a b : addedTxs (a ++ b) = addedTxs a ++ addedTxs b.
Proof. unfold addedTxs. apply omap_app. Qed.

Lemma notifiedTxs_app a b :
  notifiedTxs (a ++ b) = notifiedTxs a ++ notifiedTxs b.
Proof. unfold notifiedTxs. now rewrite omap_app, concat_app. Qed.

Lemma walked_refl st : walked st st [].
Proof. unfold walked. now rewrite !app_nil_r. Qed.

Lemma walked_trans st1 st2 st3 n1 n2 :
  walked st1 st2 n1 -> walked st2 st3 n2 -> walked st1 st3 (n1 ++ n2).
Proof.
  intros (A1 & A2 & A3 & A4 & A5 & A6 & A7) (B1 & B2 & B3 & B4 & B5 & B6 & B7).
  unfold walked. rewrite B1, B2, B3, B4, B5, B6, B7, A1, A2, A3, A4, A5, A6, A7.
  now rewrite !app_assoc.
Qed.

Lemma walked_addTransaction tx st : walked st (addTransaction "FIO" tx st) [tx].
Proof.
  unfold walked. rewrite txs_of_addTransaction. unfold addTransaction. simpl.
  rewrite addedTxs_app, notifiedTxs_app. simpl. now rewrite app_nil_r.
Qed.

Lemma fetchCalls_silent params uri urls :
  addedTxs (fetchCalls params uri urls) = [] /\
  notifiedTxs (fetchCalls params uri urls) = [].
Proof. induction urls as [|u urls [IH1 IH2]]; split; auto. Qed.

Lemma walked_fetch params uri urls st :
  walked st (add_events (fetchCalls params uri urls) st) [].
Proof.
  destruct (fetchCalls_silent params uri urls) as [H1 H2].
  unfold walked. simpl. rewrite addedTxs_app, notifiedTxs_app, H1, H2.
  now rewrite !app_nil_r.
Qed.

Lemma historyWaterfall_trace env params uri urls errors st :
  exists n,
    (asyncWaterfall_from (map (historyAttempt env params uri) urls)
       errors st).1
    = add_events (fetchCalls params uri (take n urls)) st.
Proof.
  revert errors st. induction urls as [|u urls IH]; intros errors st.
  - exists O. simpl. now rewrite add_events_nil.
  - simpl. unfold try_catch at 1. unfold historyAttempt at 1.
    destruct (fetchCors env _ params) as [res|e].
    + exists 1%nat. reflexivity.
    + destruct (IH (ExSdk e :: errors)
                  (emit (EvFetch (u ++ "history/" ++ default "" uri)%string
                           params) st)) as (n & Hn).
      exists (S n). rewrite Hn. simpl.
      now rewrite emit_add_events, add_events_app.
Qed.

Lemma multicastServers_history_trace env params uri st :
  exists n,
    (multicastServers env "history" params uri st).1
    = add_events (fetchCalls params uri (take n (historyNodeUrls env))) st.
Proof. apply historyWaterfall_trace. Qed.

Lemma processTransaction_walk transfer actor st :
  exists new,
    walked st (processTransaction transfer actor st).1 new /\
    (new = [] \/
     exists tx, new = [tx] /\ watermark st < block_height transfer /\
                txid tx = transaction_id transfer /\
                blockHeight tx
                = (if block_height transfer >? 0
                   then block_height transfer else 0)).
Proof.
  destruct (processTransaction_cases transfer actor st)
    as [-> | (tx & -> & Hw & Hid & _ & Hbh)].
  - exists []. split; [apply walked_refl | now left].
  - exists [tx]. split; [apply walked_addTransaction|]. right. eauto.
Qed.

(** Heights of the transactions a walk added, against the watermark it
    started from and its candidate. *)
Lemma processPage_walk transfers i actor nh st :
  watermark st <= nh ->
  let '(st', nh', _) := processPage transfers i actor nh st in
  exists new,
    walked st st' new /\ nh <= nh' /\
    Forall (fun tx => watermark st < blockHeight tx /\
                      (0 <= watermark st -> blockHeight tx <= nh')) new.
Proof.
  revert i nh st. induction transfers as [|t ts IH]; intros i nh st Hw.
  - simpl. exists []. split; [apply walked_refl|]. split; [lia | constructor].
  - cbn [processPage].
    pose proof (processTransaction_height t actor st) as Hh.
    destruct (processTransaction_walk t actor st) as (n1 & Hw1 & Hn1).
    destruct (processTransaction t actor st) as [st1 blockNum].
    simpl in Hh, Hw1. subst blockNum.
    assert (watermark st1 = watermark st) as Hwm
        by (destruct Hw1 as (-> & _); reflexivity).
    assert (forall c, nh <= c -> block_height t <= c ->
              Forall (fun tx => watermark st < blockHeight tx /\
                                (0 <= watermark st -> blockHeight tx <= c))
                n1)
      as Hb1.
    { intros c Hc1 Hc2. destruct Hn1 as [-> | (tx & -> & Hgt & _ & Hbh)];
        [constructor|].
      repeat constructor; rewrite Hbh;
        destruct (Z.gtb_spec (block_height t) 0); lia. }
    destruct (Z.gtb_spec (block_height t) nh) as [Hgt|Hle].
    + specialize (IH (i + 1) (block_height t) st1).
      destruct (processPage ts (i + 1) actor (block_height t) st1)
        as [[st' nh'] fin].
      destruct IH as (n2 & Hw2 & Hnh & Hb2); [lia |].
      exists (n1 ++ n2). split; [eapply walked_trans; eassumption|].
      split; [lia|]. apply Forall_app. split.
      * apply Hb1; lia.
      * rewrite Hwm in Hb2. exact Hb2.
    + destruct (_ || _).
      * exists n1. split; [exact Hw1|]. split; [lia|]. apply Hb1; lia.
      * specialize (IH (i + 1) nh st1).
        destruct (processPage ts (i + 1) actor nh st1) as [[st' nh'] fin].
        destruct IH as (n2 & Hw2 & Hnh & Hb2); [lia |].
        exists (n1 ++ n2). split; [eapply walked_trans; eassumption|].
        split; [lia|]. apply Forall_app. split.
        -- apply Hb1; lia.
        -- rewrite Hwm in Hb2. exact Hb2.
Qed.

Lemma pagingLoop_walk fuel env actor offset pos nh st st' r :
  watermark st <= nh ->
  pagingLoop fuel env actor offset pos nh st = Some (st', r) ->
  exists new,
    walked st st' new /\
    match r with
    | Ok cand =>
        nh <= cand /\
        Forall (fun tx => watermark st < blockHeight tx /\
                          (0 <= watermark st -> blockHeight tx <= cand)) new
    | Throw _ => True
    end.
Proof.
  revert pos nh st. induction fuel as [|fuel IH]; intros pos nh st Hw;
    [discriminate|].
  cbn [pagingLoop]. destruct (pos <? 0).
  { intros [= <- <-]. exists []. split; [apply walked_refl|].
    split; [lia | constructor]. }
  destruct (historyNodeActions env) as [names|].
  2:{ intros [= <- <-]. exists []. split; [apply walked_refl | exact I]. }
  destruct (multicastServers_history_trace env
              (transfersParams st pos offset)
              (getTransfers names) st) as [n Hn].
  pose proof (walked_fetch (transfersParams st pos offset)
                (getTransfers names)
                (take n (historyNodeUrls env)) st) as Hf.
  rewrite <- Hn in Hf.
  destruct (multicastServers env "history" _ _ st) as [st1 [res|e]];
    simpl in Hf.
  2:{ intros [= <- <-]. exists []. split; [exact Hf | exact I]. }
  assert (watermark st1 = watermark st) as Hwm
      by (destruct Hf as (-> & _); reflexivity).
  destruct res;
    try (intros [= <- <-]; exists []; split; [exact Hf | exact I]).
  destruct (0 <? length (sort_desc transfers))%nat.
  - pose proof (processPage_walk (sort_desc transfers) 0 actor nh st1) as Hp.
    destruct (processPage (sort_desc transfers) 0 actor nh st1)
      as [[st2 nh2] fin].
    destruct Hp as (n2 & Hw2 & Hnh & Hb2); [lia |].
    rewrite Hwm in Hb2.
    assert (watermark st2 = watermark st) as Hwm2
        by (destruct Hw2 as (-> & _); exact Hwm).
    destruct fin.
    + intros [= <- <-]. exists n2.
      split; [apply (walked_trans _ _ _ [] n2 Hf Hw2) | auto].
    + intros Hrec.
      destruct (IH (pos - offset) nh2 st2 ltac:(lia) Hrec)
        as (n3 & Hw3 & Hr).
      exists (n2 ++ n3). split.
      * apply (walked_trans _ _ _ [] (n2 ++ n3) Hf).
        eapply walked_trans; eassumption.
      * destruct r as [cand|e]; [|exact I].
        destruct Hr as [Hc Hb3]. split; [lia|].
        apply Forall_app. split.
        -- eapply Forall_impl; [exact Hb2|]. simpl. intros tx [H1 H2].
           split; [exact H1|]. intros H. specialize (H2 H). lia.
        -- rewrite Hwm2 in Hb3. exact Hb3.
  - intros [= <- <-]. exists []. split; [exact Hf|].
    split; [lia | constructor].
Qed.

Lemma lastActionSeq_walk env actor st :
  walked st (lastActionSeq env actor st).1 [].
Proof.
  unfold lastActionSeq, try_catch, bind.
  destruct (historyNodeActions env) as [names|]; [|apply walked_refl].
  destruct (multicastServers_history_trace env
              (JObj [("account_name", JStr actor); ("pos", JNum (-1));
                     ("offset", JNum (-1))]%string)
              (getActions names) st) as [n Hn].
  pose proof (walked_fetch
                (JObj [("account_name", JStr actor); ("pos", JNum (-1));
                       ("offset", JNum (-1))]%string)
                (getActions names)
                (take n (historyNodeUrls env)) st) as Hf.
  rewrite <- Hn in Hf.
  destruct (multicastServers env "history" _ _ st) as [st1 [res|e]];
    simpl in *; [|exact Hf].
  destruct res; try exact Hf. destruct account_action_seqs; exact Hf.
Qed.

Lemma historyWalk_walk env st st1 r :
  historyWalk env st = Some (st1, r) ->
  exists new,
    walked st st1 new /\
    match r with
    | Ok cand =>
        watermark st <= cand /\
        Forall (fun tx => watermark st < blockHeight tx /\
                          (0 <= watermark st -> blockHeight tx <= cand)) new
    | Throw _ => True
    end.
Proof.
  unfold historyWalk.
  pose proof (lastActionSeq_walk env (getActor env (publicKey (keys st))) st)
    as Hl.
  destruct (lastActionSeq env _ st) as [st0 [seq|e]]; simpl in Hl.
  2:{ intros [= <- <-]. exists []. split; [exact Hl | exact I]. }
  assert (watermark st0 = watermark st) as Hwm
      by (destruct Hl as (-> & _); reflexivity).
  destruct (seq =? 0).
  - intros [= <- <-]. exists []. split; [exact Hl|].
    split; [lia | constructor].
  - intros Hloop. rewrite <- Hwm in Hloop.
    destruct (pagingLoop_walk _ _ _ _ _ _ st0 _ _ (Z.le_refl _) Hloop)
      as (new & Hw & Hr).
    exists new. split; [apply (walked_trans _ _ _ [] new Hl Hw)|].
    rewrite Hwm in Hr. exact Hr.
Qed.

Lemma checkTransactions_walk env st st' r :
  checkTransactions env st = Some (st', r) ->
  exists st1 new,
    walked st st1 new /\
    ((exists e, r = Throw e /\ st' = st1) \/
     (exists cand,
        r = Ok true /\ watermark st <= cand /\
        Forall (fun tx => watermark st < blockHeight tx /\
                          (0 <= watermark st -> blockHeight tx <= cand)) new /\
        st' = if cand >? watermark st
              then localDataDirty (set_highestTxHeight cand st1) else st1)).
Proof.
  rewrite checkTransactions_commit.
  destruct (historyWalk env st) as [[st1 r1]|] eqn:Hwalk; [|discriminate].
  destruct (historyWalk_walk _ _ _ _ Hwalk) as (new & Hw & Hr).
  assert (watermark st1 = watermark st) as Hwm
      by (destruct Hw as (-> & _); reflexivity).
  exists st1, new. split; [exact Hw|].
  destruct r1 as [cand|e].
  - destruct Hr as [Hc Hb]. right. exists cand. rewrite Hwm in H.
    destruct (cand >? watermark st); injection H as <- <-; auto.
  - left. exists e. injection H as <- <-. auto.
Qed.

(** X6: a sync cycle that completes, started at a watermark that is not
    negative, never lowers the watermark; the transactions it added are
    exactly the new tail of the FIO list, each lies above the old
    watermark and at or below the new one, adding any marks the wallet
    dirty, and afterwards no record at or below the height of an added
    transaction is processed again. *)
Theorem checkTransactions_added_within (env : Env) (st st' : Engine)
  (v : bool) :
  0 <= watermark st ->
  checkTransactions env st = Some (st', Ok v) ->
  watermark st <= watermark st' /\
  exists new,
    addedTxs (trace st') = addedTxs (trace st) ++ new /\
    txs_of "FIO" st' = txs_of "FIO" st ++ new /\
    Forall (fun tx => watermark st < blockHeight tx <= watermark st') new /\
    (new <> [] -> walletLocalDataDirty st' = true) /\
    forall tx transfer actor,
      tx ∈ new -> block_height transfer <= blockHeight tx ->
      processTransaction transfer actor st' = (st', block_height transfer).
Proof.
  intros H0 Hrun.
  destruct (checkTransactions_walk _ _ _ _ Hrun)
    as (st1 & new & Hw & [(e & [=] & _) | (cand & _ & Hc & Hb & ->)]).
  destruct Hw as (W1 & W2 & W3 & W4 & W5 & W6 & W7).
  assert (new <> [] -> watermark st < cand) as Hne.
  { intros Hn. destruct new as [|tx new]; [congruence|].
    apply Forall_cons in Hb as [[H1 H2] _]. specialize (H2 H0). lia. }
  destruct (Z.gtb_spec cand (watermark st)) as [Hgt|Hle].
  - simpl. split; [lia|]. exists new. split; [exact W5|].
    split; [exact W3|]. split; [|split; [reflexivity|]].
    + eapply Forall_impl; [exact Hb|]. simpl. intros tx [H1 H2].
      specialize (H2 H0). lia.
    + intros tx transfer actor Htx Hh. apply processTransaction_skip. left.
      simpl. rewrite Forall_forall in Hb. destruct (Hb tx Htx) as [_ H2].
      specialize (H2 H0). lia.
  - assert (new = []) as -> by (destruct new; [reflexivity|];
                                 exfalso; assert (watermark st < cand)
                                   by (apply Hne; discriminate); lia).
    rewrite W1. split; [lia|]. exists []. split; [exact W5|].
    split; [exact W3|]. split; [constructor|]. split; [congruence|].
    intros tx transfer actor Htx. inversion Htx.
Qed.

(** X6, at the scenario: a wallet at watermark 100 and a history whose
    first two pages reach down to height 90. *)
Lemma checkTransactions_added_within_witness :
  exists st' new,
    checkTransactions Fixtures.scenarioEnv (Fixtures.wallet 100 ∅)
    = Some (st', Ok true) /\
    txs_of "FIO" st' = new /\
    Forall (fun tx => 100 < blockHeight tx <= watermark st') new.
Proof.
  assert (exists st',
            checkTransactions Fixtures.scenarioEnv (Fixtures.wallet 100 ∅)
            = Some (st', Ok true)) as [st' E]
      by (eexists; vm_compute; reflexivity).
  destruct (checkTransactions_added_within Fixtures.scenarioEnv
              (Fixtures.wallet 100 ∅) st' true) as (_ & new & _ & Hl & Hb & _);
    [simpl; lia | exact E |].
  exists st', new. split; [exact E|]. split; [exact Hl | exact Hb].
Defined.

(** X7: whatever a sync cycle fetches or adds, it leaves the cached
    balances, the block height and the address and domain lists alone,
    never lowers the watermark and notifies nobody of transactions; when
    it throws, [walletLocalData] is as it was. *)
Theorem checkTransactions_ledger (env : Env) (st st' : Engine)
  (r : Result bool) :
  checkTransactions env st = Some (st', r) ->
  totalBalances (walletLocalData st') = totalBalances (walletLocalData st) /\
  wl_blockHeight (walletLocalData st') = wl_blockHeight (walletLocalData st) /\
  fioAddresses (otherData (walletLocalData st'))
  = fioAddresses (otherData (walletLocalData st)) /\
  fioDomains (otherData (walletLocalData st'))
  = fioDomains (otherData (walletLocalData st)) /\
  watermark st <= watermark st' /\
  notifiedTxs (trace st') = notifiedTxs (trace st) /\
  (forall e, r = Throw e -> walletLocalData st' = walletLocalData st).
Proof.
  intros Hrun.
  destruct (checkTransactions_walk _ _ _ _ Hrun)
    as (st1 & new & Hw & [(e & -> & ->) | (cand & -> & Hc & Hb & ->)]);
    destruct Hw as (W1 & W2 & W3 & W4 & W5 & W6 & W7).
  - rewrite W1. repeat split; try reflexivity; try lia; try exact W6.
  - destruct (Z.gtb_spec cand (watermark st)) as [Hgt|Hle]; simpl;
      rewrite ?W1; repeat split; try reflexivity; try lia; try exact W6;
      intros e [=].
Qed.

(** X7, at the same scenario. *)
Lemma checkTransactions_ledger_witness :
  exists st',
    checkTransactions Fixtures.scenarioEnv (Fixtures.wallet 100 ∅)
    = Some (st', Ok true) /\
    totalBalances (walletLocalData st') = ∅ /\
    notifiedTxs (trace st') = [].
Proof.
  assert (exists st',
            checkTransactions Fixtures.scenarioEnv (Fixtures.wallet 100 ∅)
            = Some (st', Ok true)) as [st' E]
      by (eexists; vm_compute; reflexivity).
  destruct (checkTransactions_ledger Fixtures.scenarioEnv
              (Fixtures.wallet 100 ∅) st' (Ok true) E)
    as (Hb & _ & _ & _ & _ & Hn & _).
  exists st'. split; [exact E|]. split; [exact Hb | exact Hn].
Defined.

(** X8: [checkTransactionsInnerLoop()] always returns, and what it does
    is decided by the sync it runs.  The sync itself returns, with the
    transactions it added appended to the queue and nobody notified.  When
    the sync threw, the loop ends there with [false]: the queue, the
    checked marks and [walletLocalData] are as the sync left them, the
    latter two as they were before.  When the sync returned, it returned
    [true], and the loop marks the FIO transactions as checked and hands
    the whole queue, what was waiting and what the sync added, to
    [onTransactionsChanged], in order, leaving the queue empty and adding
    no transaction of its own. *)
Theorem checkTransactionsInnerLoop_flush (env : Env) (st : Engine) :
  exists st0 r new,
    checkTransactions env st = Some (st0, r) /\
    addedTxs (trace st0) = addedTxs (trace st) ++ new /\
    transactionsChangedArray st0 = transactionsChangedArray st ++ new /\
    notifiedTxs (trace st0) = notifiedTxs (trace st) /\
    match r with
    | Throw _ =>
        checkTransactionsInnerLoop env st = Some (st0, Ok (JBool false)) /\
        tokenCheckTransactionsStatus st0 = tokenCheckTransactionsStatus st /\
        walletLocalData st0 = walletLocalData st
    | Ok transactions =>
        transactions = true /\
        exists st',
          checkTransactionsInnerLoop env st = Some (st', Ok JUndefined) /\
          transactionsChangedArray st' = [] /\
          tokenCheckTransactionsStatus st' !! "FIO"%string = Some 1 /\
          addedTxs (trace st') = addedTxs (trace st) ++ new /\
          notifiedTxs (trace st')
          = notifiedTxs (trace st) ++ transactionsChangedArray st ++ new /\
          walletLocalData st' = walletLocalData st0
    end.
Proof.
  assert (exists st0 r, checkTransactions env st = Some (st0, r))
    as (st0 & r & Hrun).
  { rewrite checkTransactions_commit.
    destruct (historyWalk_total env st) as [[st1 [cand|e]] ->]; [|eauto].
    destruct (_ >? _); eauto. }
  exists st0, r.
  unfold checkTransactionsInnerLoop. rewrite Hrun.
  destruct (checkTransactions_walk _ _ _ _ Hrun)
    as (st1 & new & Hw & [(e & -> & ->) | (cand & -> & Hc & Hb & ->)]);
    destruct Hw as (W1 & W2 & W3 & W4 & W5 & W6 & W7).
  - exists new. split; [reflexivity|]. split; [exact W5|].
    split; [exact W4|]. split; [exact W6|]. auto.
  - set (st2 := if cand >? watermark st
                then localDataDirty (set_highestTxHeight cand st1)
                else st1).
    assert (transactionsChangedArray st2 = transactionsChangedArray st ++ new
            /\ trace st2 = trace st1) as [Hq Ht]
        by (subst st2; destruct (_ >? _); auto).
    exists new. split; [reflexivity|]. rewrite Hq, Ht.
    split; [exact W5|]. split; [reflexivity|]. split; [exact W6|].
    split; [reflexivity|]. eexists. split; [reflexivity|].
    unfold updateOnAddressesChecked, emit, set_tokenCheckTransactionsStatus,
      set_transactionsChangedArray.
    cbn [fst snd trace transactionsChangedArray tokenCheckTransactionsStatus
         walletLocalData].
    rewrite Hq, Ht.
    destruct (transactionsChangedArray st ++ new) as [|tx q] eqn:E;
      cbn [length Nat.ltb Nat.leb trace transactionsChangedArray
           tokenCheckTransactionsStatus walletLocalData];
      rewrite ?addedTxs_app, ?notifiedTxs_app, lookup_insert_eq, W5, W6;
      cbn; rewrite ?app_nil_r; auto.
Qed.

(** ** Failover between nodes                                             *)

Lemma apiWaterfall_answer env actionName params pre url post res errors st :
  Forall (fun u => exists e', sdkCall env actionName params u = Throws e' /\
                              isFioApiError e' = false) pre ->
  sdkCall env actionName params url = Returns res ->
  asyncWaterfall_from
    (map (apiAttempt env actionName params) (pre ++ url :: post)) errors st
  = (add_events (sdkCalls actionName params (pre ++ [url])) st, Ok res).
Proof.
  intros Hpre Hurl. revert errors st.
  induction Hpre as [|u pre (e' & Hu & He') Hpre IH]; intros errors st; simpl.
  - unfold try_catch, apiAttempt. rewrite Hurl. reflexivity.
  - unfold try_catch at 1. unfold apiAttempt at 1. rewrite Hu, He'.
    rewrite IH, emit_add_events, add_events_app. reflexivity.
Qed.

Lemma apiWaterfall_unreachable env actionName params urls es errors st :
  Forall2 (fun u e => sdkCall env actionName params u = Throws e /\
                      isFioApiError e = false) urls es ->
  asyncWaterfall_from (map (apiAttempt env actionName params) urls) errors st
  = (add_events (sdkCalls actionName params urls) st,
     Throw (ExAllEndpointsFailed (rev errors ++ map ExSdk es))).
Proof.
  intros H. revert errors st.
  induction H as [|u e urls es [Hu He] H IH]; intros errors st; simpl.
  - now rewrite add_events_nil, app_nil_r.
  - unfold try_catch at 1. unfold apiAttempt at 1. rewrite Hu, He.
    rewrite IH, emit_add_events, add_events_app. simpl.
    now rewrite <- app_assoc.
Qed.

(** X9: a request to the api nodes is answered by the first node that
    answers: the nodes before it, which failed with something other than
    a FIO API error, were each asked once, in order, and no node after it
    is asked.  Its answer is handed back when [isError] is not set on it,
    as on every answer of the shapes of the SDK; an answer of [undefined]
    or [null] ends the request with the TypeError of line 522.  When every
    node fails that way the request fails with all the errors, in node
    order, after asking every node once. *)
Theorem multicastServers_first_answer (env : Env) (actionName : string)
  (params : jsval) (uri : option string) (st : Engine) :
  String.eqb actionName "history" = false ->
  (forall pre url post res,
     apiUrls env = pre ++ url :: post ->
     Forall (fun u => exists e, sdkCall env actionName params u = Throws e /\
                                isFioApiError e = false) pre ->
     sdkCall env actionName params url = Returns res ->
     (multicastServers env actionName params uri st).1
     = add_events (sdkCalls actionName params (pre ++ [url])) st /\
     ((forall v, res <> ROther v) ->
      (forall wrapper, res <> RApiError wrapper) ->
      (multicastServers env actionName params uri st).2 = Ok res) /\
     (forall v, res = ROther v ->
        match v with
        | JUndefined | JNull =>
            (multicastServers env actionName params uri st).2
            = Throw ExTypeError
        | _ =>
            js_truthy (get_prop "isError" v) = false ->
            (multicastServers env actionName params uri st).2 = Ok res
        end)) /\
  (forall es,
     Forall2 (fun u e => sdkCall env actionName params u = Throws e /\
                         isFioApiError e = false) (apiUrls env) es ->
     multicastServers env actionName params uri st
     = (add_events (sdkCalls actionName params (apiUrls env)) st,
        Throw (ExAllEndpointsFailed (map ExSdk es)))).
Proof.
  intros Ha. unfold multicastServers, asyncWaterfall, bind. rewrite Ha. split.
  - intros pre url post res -> Hpre Hurl.
    rewrite (apiWaterfall_answer _ _ _ _ _ _ _ _ _ Hpre Hurl).
    split; [apply throwIfError_state|]. split.
    + intros Hv Hw.
      destruct res; try reflexivity;
        [now destruct (Hv v) | now destruct (Hw wrapper)].
    + intros v ->. unfold throwIfError, resp_member, res_prop, js_member.
      cbn [resp_object].
      destruct v; try reflexivity; intros ->; reflexivity.
  - intros es Hes.
    now rewrite (apiWaterfall_unreachable _ _ _ _ _ [] _ Hes).
Qed.

(** X9, at three api nodes of which the first is unreachable. *)
Lemma multicastServers_first_answer_witness :
  multicastServers Fixtures.flakyEnv "getChainInfo" JUndefined None
    (Fixtures.wallet 0 ∅)
  = (add_events
       (sdkCalls "getChainInfo" JUndefined
          ["https://a.fio.example/v1/"; "https://b.fio.example/v1/"]%string)
       (Fixtures.wallet 0 ∅),
     Ok (RChainInfo 500)).
Proof.
  destruct (proj1 (multicastServers_first_answer Fixtures.flakyEnv
                     "getChainInfo" JUndefined None (Fixtures.wallet 0 ∅)
                     eq_refl)
              ["https://a.fio.example/v1/"%string]
              "https://b.fio.example/v1/"%string
              ["https://c.fio.example/v1/"%string]
              (RChainInfo 500) eq_refl) as (Hst & Hres & _).
  - constructor; [|constructor]. exists Fixtures.unreachable.
    split; reflexivity.
  - reflexivity.
  - destruct (multicastServers Fixtures.flakyEnv "getChainInfo" JUndefined
                None (Fixtures.wallet 0 ∅)) as [s r].
    simpl in Hst, Hres. rewrite Hst, Hres; [reflexivity | |]; discriminate.
Defined.

Lemma historyWaterfall_answer env params uri pre url post res errors st :
  Forall (fun u => exists e,
            fetchCors env (u ++ "history/" ++ default "" uri)%string params
            = Throws e) pre ->
  fetchCors env (url ++ "history/" ++ default "" uri)%string params
  = Returns res ->
  asyncWaterfall_from
    (map (historyAttempt env params uri) (pre ++ url :: post)) errors st
  = (add_events (fetchCalls params uri (pre ++ [url])) st, Ok res).
Proof.
  intros Hpre Hurl. revert errors st.
  induction Hpre as [|u pre (e' & Hu) Hpre IH]; intros errors st; simpl.
  - unfold try_catch, historyAttempt. rewrite Hurl. reflexivity.
  - unfold try_catch at 1. unfold historyAttempt at 1. rewrite Hu.
    rewrite IH, emit_add_events, add_events_app. reflexivity.
Qed.

Lemma historyWaterfall_unreachable env params uri urls es errors st :
  Forall2 (fun u e =>
             fetchCors env (u ++ "history/" ++ default "" uri)%string params
             = Throws e) urls es ->
  asyncWaterfall_from (map (historyAttempt env params uri) urls) errors st
  = (add_events (fetchCalls params uri urls) st,
     Throw (ExAllEndpointsFailed (rev errors ++ map ExSdk es))).
Proof.
  intros H. revert errors st.
  induction H as [|u e urls es Hu H IH]; intros errors st; simpl.
  - now rewrite add_events_nil, app_nil_r.
  - unfold try_catch at 1. unfold historyAttempt at 1. rewrite Hu.
    rewrite IH, emit_add_events, add_events_app. simpl.
    now rewrite <- app_assoc.
Qed.

(** X10: a history request goes to the history nodes only, at
    [<node>history/<uri>], and is answered by the first node that answers,
    whatever the nodes before it failed with (a 400, 403 or 404 is a
    failure like any other here) and whatever the answer is; when every
    node fails, it fails with all the errors in node order.  No api node
    is asked. *)
Theorem multicastServers_history_failover (env : Env) (params : jsval)
  (uri : option string) (st : Engine) :
  (forall pre url post res,
     historyNodeUrls env = pre ++ url :: post ->
     Forall (fun u => exists e,
               fetchCors env (u ++ "history/" ++ default "" uri)%string params
               = Throws e) pre ->
     fetchCors env (url ++ "history/" ++ default "" uri)%string params
     = Returns res ->
     multicastServers env "history" params uri st
     = (add_events (fetchCalls params uri (pre ++ [url])) st, Ok res)) /\
  (forall es,
     Forall2 (fun u e =>
                fetchCors env (u ++ "history/" ++ default "" uri)%string params
                = Throws e) (historyNodeUrls env) es ->
     multicastServers env "history" params uri st
     = (add_events (fetchCalls params uri (historyNodeUrls env)) st,
        Throw (ExAllEndpointsFailed (map ExSdk es)))).
Proof.
  unfold multicastServers, asyncWaterfall. simpl. split.
  - intros pre url post res -> Hpre Hurl.
    apply (historyWaterfall_answer _ _ _ _ _ _ _ _ _ Hpre Hurl).
  - intros es Hes.
    exact (historyWaterfall_unreachable _ _ _ _ _ [] _ Hes).
Qed.

(** X10, at two history nodes of which the first answers with a 400. *)
Lemma multicastServers_history_failover_witness :
  let params := JObj [("account_name", JStr "aftyershcu22");
                      ("pos", JNum (-1)); ("offset", JNum (-1))]%string in
  multicastServers Fixtures.flakyEnv "history" params (Some "get_actions"%string)
    (Fixtures.wallet 0 ∅)
  = (add_events
       (fetchCalls params (Some "get_actions"%string)
          ["https://h1.fio.example/v1/"; "https://h2.fio.example/v1/"]%string)
       (Fixtures.wallet 0 ∅),
     Ok (RActions [])).
Proof.
  intros params.
  refine (proj1 (multicastServers_history_failover Fixtures.flakyEnv params
                   (Some "get_actions"%string) (Fixtures.wallet 0 ∅))
            ["https://h1.fio.example/v1/"%string]
            "https://h2.fio.example/v1/"%string [] (RActions [])
            eq_refl _ eq_refl).
  constructor; [|constructor]. exists Fixtures.badRequest. reflexivity.
Defined.

(** What a request returns does not depend on the engine it is made
    from. *)
Lemma asyncWaterfall_result_state {A} (funcs : list (M A)) errors st st' :
  Forall (fun f : M A => forall s s', (f s).2 = (f s').2) funcs ->
  (asyncWaterfall_from funcs errors st).2
  = (asyncWaterfall_from funcs errors st').2.
Proof.
  intros H. revert errors st st'.
  induction H as [|f r Hf Hr IH]; intros errors st st'; [reflexivity|].
  simpl. unfold try_catch. specialize (Hf st st').
  destruct (f st) as [s1 [a|e]], (f st') as [s2 [a'|e']]; simpl in Hf;
    try discriminate; [exact Hf|].
  injection Hf as <-. apply IH.
Qed.

Lemma multicastServers_result_state env actionName params uri st st' :
  (multicastServers env actionName params uri st).2
  = (multicastServers env actionName params uri st').2.
Proof.
  unfold multicastServers. destruct (String.eqb actionName "history").
  - apply asyncWaterfall_result_state. apply Forall_map, Forall_forall.
    intros u _ s s'. unfold historyAttempt.
    now destruct (fetchCors env _ params).
  - unfold bind, asyncWaterfall.
    assert (Forall (fun f : M Response => forall s s', (f s).2 = (f s').2)
              (map (apiAttempt env actionName params) (apiUrls env))) as HF.
    { apply Forall_map, Forall_forall. intros u _ s s'. unfold apiAttempt.
      destruct (sdkCall env actionName params u) as [r|e];
        [reflexivity | now destruct (isFioApiError e)]. }
    pose proof (asyncWaterfall_result_state _ [] st st' HF) as H.
    destruct (asyncWaterfall_from _ [] st) as [s1 [a|e]],
             (asyncWaterfall_from _ [] st') as [s2 [a'|e']]; simpl in H;
      try discriminate.
    + injection H as <-. apply throwIfError_result.
    + exact H.
Qed.

(** ** Height polls and their notifications                               *)

Lemma heightChanges_app a b :
  heightChanges (a ++ b) = heightChanges a ++ heightChanges b.
Proof. unfold heightChanges. apply omap_app. Qed.

Lemma heightChanges_sdkCalls actionName params urls :
  heightChanges (sdkCalls actionName params urls) = [].
Proof. induction urls as [|u urls IH]; [reflexivity | exact IH]. Qed.

Lemma observedHead_state env st st' : observedHead env st = observedHead env st'.
Proof.
  unfold observedHead.
  now rewrite (multicastServers_result_state env "getChainInfo" JUndefined
                 None st st').
Qed.

(** X11: a height poll calls [onBlockHeightChanged] exactly when a node
    answered and what the answer holds under [head_block_num] is not
    identical to the cached height, [undefined] for an answer without
    that property included; it calls it once, with the value it has just
    stored, and raises the dirty flag exactly then.  It touches neither
    the balances, the watermark and name lists nor the transactions.
    Polling again while the nodes report the same leaves the stored value
    alone, and notifies again only for a value that is an object or an
    array, which is never identical to what was stored. *)
Theorem checkBlockchainInnerLoop_notifies (env : Env) (st : Engine) :
  let st' := (checkBlockchainInnerLoop env st).1 in
  let changed :=
    match observedHead env st with
    | Some blockHeight =>
        negb (js_strict_eq (wl_blockHeight (walletLocalData st)) blockHeight)
    | None => false
    end in
  heightChanges (trace st')
  = heightChanges (trace st)
    ++ (if changed then [wl_blockHeight (walletLocalData st')] else []) /\
  walletLocalDataDirty st' = walletLocalDataDirty st || changed /\
  totalBalances (walletLocalData st') = totalBalances (walletLocalData st) /\
  otherData (walletLocalData st') = otherData (walletLocalData st) /\
  transactionList st' = transactionList st /\
  transactionsChangedArray st' = transactionsChangedArray st /\
  let st'' := (checkBlockchainInnerLoop env st').1 in
  wl_blockHeight (walletLocalData st'') = wl_blockHeight (walletLocalData st')
  /\ heightChanges (trace st'')
     = heightChanges (trace st')
       ++ match observedHead env st with
          | Some blockHeight =>
              if js_primitive blockHeight then [] else [blockHeight]
          | None => []
          end.
Proof.
  assert (forall s,
    let s' := (checkBlockchainInnerLoop env s).1 in
    let changed :=
      match observedHead env s with
      | Some h => negb (js_strict_eq (wl_blockHeight (walletLocalData s)) h)
      | None => false
      end in
    heightChanges (trace s')
    = heightChanges (trace s)
      ++ (if changed then [wl_blockHeight (walletLocalData s')] else []) /\
    walletLocalDataDirty s' = walletLocalDataDirty s || changed /\
    totalBalances (walletLocalData s') = totalBalances (walletLocalData s) /\
    otherData (walletLocalData s') = otherData (walletLocalData s) /\
    transactionList s' = transactionList s /\
    transactionsChangedArray s' = transactionsChangedArray s) as Hone.
  { intros s. unfold checkBlockchainInnerLoop, observedHead, try_catch, bind.
    destruct (multicastServers_api_trace env "getChainInfo" JUndefined None s
                eq_refl) as (n & Hn & _).
    destruct (multicastServers env "getChainInfo" JUndefined None s)
      as [s1 [info|e]]; simpl in Hn; subst s1; cbn.
    2:{ rewrite heightChanges_app, heightChanges_sdkCalls, !app_nil_r,
          orb_false_r. repeat split. }
    destruct (resp_member "head_block_num" info) as [v|]; cbn.
    2:{ rewrite heightChanges_app, heightChanges_sdkCalls, !app_nil_r,
          orb_false_r. repeat split. }
    destruct (js_strict_eq (wl_blockHeight (walletLocalData s)) v); cbn;
      rewrite ?heightChanges_app, heightChanges_sdkCalls, ?app_nil_r,
        ?orb_false_r, ?orb_true_r; cbn; rewrite ?app_nil_r; repeat split. }
  intros st' changed.
  destruct (Hone st) as (H1 & H2 & H3 & H4 & H5 & H6).
  repeat (split; [assumption|]).
  intros st''. destruct (Hone st') as (K1 & _).
  destruct (checkBlockchainInnerLoop_height env st') as [_ Hh'].
  destruct (checkBlockchainInnerLoop_height env st) as [_ Hh].
  fold st' in Hh. fold st'' in Hh', K1.
  rewrite <- (observedHead_state env st st') in Hh', K1.
  destruct (observedHead env st) as [h|]; simpl in *.
  - rewrite K1, Hh', Hh. split; [reflexivity|]. f_equal.
    destruct (js_primitive h) eqn:Hp.
    + now rewrite js_strict_eq_refl.
    + destruct h; simpl in *; try discriminate; reflexivity.
  - rewrite Hh', K1. now split.
Qed.

(** X11, at a wallet that has height 100 cached and nodes whose chain info
    has no [head_block_num]: [undefined] is stored and reported, and the
    next poll is silent. *)
Lemma checkBlockchainInnerLoop_notifies_witness :
  let st := Fixtures.walletAtHeight 100 in
  let st' := (checkBlockchainInnerLoop Fixtures.headlessChain st).1 in
  let st'' := (checkBlockchainInnerLoop Fixtures.headlessChain st').1 in
  heightChanges (trace st') = [JUndefined] /\
  walletLocalDataDirty st' = true /\
  wl_blockHeight (walletLocalData st') = JUndefined /\
  heightChanges (trace st'') = [JUndefined].
Proof.
  intros st st' st''.
  destruct (checkBlockchainInnerLoop_notifies Fixtures.headlessChain st)
    as (H1 & H2 & _ & _ & _ & _ & H7 & H8).
  split; [exact H1|]. split; [exact H2|]. split; [reflexivity|].
  exact H8.
Defined.

(** ** Account polling when the balance query succeeds                    *)

Lemma updateBalance_status tk balance st :
  (updateBalance tk balance st).2 = Ok tt ->
  tokenCheckBalanceStatus (updateBalance tk balance st).1 !! tk = Some 1.
Proof.
  unfold updateBalance. cbv zeta.
  destruct (bns_eq balance _) as [same|]; [|discriminate].
  intros _. cbn. apply lookup_insert_eq.
Qed.

Lemma mergeFioNames_status fio_addresses fio_domains st :
  tokenCheckBalanceStatus (mergeFioNames fio_addresses fio_domains st)
  = tokenCheckBalanceStatus st.
Proof.
  unfold mergeFioNames.
  assert (forall l s b,
            tokenCheckBalanceStatus
              (fold_left
                 (fun '(st, isChanged) fioAddress =>
                    let '(l, changed) :=
                      mergeFioAddress fioAddress
                        (fioAddresses (otherData (walletLocalData st))) in
                    (set_fioAddresses l st, isChanged || changed))
                 l (s, b)).1 = tokenCheckBalanceStatus s) as HA.
  { induction l as [|a l IH]; intros s b; [reflexivity|]. simpl.
    destruct (mergeFioAddress a _) as [l' c]. now rewrite IH. }
  assert (forall l s b,
            tokenCheckBalanceStatus
              (fold_left
                 (fun '(st, isChanged) fioDomain =>
                    let '(l, changed) :=
                      mergeFioDomain fioDomain
                        (fioDomains (otherData (walletLocalData st))) in
                    (set_fioDomains l st, isChanged || changed))
                 l (s, b)).1 = tokenCheckBalanceStatus s) as HD.
  { induction l as [|a l IH]; intros s b; [reflexivity|]. simpl.
    destruct (mergeFioDomain a _) as [l' c]. now rewrite IH. }
  specialize (HA fio_addresses st false).
  destruct (fold_left _ fio_addresses (st, false)) as [s1 b1].
  specialize (HD fio_domains s1 b1).
  destruct (fold_left _ fio_domains (s1, b1)) as [s2 b2].
  simpl in *. destruct b2; simpl; congruence.
Qed.

(** The names half of an account poll asks the api nodes, then changes
    the two name lists and possibly the dirty flag; nothing else. *)
Lemma checkFioNames_shape env st :
  exists n la ld (dirty : bool),
    (checkFioNames env st).1
    = (if dirty then localDataDirty else id)
        (set_fioDomains ld
           (set_fioAddresses la
              (add_events
                 (sdkCalls "getFioNames"
                    (JObj [("fioPublicKey",
                            JStr (publicKey (keys st)))]%string)
                    (take n (apiUrls env))) st))).
Proof.
  unfold checkFioNames, try_catch, bind.
  destruct (multicastServers_api_trace env "getFioNames"
              (JObj [("fioPublicKey", JStr (publicKey (keys st)))]%string)
              None st eq_refl) as (n & Hn & _).
  exists n.
  destruct (multicastServers env "getFioNames" _ None st) as [st1 [res|e]];
    simpl in Hn; subst st1.
  2:{ do 2 eexists. exists false. cbn [fst ret id].
      now rewrite set_fioAddresses_same, set_fioDomains_same. }
  assert (forall result,
            exists la ld (dirty : bool),
              (let (st', r) :=
                 mergeNamesAnswer result
                   (add_events (sdkCalls "getFioNames"
                      (JObj [("fioPublicKey",
                              JStr (publicKey (keys st)))]%string)
                      (take n (apiUrls env))) st) in
               match r with
               | Ok a => (st', Ok a)
               | Throw _ => ret tt st'
               end).1
              = (if dirty then localDataDirty else id)
                  (set_fioDomains ld
                     (set_fioAddresses la
                        (add_events
                           (sdkCalls "getFioNames"
                              (JObj [("fioPublicKey",
                                      JStr (publicKey (keys st)))]%string)
                              (take n (apiUrls env))) st)))) as Hany.
  { intros result.
    destruct (mergeNamesAnswer_shape result
                (add_events (sdkCalls "getFioNames"
                   (JObj [("fioPublicKey",
                           JStr (publicKey (keys st)))]%string)
                   (take n (apiUrls env))) st)) as (la & ld & d & H).
    exists la, ld, d.
    destruct (mergeNamesAnswer result _) as [s2 [[]|e]]; exact H. }
  destruct res; try apply Hany.
  destruct (mergeFioNames_shape fio_addresses fio_domains
              (add_events (sdkCalls "getFioNames"
                 (JObj [("fioPublicKey",
                         JStr (publicKey (keys st)))]%string)
                 (take n (apiUrls env))) st)) as (d & H & _).
  do 2 eexists. exists d. exact H.
Qed.

Lemma checkFioNames_status env st :
  tokenCheckBalanceStatus (checkFioNames env st).1
  = tokenCheckBalanceStatus st.
Proof.
  destruct (checkFioNames_shape env st) as (n & la & ld & d & ->).
  now destruct d.
Qed.

(** X12: an account poll whose balance query is answered with balance [b],
    on a wallet whose cached balance is a number or missing, returns
    normally whatever the names query does; afterwards the cached balance
    denotes [b] and the balance is marked as checked.  [onBalanceChanged]
    is called, once and with [b] written in decimal, exactly when [b]
    differs from the value cached before; a cached string of the same
    value is kept as it is. *)
Theorem checkAccountInnerLoop_reported_balance (env : Env) (st : Engine)
  (b : Z) (vold : Q) :
  (multicastServers env "getFioBalance" JUndefined None st).2
  = Ok (RFioBalance b) ->
  denotes
    (default "0"%string
       (totalBalances (walletLocalData st) !! info_currencyCode env)) vold ->
  let st' := (checkAccountInnerLoop env st).1 in
  (checkAccountInnerLoop env st).2 = Ok tt /\
  (exists s, totalBalances (walletLocalData st') !! info_currencyCode env
             = Some s /\ denotes s (inject_Z b)) /\
  tokenCheckBalanceStatus st' !! info_currencyCode env = Some 1 /\
  (~ (inject_Z b == vold)%Q ->
   totalBalances (walletLocalData st') !! info_currencyCode env
   = Some (Bns.Z_to_string b) /\
   balanceChanges (trace st')
   = balanceChanges (trace st)
     ++ [(info_currencyCode env, Bns.Z_to_string b)] /\
   walletLocalDataDirty st' = true) /\
  ((inject_Z b == vold)%Q ->
   totalBalances (walletLocalData st') !! info_currencyCode env
   = Some (default "0"%string
             (totalBalances (walletLocalData st) !! info_currencyCode env)) /\
   balanceChanges (trace st') = balanceChanges (trace st)).
Proof.
  intros Hans Hold.
  set (cc := info_currencyCode env) in *.
  set (st0 := match totalBalances (walletLocalData st) !! cc with
              | Some _ => st
              | None => set_totalBalance cc "0" st
              end).
  assert (totalBalances (walletLocalData st0) !! cc
          = Some (default "0"%string
                    (totalBalances (walletLocalData st) !! cc))) as Hc.
  { subst st0. destruct (totalBalances (walletLocalData st) !! cc) eqn:E;
      simpl; [exact E | apply lookup_insert_eq]. }
  assert (trace st0 = trace st) as Ht.
  { subst st0. now destruct (totalBalances (walletLocalData st) !! cc). }
  rewrite (multicastServers_result_state _ _ _ _ st st0) in Hans.
  destruct (multicastServers_api_trace env "getFioBalance" JUndefined None st0
              eq_refl) as (n & Hn & _).
  set (st1 := add_events
                (sdkCalls "getFioBalance" JUndefined (take n (apiUrls env)))
                st0) in *.
  assert (multicastServers env "getFioBalance" JUndefined None st0
          = (st1, Ok (RFioBalance b))) as Hquery.
  { destruct (multicastServers env "getFioBalance" JUndefined None st0)
      as [s r]. simpl in Hans, Hn. now subst. }
  pose proof (BnsFacts.denotes_Z_to_string b) as Hnew.
  assert (denotes (default "0"%string
                     (totalBalances (walletLocalData st1) !! cc)) vold)
    as Hold1.
  { subst st1. simpl. rewrite Hc. exact Hold. }
  pose proof (updateBalance_effect cc (Bns.Z_to_string b) st1 (inject_Z b)
                vold Hnew Hold1) as Hupd.
  cbv zeta in Hupd. destruct Hupd as (Hr2 & Hne & Heq).
  pose proof (updateBalance_status cc (Bns.Z_to_string b) st1 Hr2) as Hst.
  set (st2 := (updateBalance cc (Bns.Z_to_string b) st1).1) in *.
  assert (checkAccountInnerLoop env st = checkFioNames env st2) as ->.
  { unfold checkAccountInnerLoop, bind, modify, try_catch. fold cc. fold st0.
    rewrite Hquery. unfold ret.
    change (resp_balance (RFioBalance b)) with (JNum b). cbn [js_to_string].
    destruct (updateBalance cc (Bns.Z_to_string b) st1) as [s2 r2] eqn:E.
    simpl in Hr2. subst r2. reflexivity. }
  pose proof (checkFioNames_frame env st2) as (Hr & F1 & F2 & F3).
  pose proof (checkFioNames_status env st2) as F4.
  cbv zeta. split; [exact Hr|].
  assert (balanceChanges (trace st1) = balanceChanges (trace st)) as Hb1.
  { subst st1. simpl.
    now rewrite balanceChanges_app, balanceChanges_sdkCalls, app_nil_r, Ht. }
  assert (totalBalances (walletLocalData st1) !! cc
          = Some (default "0"%string
                    (totalBalances (walletLocalData st) !! cc))) as Hc1.
  { subst st1. simpl. exact Hc. }
  rewrite F1, F2, F4.
  split; [|split; [exact Hst|split]].
  - destruct (Qeq_dec (inject_Z b) vold) as [E|N].
    + destruct (Heq E) as (_ & _ & E3). rewrite E3, Hc1.
      eexists. split; [reflexivity|].
      eapply BnsFacts.denotes_proper; [exact Hold | now symmetry].
    + destruct (Hne N) as (_ & _ & E3). rewrite E3.
      eexists. split; [reflexivity | exact Hnew].
  - intros N. destruct (Hne N) as (E1 & E2 & E3).
    rewrite E1, E3, Hb1. auto.
  - intros E. destruct (Heq E) as (E1 & _ & E3).
    rewrite E1, E3, Hc1, Hb1. auto.
Qed.

(** X12, at a wallet with ["100"] cached whose nodes report 250. *)
Lemma checkAccountInnerLoop_reported_balance_witness :
  let st := Fixtures.wallet 0 {["FIO"%string := "100"%string]} in
  let st' := (checkAccountInnerLoop (Fixtures.balanceEnv 250) st).1 in
  (checkAccountInnerLoop (Fixtures.balanceEnv 250) st).2 = Ok tt /\
  totalBalances (walletLocalData st') !! "FIO"%string = Some "250"%string /\
  balanceChanges (trace st')
  = balanceChanges (trace st) ++ [("FIO", "250")]%string.
Proof.
  intros st st'. subst st'.
  assert (denotes
            (default "0"%string
               (totalBalances (walletLocalData st)
                !! info_currencyCode (Fixtures.balanceEnv 250))) 100) as Hold
      by (vm_compute; eexists; split; reflexivity).
  destruct (checkAccountInnerLoop_reported_balance (Fixtures.balanceEnv 250)
              st 250 100 eq_refl Hold) as (Hr & _ & _ & Hnz & _).
  split; [exact Hr|].
  destruct Hnz as (H1 & H2 & _); [vm_compute; discriminate|].
  split; [exact H1 | exact H2].
Defined.

(** ** Spending                                                           *)

Lemma apiWaterfall_ok_source env actionName params urls errors st st' res :
  asyncWaterfall_from (map (apiAttempt env actionName params) urls) errors st
  = (st', Ok res) ->
  (exists u, u ∈ urls /\ sdkCall env actionName params u = Returns res) \/
  (exists e, res = RApiError (apiErrorWrapper e)).
Proof.
  revert errors st. induction urls as [|u urls IH]; intros errors st;
    [discriminate|].
  simpl. unfold try_catch at 1. unfold apiAttempt at 1.
  destruct (sdkCall env actionName params u) as [r|e] eqn:Hu.
  - intros [= _ <-]. left. exists u. split; [left | exact Hu].
  - destruct (isFioApiError e).
    + intros [= _ <-]. right. now exists e.
    + intros H. destruct (IH _ _ H) as [(u' & Hin & Hu') | Hw];
        [left | now right].
      exists u'. split; [now right | exact Hu'].
Qed.

(** What the api nodes are reported to have answered is the answer of
    one of them, and never [undefined] or [null]. *)
Lemma multicastServers_ok_source env actionName params uri st st' res :
  String.eqb actionName "history" = false ->
  multicastServers env actionName params uri st = (st', Ok res) ->
  (exists u, u ∈ apiUrls env /\ sdkCall env actionName params u = Returns res)
  /\ forall k, resp_member k res = Some (res_prop k res).
Proof.
  intros Ha. unfold multicastServers, asyncWaterfall, bind. rewrite Ha.
  destruct (asyncWaterfall_from _ [] st) as [s1 [r|e]] eqn:E; [|discriminate].
  intros H.
  assert ((throwIfError r s1).2 = Ok res) as Hok by now rewrite H.
  apply throwIfError_ok in Hok as (-> & Hf & Hm).
  split; [|exact Hm].
  destruct (apiWaterfall_ok_source _ _ _ _ _ _ _ _ E) as [Hu | (e & ->)];
    [exact Hu | discriminate].
Qed.

(** X13: [makeSpend], [signTx] and [broadcastTx] change nothing in the
    engine: [makeSpend] only asks api nodes for the transfer fee,
    [broadcastTx] only asks api nodes to transfer, and [signTx] does
    nothing and hands the transaction back.  In particular a broadcast
    adds no transaction to the list and leaves the cached balance alone. *)
Theorem spend_path_only_requests (env : Env) (spend : EdgeSpendInfo)
  (tx : EdgeTransaction) (st : Engine) :
  (exists n,
     (makeSpend env spend st).1
     = add_events
         (sdkCalls "getFee"
            (JObj [("endPoint"%string, EndPoint_transferTokens env)])
            (take n (apiUrls env))) st) /\
  signTx tx st = (st, Ok tx) /\
  (exists n params,
     (broadcastTx env tx st).1
     = add_events (sdkCalls "transferTokens" params (take n (apiUrls env)))
         st).
Proof.
  split; [|split; [reflexivity|]].
  - unfold makeSpend, super_makeSpend, bind.
    destruct (multicastServers_api_trace env "getFee"
                (JObj [("endPoint"%string, EndPoint_transferTokens env)])
                None st eq_refl) as (n & Hn & _).
    exists n.
    destruct (multicastServers env "getFee" _ None st) as [s1 [res|e]];
      simpl in Hn; [|exact Hn].
    destruct (spendTargets spend) as [|target rest]; [exact Hn|].
    destruct (bns_add _ _) as [total|]; [|exact Hn].
    destruct (bns_gt total _) as [[|]|]; try exact Hn.
    destruct (bns_sub _ _); exact Hn.
  - unfold broadcastTx.
    destruct (otherParams tx ≫= transactionJson) as [json|].
    2:{ exists O, JUndefined. simpl. now rewrite add_events_nil. }
    destruct (actions json) as [|action0 rest].
    { exists O, JUndefined. simpl. now rewrite add_events_nil. }
    destruct (bns_add _ _ ≫= bns_abs) as [amount|].
    2:{ exists O, JUndefined. simpl. now rewrite add_events_nil. }
    unfold bind.
    destruct (multicastServers_api_trace env "transferTokens"
                (JObj [("payeeFioPublicKey", JStr (data_to (act_data action0)));
                       ("amount", JStr amount);
                       ("maxFee", JStr (networkFee tx))]%string)
                None st eq_refl) as (n & Hn & _).
    exists n. eexists.
    destruct (multicastServers env "transferTokens" _ None st)
      as [s1 [res|e]]; simpl in Hn; [|exact Hn].
    destruct (resp_member "transaction_id" res),
             (resp_member "block_num" res); exact Hn.
Qed.

(** X14: a transaction without transfer details is refused before any
    node is asked.  A broadcast whose request is answered returns, and
    hands back the transaction it was given with the id, the date and the
    block height overwritten: the date by the clock, the id and the height
    by whatever the answer holds under [transaction_id] and [block_num],
    [undefined] for an answer without them.  The answer is that of an api
    node, to a request that carries the transaction's payee, the amount
    without the fee, and the fee as the most to pay. *)
Theorem broadcastTx_result (env : Env) (tx : EdgeTransaction) (st : Engine) :
  (otherParams tx ≫= transactionJson = None ->
   broadcastTx env tx st
   = (st, Throw (ExError
        "transactionJson not set. FIO transferTokens requires publicAddress")))
  /\
  (forall st' tx',
     broadcastTx env tx st = (st', Ok tx') ->
     exists json action0 rest amount apiUrl request transfer,
       otherParams tx ≫= transactionJson = Some json /\
       actions json = action0 :: rest /\
       bns_add (nativeAmount tx) (networkFee tx) ≫= bns_abs = Some amount /\
       get_prop "payeeFioPublicKey" request
       = JStr (data_to (act_data action0)) /\
       get_prop "amount" request = JStr amount /\
       get_prop "maxFee" request = JStr (networkFee tx) /\
       apiUrl ∈ apiUrls env /\
       genericAction env apiUrl "transferTokens" request = Returns transfer /\
       multicastServers env "transferTokens" request None st
       = (st', Ok transfer) /\
       tx' = {| bt_txid := get_prop "transaction_id" (resp_object transfer);
                bt_date := DateNowSeconds;
                bt_blockHeight := get_prop "block_num" (resp_object transfer);
                bt_transaction := tx |} /\
       (forall transaction_id block_num,
          transfer = RTransferTokens transaction_id block_num ->
          bt_txid tx' = JStr transaction_id /\
          bt_blockHeight tx' = JNum block_num) /\
       (forall v,
          transfer = ROther v ->
          bt_txid tx' = get_prop "transaction_id" v /\
          bt_blockHeight tx' = get_prop "block_num" v)) /\
  (forall json action0 rest amount transfer st',
     otherParams tx ≫= transactionJson = Some json ->
     actions json = action0 :: rest ->
     bns_add (nativeAmount tx) (networkFee tx) ≫= bns_abs = Some amount ->
     multicastServers env "transferTokens"
       (JObj [("payeeFioPublicKey", JStr (data_to (act_data action0)));
              ("amount", JStr amount);
              ("maxFee", JStr (networkFee tx))]%string) None st
     = (st', Ok transfer) ->
     broadcastTx env tx st
     = (st',
        Ok {| bt_txid := get_prop "transaction_id" (resp_object transfer);
              bt_date := DateNowSeconds;
              bt_blockHeight := get_prop "block_num" (resp_object transfer);
              bt_transaction := tx |})).
Proof.
  unfold broadcastTx. split; [|split].
  - intros ->. reflexivity.
  - intros st' tx'.
    destruct (otherParams tx ≫= transactionJson) as [json|]; [|discriminate].
    destruct (actions json) as [|action0 rest] eqn:Hact; [discriminate|].
    destruct (bns_add _ _ ≫= bns_abs) as [amount|] eqn:Hamt; [|discriminate].
    unfold bind.
    destruct (multicastServers env "transferTokens" _ None st)
      as [s1 [res|e]] eqn:E; [|discriminate].
    destruct (multicastServers_ok_source env "transferTokens" _ None st s1
                res eq_refl E) as ((u & Hin & Hu) & Hm).
    rewrite !Hm. intros [= <- <-].
    exists json, action0, rest, amount, u.
    exists (JObj [("payeeFioPublicKey", JStr (data_to (act_data action0)));
                  ("amount", JStr amount);
                  ("maxFee", JStr (networkFee tx))]%string), res.
    split; [reflexivity|]. split; [exact Hact|]. split; [reflexivity|].
    split; [reflexivity|]. split; [reflexivity|]. split; [reflexivity|].
    split; [exact Hin|]. split; [exact Hu|]. split; [exact E|].
    split; [reflexivity|].
    split; [intros i b' -> | intros v' ->]; split; reflexivity.
  - intros json action0 rest amount transfer st' -> -> -> Hreq.
    unfold bind. rewrite Hreq.
    destruct (multicastServers_ok_source env "transferTokens" _ None st st'
                transfer eq_refl Hreq) as (_ & Hm).
    now rewrite !Hm.
Qed.

(** X14, at a recorded transaction, which has no transfer details, and
    at a transaction built for sending 90 with fee 5, broadcast to nodes
    that accept it. *)
Lemma broadcastTx_result_witness :
  broadcastTx Fixtures.offline Fixtures.sampleTx (Fixtures.wallet 0 ∅)
  = (Fixtures.wallet 0 ∅,
     Throw (ExError
       "transactionJson not set. FIO transferTokens requires publicAddress"))
  /\
  exists st' tx',
    broadcastTx (Fixtures.feeEnv 5) Fixtures.spendTx (Fixtures.wallet 0 ∅)
    = (st', Ok tx') /\
    bt_txid tx' = JStr "txnew" /\ bt_blockHeight tx' = JNum 200 /\
    nativeAmount (bt_transaction tx') = "-95"%string.
Proof.
  split.
  - apply (proj1 (broadcastTx_result Fixtures.offline Fixtures.sampleTx
                    (Fixtures.wallet 0 ∅))). reflexivity.
  - assert (exists st' tx',
              broadcastTx (Fixtures.feeEnv 5) Fixtures.spendTx
                (Fixtures.wallet 0 ∅) = (st', Ok tx')) as (st' & tx' & E)
        by (do 2 eexists; vm_compute; reflexivity).
    destruct (proj1 (proj2 (broadcastTx_result (Fixtures.feeEnv 5)
                              Fixtures.spendTx (Fixtures.wallet 0 ∅)))
                st' tx' E)
      as (json & a0 & rest & amount & u & request & transfer
          & _ & _ & _ & _ & _ & _ & _ & Hu & _ & Htx' & _).
    exists st', tx'. split; [exact E|].
    assert (transfer = RTransferTokens "txnew" 200) as ->
        by (apply (f_equal (fun o => match o with
                                     | Returns r => r
                                     | Throws _ => ROther JUndefined
                                     end)) in Hu; symmetry; exact Hu).
    rewrite Htx'. repeat split.
Defined.

(** ** The named remote procedures                                        *)

Lemma assoc_assoc_set_eq k v props : assoc k (assoc_set k v props) = Some v.
Proof.
  induction props as [|[k' v'] props IH]; simpl.
  - now rewrite String.eqb_refl.
  - destruct (String.eqb k k') eqn:E; simpl; rewrite ?String.eqb_refl, ?E;
      [reflexivity | exact IH].
Qed.

Lemma assoc_assoc_set_ne k k' v props :
  k <> k' -> assoc k' (assoc_set k v props) = assoc k' props.
Proof.
  intros Hne. induction props as [|[k0 v0] props IH]; simpl.
  - destruct (String.eqb_spec k' k); [congruence | reflexivity].
  - destruct (String.eqb_spec k k0) as [->|N]; simpl.
    + destruct (String.eqb_spec k' k0); [congruence | reflexivity].
    + destruct (String.eqb k' k0); [reflexivity | exact IH].
Qed.

Lemma get_prop_assoc_set k v props :
  get_prop k (JObj (assoc_set k v props)) = v /\
  forall k', k' <> k ->
    get_prop k' (JObj (assoc_set k v props)) = get_prop k' (JObj props).
Proof.
  split; simpl.
  - now rewrite assoc_assoc_set_eq.
  - intros k' Hne. rewrite assoc_assoc_set_ne; [reflexivity | congruence].
Qed.

Lemma multicastServers_api_step env actionName params st :
  String.eqb actionName "history" = false ->
  exists n,
    (multicastServers env actionName params None st).1
    = add_events (sdkCalls actionName params (take n (apiUrls env))) st.
Proof.
  intros Ha.
  destruct (multicastServers_api_trace env actionName params None st Ha)
    as (n & Hn & _). now exists n.
Qed.







(** *** Registering and renewing names *)

Lemma find_fa_name_none name l :
  List.find (fun a => js_strict_eq (fa_name a) (JStr name)) l = None <->
  JStr name ∉ map fa_name l.
Proof.
  induction l as [|a l IH]; simpl.
  - split; [intros _; apply not_elem_of_nil | reflexivity].
  - destruct (js_strict_eq_str (fa_name a) name) as [E|N].
    + split; [discriminate|]. intros H. exfalso. apply H. rewrite E. left.
    + rewrite IH, not_elem_of_cons. split; [auto | now intros [_ H]].
Qed.

Lemma find_fd_name_none name l :
  List.find (fun d => js_strict_eq (fd_name d) (JStr name)) l = None <->
  JStr name ∉ map fd_name l.
Proof.
  induction l as [|a l IH]; simpl.
  - split; [intros _; apply not_elem_of_nil | reflexivity].
  - destruct (js_strict_eq_str (fd_name a) name) as [E|N].
    + split; [discriminate|]. intros H. exfalso. apply H. rewrite E. left.
    + rewrite IH, not_elem_of_cons. split; [auto | now intros [_ H]].
Qed.

Lemma js_strict_eq_other name other :
  other <> JStr name -> js_strict_eq (JStr name) other = false.
Proof.
  intros Hne. destruct (js_strict_eq (JStr name) other) eqn:E;
    [|reflexivity].
  apply js_strict_eq_eq in E. congruence.
Qed.

Lemma renewFirstAddress_spec name e l :
  map fa_name (renewFirstAddress (JStr name) e l) = map fa_name l /\
  (JStr name ∈ map fa_name l ->
   List.find (fun a => js_strict_eq (fa_name a) (JStr name))
     (renewFirstAddress (JStr name) e l)
   = Some {| fa_name := JStr name; fa_expiration := e |}) /\
  (forall other, other <> JStr name ->
     List.find (fun a => js_strict_eq (fa_name a) other)
       (renewFirstAddress (JStr name) e l)
     = List.find (fun a => js_strict_eq (fa_name a) other) l).
Proof.
  induction l as [|a l (IH1 & IH2 & IH3)]; simpl.
  - split; [reflexivity|]. split; [|reflexivity].
    intros H. now apply not_elem_of_nil in H.
  - destruct (js_strict_eq_str (fa_name a) name) as [E|N]; simpl.
    + split; [reflexivity|]. split.
      * intros _. rewrite E. simpl. now rewrite String.eqb_refl.
      * intros other Ho. rewrite E.
        now rewrite (js_strict_eq_other name other Ho).
    + split; [now rewrite IH1|]. split.
      * intros H. apply elem_of_cons in H as [H|H]; [congruence|].
        rewrite (js_strict_eq_str_neq _ _ N). auto.
      * intros other Ho. destruct (js_strict_eq (fa_name a) other); auto.
Qed.

Lemma renewFirstDomain_spec name e l :
  map fd_name (renewFirstDomain (JStr name) e l) = map fd_name l /\
  map fd_isPublic (renewFirstDomain (JStr name) e l) = map fd_isPublic l /\
  (forall d,
     List.find (fun d => js_strict_eq (fd_name d) (JStr name)) l = Some d ->
     List.find (fun d => js_strict_eq (fd_name d) (JStr name))
       (renewFirstDomain (JStr name) e l)
     = Some {| fd_name := JStr name; fd_expiration := e;
               fd_isPublic := fd_isPublic d |}) /\
  (forall other, other <> JStr name ->
     List.find (fun d => js_strict_eq (fd_name d) other)
       (renewFirstDomain (JStr name) e l)
     = List.find (fun d => js_strict_eq (fd_name d) other) l).
Proof.
  induction l as [|a l (IH1 & IH2 & IH3 & IH4)]; simpl.
  - repeat split; try reflexivity. discriminate.
  - destruct (js_strict_eq_str (fd_name a) name) as [E|N]; simpl.
    + split; [reflexivity|]. split; [reflexivity|]. split.
      * intros d Hd. injection Hd as Hd. subst d.
        rewrite E. simpl. now rewrite String.eqb_refl.
      * intros other Ho. rewrite E.
        now rewrite (js_strict_eq_other name other Ho).
    + split; [now rewrite IH1|]. split; [now rewrite IH2|]. split.
      * intros d H. rewrite (js_strict_eq_str_neq _ _ N). auto.
      * intros other Ho. destruct (js_strict_eq (fd_name a) other); auto.
Qed.

(** A registration or renewal up to its last step: either a request
    failed, and only the trace grew, or both were answered and the last
    step runs on the engine with the two requests in its trace, [maxFee]
    among the parameters and the answer to the second request. *)
Lemma withMaxFee_then endPoints env actionName params
  (k : list (string * jsval) -> Response -> M Response) st :
  String.eqb actionName "history" = false ->
  let run :=
    (let! params := withMaxFee endPoints env actionName params in
     let! res := multicastServers env actionName (JObj params) None in
     k params res) st in
  (exists evs e, run = (add_events evs st, Throw e)) \/
  (exists evs fee res s1,
     multicastServers env actionName (JObj (assoc_set "maxFee" fee params))
       None s1
     = (add_events evs st, Ok res) /\
     run = k (assoc_set "maxFee" fee params) res (add_events evs st)).
Proof.
  intros Ha. cbv zeta. unfold withMaxFee, bind, ret.
  destruct (multicastServers_api_step env "getFee"
              (JObj [("endPoint"%string, endPoints actionName)]) st eq_refl)
    as (n & Hn).
  destruct (multicastServers env "getFee" _ None st) as [s1 [feeRes|e]];
    simpl in Hn; subst s1; [|left; eauto].
  destruct (multicastServers_api_step env actionName
              (JObj (assoc_set "maxFee" (resp_fee feeRes) params))
              (add_events (sdkCalls "getFee"
                             (JObj [("endPoint"%string,
                                     endPoints actionName)])
                             (take n (apiUrls env))) st) Ha) as (m & Hm).
  destruct (multicastServers env actionName _ None _) as [s2 [res|e]] eqn:E;
    simpl in Hm; subst s2; rewrite add_events_app in *.
  - right. do 4 eexists. split; [exact E | reflexivity].
  - left. eauto.
Qed.

(** X16: registering an address for this wallet (no owner key given, or
    the wallet's own) leaves the address in the local list: a name already
    there keeps its entry, a new one is appended with the expiration that
    is handed back to the caller, whatever it is, [undefined] for an
    answer that names none, and the wallet is marked dirty; a list without
    duplicate names stays so.  What is handed back are the [expiration]
    and the [fee_collected] of the answer an api node gave to the request
    for that name.  Registering for another owner, or a registration that
    fails, leaves the list and the dirty flag as they were.  The domains,
    the balances and the transactions are never touched. *)
Theorem fioAction_registerFioAddress (endPoints : string -> jsval)
  (env : Env) (params : list (string * jsval)) (st : Engine) (name : string) :
  get_prop "fioAddress" (JObj params) = JStr name ->
  let run := fioAction endPoints env "registerFioAddress" params st in
  let owner := get_prop "ownerPublicKey" (JObj params) in
  let l := fioAddresses (otherData (walletLocalData st)) in
  let l' := fioAddresses (otherData (walletLocalData run.1)) in
  fioDomains (otherData (walletLocalData run.1))
  = fioDomains (otherData (walletLocalData st)) /\
  totalBalances (walletLocalData run.1) = totalBalances (walletLocalData st) /\
  transactionList run.1 = transactionList st /\
  (forall e, run.2 = Throw e ->
     l' = l /\ walletLocalDataDirty run.1 = walletLocalDataDirty st) /\
  (forall res, run.2 = Ok res ->
     (exists apiUrl request answer,
        apiUrl ∈ apiUrls env /\
        genericAction env apiUrl "registerFioAddress" request
        = Returns answer /\
        get_prop "fioAddress" request = JStr name /\
        res = ROther (JObj [("expiration",
                             get_prop "expiration" (resp_object answer));
                            ("feeCollected",
                             get_prop "fee_collected" (resp_object answer))
                           ]%string)) /\
     (js_truthy owner = true -> owner <> JStr (publicKey (keys st)) ->
      l' = l /\ walletLocalDataDirty run.1 = walletLocalDataDirty st) /\
     (js_truthy owner = false \/ owner = JStr (publicKey (keys st)) ->
      JStr name ∈ map fa_name l' /\
      (JStr name ∈ map fa_name l ->
       l' = l /\ walletLocalDataDirty run.1 = walletLocalDataDirty st) /\
      (JStr name ∉ map fa_name l ->
       l' = l ++ [{| fa_name := JStr name;
                     fa_expiration :=
                       get_prop "expiration" (resp_object res) |}] /\
       walletLocalDataDirty run.1 = true) /\
      (NoDup (map fa_name l) -> NoDup (map fa_name l')))).
Proof.
  intros Hname. cbv zeta.
  unfold fioAction.
  change (feeActionMap "registerFioAddress") with (@None (string * string)).
  cbn [String.eqb Ascii.eqb Bool.eqb].
  match goal with
  | |- context [bind (withMaxFee _ _ _ _) (fun p => bind _ (@?k p))] =>
      destruct (withMaxFee_then endPoints env "registerFioAddress" params
                  k st eq_refl)
        as [(evs & e & Hrun) | (evs & fee & res & s1 & Hreq & Hrun)]
  end; cbv zeta beta in Hrun; rewrite Hrun; clear Hrun.
  { simpl. split; [reflexivity|]. split; [reflexivity|].
    split; [reflexivity|]. split; [auto | discriminate]. }
  destruct (multicastServers_ok_source env "registerFioAddress" _ None _ _ res eq_refl
              Hreq)
    as ((u & Hin & Hu) & Hm).
  destruct (get_prop_assoc_set "maxFee" fee params) as [_ Hk].
  assert (exists apiUrl request answer,
            apiUrl ∈ apiUrls env /\
            genericAction env apiUrl "registerFioAddress" request
            = Returns answer /\
            get_prop "fioAddress" request = JStr name /\
            ROther (JObj [("expiration", res_prop "expiration" res);
                          ("feeCollected", res_prop "fee_collected" res)
                         ]%string)
            = ROther (JObj [("expiration",
                             get_prop "expiration" (resp_object answer));
                            ("feeCollected",
                             get_prop "fee_collected" (resp_object answer))
                           ]%string)) as Hanswer.
  { exists u, (JObj (assoc_set "maxFee" fee params)), res.
    split; [exact Hin|]. split; [exact Hu|].
    split; [|reflexivity]. rewrite (Hk "fioAddress"%string) by discriminate.
    exact Hname. }
  rewrite !(Hk "fioAddress"%string), !(Hk "ownerPublicKey"%string), Hname
    by discriminate.
  unfold returnRegistration, registrationResult. rewrite !Hm.
  cbn [keys walletLocalData add_events otherData fioAddresses].
  set (owner := get_prop "ownerPublicKey" (JObj params)).
  set (l := fioAddresses (otherData (walletLocalData st))).
  destruct (js_strict_eq_str owner (publicKey (keys st))) as [Hown|Hown];
    cbn [negb andb]; rewrite ?andb_false_r, ?andb_true_r.
  2: destruct (js_truthy owner) eqn:Ht.
  2:{ simpl. split; [reflexivity|]. split; [reflexivity|].
      split; [reflexivity|]. split; [discriminate|].
      intros r [= <-]. split; [exact Hanswer|]. split; [auto|].
      intros [H|H]; congruence. }
  all: unfold findFioAddress;
    destruct (List.find _ l) as [a|] eqn:Hfind;
    [ assert (JStr name ∈ map fa_name l) as Hisin
        by (destruct (elem_of_str_dec name (map fa_name l)) as [H|H];
            [exact H | apply find_fa_name_none in H; congruence]);
      simpl; fold l; split; [reflexivity|]; split; [reflexivity|];
      split; [reflexivity|]; split; [discriminate|];
      intros r [= <-]; split; [exact Hanswer|];
      split; [intros H1 H2; exfalso; congruence|];
      intros _; split; [exact Hisin|]; split; [auto|];
      split; [intros H; contradiction | auto]
    | apply find_fa_name_none in Hfind;
      simpl; fold l; split; [reflexivity|]; split; [reflexivity|];
      split; [reflexivity|]; split; [discriminate|];
      intros r [= <-]; split; [exact Hanswer|];
      split; [intros H1 H2; exfalso; congruence|];
      intros _; split; [|split; [|split]];
      [ rewrite map_app; apply elem_of_app; right; left
      | intros H; contradiction
      | intros _; split; reflexivity
      | intros Hnd; rewrite map_app; apply NoDup_app; split; [exact Hnd|];
        split; [|apply NoDup_singleton];
        intros x Hx Hx'; apply list_elem_of_singleton in Hx'; simpl in Hx';
        congruence ] ].
Qed.

(** X16, at the synced wallet registering a second address: with nodes
    that answer with an expiration, and with nodes whose answer names
    none, where [undefined] is stored and the wallet marked dirty all the
    same. *)
Lemma fioAction_registerFioAddress_witness :
  let run :=
    fioAction Fixtures.endPoints Fixtures.registrarEnv "registerFioAddress"
      [("fioAddress", JStr "bob@edge")]%string Fixtures.syncedWallet in
  let bare :=
    fioAction Fixtures.endPoints Fixtures.bareRegistrarEnv
      "registerFioAddress"
      [("fioAddress", JStr "bob@edge")]%string Fixtures.syncedWallet in
  fioAddresses (otherData (walletLocalData run.1))
  = [{| fa_name := JStr "alice@edge";
        fa_expiration := JStr "2021-05-01T00:00:00" |};
     {| fa_name := JStr "bob@edge";
        fa_expiration := JStr "2023-05-01T00:00:00" |}] /\
  walletLocalDataDirty run.1 = true /\
  fioAddresses (otherData (walletLocalData bare.1))
  = [{| fa_name := JStr "alice@edge";
        fa_expiration := JStr "2021-05-01T00:00:00" |};
     {| fa_name := JStr "bob@edge"; fa_expiration := JUndefined |}] /\
  walletLocalDataDirty bare.1 = true.
Proof.
  intros run bare.
  assert (JStr "bob@edge"
          ∉ map fa_name
              (fioAddresses
                 (otherData (walletLocalData Fixtures.syncedWallet))))
    as Hnew.
  { intros H. simpl in H. apply list_elem_of_singleton in H. discriminate. }
  assert (forall env res,
            (fioAction Fixtures.endPoints env "registerFioAddress"
               [("fioAddress", JStr "bob@edge")]%string
               Fixtures.syncedWallet).2 = Ok res ->
            fioAddresses
              (otherData
                 (walletLocalData
                    (fioAction Fixtures.endPoints env "registerFioAddress"
                       [("fioAddress", JStr "bob@edge")]%string
                       Fixtures.syncedWallet).1))
            = fioAddresses (otherData (walletLocalData Fixtures.syncedWallet))
              ++ [{| fa_name := JStr "bob@edge";
                     fa_expiration :=
                       get_prop "expiration" (resp_object res) |}] /\
            walletLocalDataDirty
              (fioAction Fixtures.endPoints env "registerFioAddress"
                 [("fioAddress", JStr "bob@edge")]%string
                 Fixtures.syncedWallet).1 = true) as Hreg.
  { intros env res Hres.
    destruct (fioAction_registerFioAddress Fixtures.endPoints env
                [("fioAddress", JStr "bob@edge")]%string
                Fixtures.syncedWallet "bob@edge" eq_refl)
      as (_ & _ & _ & _ & Hok).
    destruct (Hok res Hres) as (_ & _ & Hmine).
    destruct Hmine as (_ & _ & Happ & _); [left; reflexivity|].
    exact (Happ Hnew). }
  destruct (Hreg Fixtures.registrarEnv
              (ROther (JObj [("expiration", JStr "2023-05-01T00:00:00");
                             ("feeCollected", JNum 5)]%string)))
    as [H1 H2]; [vm_compute; reflexivity|].
  destruct (Hreg Fixtures.bareRegistrarEnv
              (ROther (JObj [("expiration", JUndefined);
                             ("feeCollected", JUndefined)]%string)))
    as [H3 H4]; [vm_compute; reflexivity|].
  split; [exact H1|]. split; [exact H2|]. split; [exact H3 | exact H4].
Defined.

(** X17: renewing an address or a domain changes no name and no public
    flag in the local lists.  When the renewal is answered and the name is
    in the list, its first entry carries the expiration of the answer,
    whatever it is, [undefined] for an answer that names none, and the
    wallet is marked dirty; every other name reads as before.  The answer
    is that of an api node to the request for that name: an address
    renewal hands it back as it is, a domain renewal hands back its
    [expiration] and [fee_collected].  When the name is not in the list,
    or the renewal fails, the lists and the dirty flag are as they
    were. *)
Theorem fioAction_renew (endPoints : string -> jsval) (env : Env)
  (params : list (string * jsval)) (st : Engine) (name : string) :
  (get_prop "fioAddress" (JObj params) = JStr name ->
   let run := fioAction endPoints env "renewFioAddress" params st in
   let l := fioAddresses (otherData (walletLocalData st)) in
   let l' := fioAddresses (otherData (walletLocalData run.1)) in
   map fa_name l' = map fa_name l /\
   fioDomains (otherData (walletLocalData run.1))
   = fioDomains (otherData (walletLocalData st)) /\
   (forall other, other <> JStr name ->
      List.find (fun a => js_strict_eq (fa_name a) other) l'
      = List.find (fun a => js_strict_eq (fa_name a) other) l) /\
   (forall res, run.2 = Ok res ->
      (exists apiUrl request,
         apiUrl ∈ apiUrls env /\
         genericAction env apiUrl "renewFioAddress" request = Returns res /\
         get_prop "fioAddress" request = JStr name) /\
      (JStr name ∈ map fa_name l ->
       List.find (fun a => js_strict_eq (fa_name a) (JStr name)) l'
       = Some {| fa_name := JStr name;
                 fa_expiration := get_prop "expiration" (resp_object res) |}
       /\ walletLocalDataDirty run.1 = true)) /\
   (JStr name ∉ map fa_name l \/ (exists e, run.2 = Throw e) ->
    l' = l /\ walletLocalDataDirty run.1 = walletLocalDataDirty st)) /\
  (get_prop "fioDomain" (JObj params) = JStr name ->
   let run := fioAction endPoints env "renewFioDomain" params st in
   let l := fioDomains (otherData (walletLocalData st)) in
   let l' := fioDomains (otherData (walletLocalData run.1)) in
   map fd_name l' = map fd_name l /\
   map fd_isPublic l' = map fd_isPublic l /\
   fioAddresses (otherData (walletLocalData run.1))
   = fioAddresses (otherData (walletLocalData st)) /\
   (forall other, other <> JStr name ->
      List.find (fun d => js_strict_eq (fd_name d) other) l'
      = List.find (fun d => js_strict_eq (fd_name d) other) l) /\
   (forall res, run.2 = Ok res ->
      (exists apiUrl request answer,
         apiUrl ∈ apiUrls env /\
         genericAction env apiUrl "renewFioDomain" request = Returns answer /\
         get_prop "fioDomain" request = JStr name /\
         res = ROther (JObj [("expiration",
                              get_prop "expiration" (resp_object answer));
                             ("feeCollected",
                              get_prop "fee_collected" (resp_object answer))
                            ]%string)) /\
      (JStr name ∈ map fd_name l ->
       exists d,
         List.find (fun d => js_strict_eq (fd_name d) (JStr name)) l'
         = Some d /\
         fd_expiration d = get_prop "expiration" (resp_object res) /\
         walletLocalDataDirty run.1 = true)) /\
   (JStr name ∉ map fd_name l \/ (exists e, run.2 = Throw e) ->
    l' = l /\ walletLocalDataDirty run.1 = walletLocalDataDirty st)).
Proof.
  split; intros Hname; cbv zeta; unfold fioAction.
  - change (feeActionMap "renewFioAddress") with (@None (string * string)).
    cbn [String.eqb Ascii.eqb Bool.eqb].
    match goal with
    | |- context [bind (withMaxFee _ _ _ _) (fun p => bind _ (@?k p))] =>
        destruct (withMaxFee_then endPoints env "renewFioAddress" params
                    k st eq_refl)
          as [(evs & e & Hrun) | (evs & fee & res & s1 & Hreq & Hrun)]
    end; cbv zeta beta in Hrun; rewrite Hrun; clear Hrun.
    { simpl. split; [reflexivity|]. split; [reflexivity|].
      split; [reflexivity|]. split; [discriminate | auto]. }
    destruct (multicastServers_ok_source env "renewFioAddress" _ None _ _ res eq_refl
              Hreq)
      as ((u & Hin & Hu) & Hm).
    destruct (get_prop_assoc_set "maxFee" fee params) as [_ Hk].
    assert (exists apiUrl request,
              apiUrl ∈ apiUrls env /\
              genericAction env apiUrl "renewFioAddress" request
              = Returns res /\
              get_prop "fioAddress" request = JStr name) as Hanswer.
    { exists u, (JObj (assoc_set "maxFee" fee params)).
      split; [exact Hin|]. split; [exact Hu|].
      rewrite (Hk "fioAddress"%string) by discriminate. exact Hname. }
    rewrite !(Hk "fioAddress"%string), Hname by discriminate.
    rewrite !Hm.
    cbn [keys walletLocalData add_events otherData fioAddresses].
    set (l := fioAddresses (otherData (walletLocalData st))).
    unfold findFioAddress.
    destruct (List.find _ l) as [a|] eqn:Hfind.
    + assert (JStr name ∈ map fa_name l) as Hisin
          by (destruct (elem_of_str_dec name (map fa_name l)) as [H|H];
              [exact H | apply find_fa_name_none in H; congruence]).
      simpl. fold l.
      destruct (renewFirstAddress_spec name (res_prop "expiration" res) l)
        as (S1 & S2 & S3).
      split; [exact S1|]. split; [reflexivity|]. split; [exact S3|]. split.
      * intros r [= <-]. split; [exact Hanswer|]. intros _.
        split; [exact (S2 Hisin) | reflexivity].
      * intros [H | (e' & H)]; [contradiction | discriminate].
    + simpl. fold l. split; [reflexivity|]. split; [reflexivity|].
      split; [reflexivity|]. split; [|auto].
      intros r [= <-]. split; [exact Hanswer|].
      intros Hisin. apply find_fa_name_none in Hfind. contradiction.
  - change (feeActionMap "renewFioDomain") with (@None (string * string)).
    cbn [String.eqb Ascii.eqb Bool.eqb].
    match goal with
    | |- context [bind (withMaxFee _ _ _ _) (fun p => bind _ (@?k p))] =>
        destruct (withMaxFee_then endPoints env "renewFioDomain" params
                    k st eq_refl)
          as [(evs & e & Hrun) | (evs & fee & res & s1 & Hreq & Hrun)]
    end; cbv zeta beta in Hrun; rewrite Hrun; clear Hrun.
    { simpl. split; [reflexivity|]. split; [reflexivity|].
      split; [reflexivity|]. split; [reflexivity|].
      split; [discriminate | auto]. }
    destruct (multicastServers_ok_source env "renewFioDomain" _ None _ _ res eq_refl
              Hreq)
      as ((u & Hin & Hu) & Hm).
    destruct (get_prop_assoc_set "maxFee" fee params) as [_ Hk].
    assert (exists apiUrl request answer,
              apiUrl ∈ apiUrls env /\
              genericAction env apiUrl "renewFioDomain" request
              = Returns answer /\
              get_prop "fioDomain" request = JStr name /\
              ROther (JObj [("expiration", res_prop "expiration" res);
                            ("feeCollected", res_prop "fee_collected" res)
                           ]%string)
              = ROther (JObj [("expiration",
                               get_prop "expiration" (resp_object answer));
                              ("feeCollected",
                               get_prop "fee_collected" (resp_object answer))
                             ]%string)) as Hanswer.
    { exists u, (JObj (assoc_set "maxFee" fee params)), res.
      split; [exact Hin|]. split; [exact Hu|].
      split; [|reflexivity]. rewrite (Hk "fioDomain"%string) by discriminate.
      exact Hname. }
    rewrite !(Hk "fioDomain"%string), Hname by discriminate.
    unfold returnRegistration, registrationResult. rewrite !Hm.
    cbn [keys walletLocalData add_events otherData fioDomains].
    set (l := fioDomains (otherData (walletLocalData st))).
    unfold findFioDomain.
    destruct (List.find _ l) as [d|] eqn:Hfind.
    + simpl. fold l.
      destruct (renewFirstDomain_spec name (res_prop "expiration" res) l)
        as (S1 & S2 & S3 & S4).
      split; [exact S1|]. split; [exact S2|]. split; [reflexivity|].
      split; [exact S4|]. split.
      * intros r [= <-]. split; [exact Hanswer|]. intros _.
        eexists. split; [apply (S3 d Hfind)|]. split; reflexivity.
      * intros [H | (e' & H)]; [|discriminate].
        apply find_fd_name_none in H. congruence.
    + simpl. fold l. split; [reflexivity|]. split; [reflexivity|].
      split; [reflexivity|]. split; [reflexivity|]. split; [|auto].
      intros r [= <-]. split; [exact Hanswer|].
      intros Hisin. apply find_fd_name_none in Hfind. contradiction.
Qed.

(** X17, at the synced wallet renewing its address, with nodes that
    answer with an expiration and with nodes whose answer names none, and
    renewing its domain. *)
Lemma fioAction_renew_witness :
  List.find (fun a => js_strict_eq (fa_name a) (JStr "alice@edge"))
    (fioAddresses
       (otherData
          (walletLocalData
             (fioAction Fixtures.endPoints Fixtures.registrarEnv
                "renewFioAddress" [("fioAddress", JStr "alice@edge")]%string
                Fixtures.syncedWallet).1)))
  = Some {| fa_name := JStr "alice@edge";
            fa_expiration := JStr "2023-05-01T00:00:00" |} /\
  List.find (fun a => js_strict_eq (fa_name a) (JStr "alice@edge"))
    (fioAddresses
       (otherData
          (walletLocalData
             (fioAction Fixtures.endPoints Fixtures.bareRegistrarEnv
                "renewFioAddress" [("fioAddress", JStr "alice@edge")]%string
                Fixtures.syncedWallet).1)))
  = Some {| fa_name := JStr "alice@edge"; fa_expiration := JUndefined |} /\
  walletLocalDataDirty
    (fioAction Fixtures.endPoints Fixtures.bareRegistrarEnv
       "renewFioAddress" [("fioAddress", JStr "alice@edge")]%string
       Fixtures.syncedWallet).1 = true /\
  map fd_name
    (fioDomains
       (otherData
          (walletLocalData
             (fioAction Fixtures.endPoints Fixtures.registrarEnv
                "renewFioDomain" [("fioDomain", JStr "edge")]%string
                Fixtures.syncedWallet).1)))
  = [JStr "edge"].
Proof.
  assert (JStr "alice@edge"
          ∈ map fa_name
              (fioAddresses
                 (otherData (walletLocalData Fixtures.syncedWallet))))
    as Hold by (simpl; left).
  split; [|split; [|split]].
  - destruct (proj1 (fioAction_renew Fixtures.endPoints Fixtures.registrarEnv
                       [("fioAddress", JStr "alice@edge")]%string
                       Fixtures.syncedWallet "alice@edge") eq_refl)
      as (Hn & _ & _ & Hok & _).
    destruct (Hok (ROther (JObj [("expiration", JStr "2023-05-01T00:00:00");
                                 ("fee_collected", JNum 5)]%string)))
      as (_ & Hf); [vm_compute; reflexivity|].
    exact (proj1 (Hf Hold)).
  - destruct (proj1 (fioAction_renew Fixtures.endPoints
                       Fixtures.bareRegistrarEnv
                       [("fioAddress", JStr "alice@edge")]%string
                       Fixtures.syncedWallet "alice@edge") eq_refl)
      as (_ & _ & _ & Hok & _).
    destruct (Hok (ROther (JObj [("status", JStr "OK")]%string)))
      as (_ & Hf); [vm_compute; reflexivity|].
    exact (proj1 (Hf Hold)).
  - destruct (proj1 (fioAction_renew Fixtures.endPoints
                       Fixtures.bareRegistrarEnv
                       [("fioAddress", JStr "alice@edge")]%string
                       Fixtures.syncedWallet "alice@edge") eq_refl)
      as (_ & _ & _ & Hok & _).
    destruct (Hok (ROther (JObj [("status", JStr "OK")]%string)))
      as (_ & Hf); [vm_compute; reflexivity|].
    exact (proj2 (Hf Hold)).
  - destruct (proj2 (fioAction_renew Fixtures.endPoints Fixtures.registrarEnv
                       [("fioDomain", JStr "edge")]%string
                       Fixtures.syncedWallet "edge") eq_refl)
      as (Hn & _). exact Hn.
Defined.

(** ** The positions a sync cycle asks for                                *)

Lemma fetchedPositions_app a b :
  fetchedPositions (a ++ b) = fetchedPositions a ++ fetchedPositions b.
Proof. unfold fetchedPositions. apply omap_app. Qed.

Lemma fetchedPositions_fetchCalls params uri urls :
  fetchedPositions (fetchCalls params uri urls)
  = replicate (length urls) (get_prop "pos" params).
Proof.
  induction urls as [|u urls IH]; [reflexivity|].
  simpl. f_equal. exact IH.
Qed.

Lemma processTransaction_positions transfer actor st :
  fetchedPositions (trace (processTransaction transfer actor st).1)
  = fetchedPositions (trace st).
Proof.
  destruct (processTransaction_cases transfer actor st)
    as [-> | (tx & -> & _)]; [reflexivity|].
  unfold addTransaction. simpl. rewrite fetchedPositions_app. simpl.
  now rewrite app_nil_r.
Qed.

Lemma processPage_positions transfers i actor nh st :
  fetchedPositions (trace (processPage transfers i actor nh st).1.1)
  = fetchedPositions (trace st).
Proof.
  revert i nh st. induction transfers as [|t ts IH]; intros i nh st;
    [reflexivity|].
  cbn [processPage].
  pose proof (processTransaction_positions t actor st) as Hp.
  destruct (processTransaction t actor st) as [st1 blockNum]. simpl in Hp.
  destruct (blockNum >? nh); [now rewrite IH|].
  destruct (_ || _); [exact Hp | now rewrite IH].
Qed.

Lemma history_positions env params uri st :
  exists c,
    (c <= length (historyNodeUrls env))%nat /\
    fetchedPositions (trace (multicastServers env "history" params uri st).1)
    = fetchedPositions (trace st) ++ replicate c (get_prop "pos" params).
Proof.
  destruct (multicastServers_history_trace env params uri st) as [n Hn].
  exists (length (take n (historyNodeUrls env))). split.
  - rewrite length_take. lia.
  - rewrite Hn. simpl.
    now rewrite fetchedPositions_app, fetchedPositions_fetchCalls.
Qed.

Lemma pagingLoop_positions fuel env actor pos nh st st' r :
  pagingLoop fuel env actor 10 pos nh st = Some (st', r) ->
  exists counts,
    fetchedPositions (trace st')
    = fetchedPositions (trace st)
      ++ concat (imap (fun i c => replicate c (JNum (pos - 10 * Z.of_nat i)))
                   counts) /\
    Forall (fun c => (c <= length (historyNodeUrls env))%nat) counts /\
    (counts <> [] -> 0 <= pos - 10 * (Z.of_nat (length counts) - 1)).
Proof.
  revert pos nh st. induction fuel as [|fuel IH]; intros pos nh st;
    [discriminate|].
  cbn [pagingLoop]. destruct (Z.ltb_spec pos 0) as [Hneg|Hnn].
  { intros [= <- <-]. exists []. simpl. rewrite app_nil_r.
    split; [reflexivity|]. split; [constructor | congruence]. }
  destruct (historyNodeActions env) as [names|].
  2:{ intros [= <- <-]. exists []. simpl. rewrite app_nil_r.
      split; [reflexivity|]. split; [constructor | congruence]. }
  destruct (history_positions env (transfersParams st pos 10)
              (getTransfers names) st) as (c & Hc & Hpos).
  change (get_prop "pos" (transfersParams st pos 10)) with (JNum pos)
    in Hpos.
  assert (forall s,
            fetchedPositions (trace s)
            = fetchedPositions (trace st) ++ replicate c (JNum pos) ->
            exists counts,
              fetchedPositions (trace s)
              = fetchedPositions (trace st)
                ++ concat (imap (fun i c =>
                                   replicate c (JNum (pos - 10 * Z.of_nat i)))
                             counts) /\
              Forall (fun c => (c <= length (historyNodeUrls env))%nat)
                counts /\
              (counts <> [] ->
               0 <= pos - 10 * (Z.of_nat (length counts) - 1))) as Hone.
  { intros s Hs. exists [c]. simpl. rewrite app_nil_r, Z.sub_0_r.
    split; [exact Hs|]. split; [repeat constructor; exact Hc | lia]. }
  destruct (multicastServers env "history" _ _ st) as [st1 [res|e]];
    simpl in Hpos.
  2:{ intros [= <- <-]. apply Hone, Hpos. }
  destruct res; try (intros [= <- <-]; apply Hone, Hpos).
  destruct (0 <? length (sort_desc transfers))%nat.
  2:{ intros [= <- <-]. apply Hone, Hpos. }
  pose proof (processPage_positions (sort_desc transfers) 0 actor nh st1)
    as Hpage.
  destruct (processPage (sort_desc transfers) 0 actor nh st1)
    as [[st2 nh2] fin]. simpl in Hpage. rewrite Hpos in Hpage.
  destruct fin.
  { intros [= <- <-]. apply Hone, Hpage. }
  intros Hrec. destruct (IH _ _ _ Hrec) as (counts & Hp & Hall & Hb).
  exists (c :: counts). split; [|split].
  - rewrite Hp, Hpage, <- app_assoc. f_equal. simpl.
    rewrite Z.sub_0_r. f_equal. f_equal. apply imap_ext.
    intros i x _. simpl. do 2 f_equal. lia.
  - constructor; assumption.
  - intros _. destruct counts as [|c' counts]; simpl length in *; [lia|].
    specialize (Hb ltac:(discriminate)). lia.
Qed.

(** X18: a sync cycle first asks for the latest action, at position -1,
    and then for pages of transfers.  Page [i] is asked for at position
    [seq - 10 * i], where [seq] is the sequence number of the latest
    action, and no page is asked for at a negative position; each request
    goes to at most every history node once.  Without a latest action no
    page is asked for. *)
Theorem checkTransactions_page_positions (env : Env) (st : Engine) :
  exists st' r seq k counts,
    checkTransactions env st = Some (st', r) /\
    (lastActionSeq env (getActor env (publicKey (keys st))) st).2 = Ok seq /\
    fetchedPositions (trace st')
    = fetchedPositions (trace st) ++ replicate k (JNum (-1))
      ++ concat (imap (fun i c => replicate c (JNum (seq - 10 * Z.of_nat i)))
                   counts) /\
    (k <= length (historyNodeUrls env))%nat /\
    Forall (fun c => (c <= length (historyNodeUrls env))%nat) counts /\
    (counts <> [] ->
     seq <> 0 /\ 0 <= seq - 10 * (Z.of_nat (length counts) - 1)).
Proof.
  assert (exists s0 seq k,
            lastActionSeq env (getActor env (publicKey (keys st))) st
            = (s0, Ok seq) /\
            (k <= length (historyNodeUrls env))%nat /\
            fetchedPositions (trace s0)
            = fetchedPositions (trace st) ++ replicate k (JNum (-1)))
    as (s0 & seq & k & Hl & Hk & Hp0).
  { unfold lastActionSeq, try_catch, bind.
    destruct (historyNodeActions env) as [names|].
    2:{ exists st, 0, O. simpl. rewrite app_nil_r.
        split; [reflexivity|]. split; [lia | reflexivity]. }
    destruct (history_positions env
                (JObj [("account_name",
                        JStr (getActor env (publicKey (keys st))));
                       ("pos", JNum (-1)); ("offset", JNum (-1))]%string)
                (getActions names) st) as (k & Hk & Hp).
    change (get_prop "pos" _) with (JNum (-1)) in Hp.
    destruct (multicastServers env "history" _ _ st) as [s1 [res|e]];
      simpl in Hp; [|now exists s1, 0, k].
    destruct res; try (now exists s1, 0, k).
    destruct account_action_seqs as [|a q]; [now exists s1, 0, k|].
    now exists s1, a, k. }
  rewrite checkTransactions_commit. unfold historyWalk. rewrite Hl.
  destruct (Z.eqb_spec seq 0) as [Hz|Hnz].
  - rewrite Z.gtb_ltb.
    assert (watermark s0 = watermark st) as ->.
    { destruct (lastActionSeq_walk env
                  (getActor env (publicKey (keys st))) st) as (W & _).
      rewrite Hl in W. simpl in W. now rewrite W. }
    rewrite Z.ltb_irrefl. exists s0, (Ok true), seq, k, [].
    simpl. rewrite app_nil_r.
    repeat (split; [reflexivity || assumption|]).
    split; [constructor | congruence].
  - destruct (pagingLoop_total (pagingFuel seq) env
                (getActor env (publicKey (keys st))) seq (watermark st) s0)
      as [[s1 r1] Hloop]; try apply pagingFuel_enough.
    rewrite Hloop.
    destruct (pagingLoop_positions _ _ _ _ _ _ _ _ Hloop)
      as (counts & Hp & Hall & Hb).
    rewrite Hp0, <- app_assoc in Hp.
    destruct r1 as [cand|e].
    + destruct (cand >? watermark s1); do 2 eexists; exists seq, k, counts;
        (split; [reflexivity|]); simpl;
        repeat (split; [reflexivity || assumption|]); auto.
    + do 2 eexists. exists seq, k, counts. split; [reflexivity|].
      repeat (split; [reflexivity || assumption|]). auto.
Qed.

(** X19: a sync cycle that cannot learn the latest action asks for no
    page, adds no transaction and leaves [walletLocalData] alone, and
    [checkTransactionsInnerLoop] nevertheless marks the FIO transactions
    as checked and returns normally.  With settings that have no
    [historyNodeActions], as the default ones, line 366 fails before any
    node is asked and the cycle makes no request at all; with settings
    that name the requests, and no history node answering, each node is
    asked once. *)
Theorem checkTransactionsInnerLoop_unreachable (env : Env) (st : Engine) :
  (historyNodeActions env = None ->
   exists st',
     checkTransactionsInnerLoop env st = Some (st', Ok JUndefined) /\
     tokenCheckTransactionsStatus st' !! "FIO"%string = Some 1 /\
     walletLocalData st' = walletLocalData st /\
     walletLocalDataDirty st' = walletLocalDataDirty st /\
     transactionList st' = transactionList st /\
     addedTxs (trace st') = addedTxs (trace st) /\
     fetchedPositions (trace st') = fetchedPositions (trace st)) /\
  (forall names es,
     historyNodeActions env = Some names ->
     Forall2 (fun u e =>
                fetchCors env
                  (u ++ "history/" ++ default "" (getActions names))%string
                  (JObj [("account_name",
                          JStr (getActor env (publicKey (keys st))));
                         ("pos", JNum (-1)); ("offset", JNum (-1))]%string)
                = Throws e) (historyNodeUrls env) es ->
     exists st',
       checkTransactionsInnerLoop env st = Some (st', Ok JUndefined) /\
       tokenCheckTransactionsStatus st' !! "FIO"%string = Some 1 /\
       walletLocalData st' = walletLocalData st /\
       walletLocalDataDirty st' = walletLocalDataDirty st /\
       transactionList st' = transactionList st /\
       addedTxs (trace st') = addedTxs (trace st) /\
       fetchedPositions (trace st')
       = fetchedPositions (trace st)
         ++ replicate (length (historyNodeUrls env)) (JNum (-1))).
Proof.
  split.
  - intros Hnone.
    unfold checkTransactionsInnerLoop, checkTransactions, lastActionSeq,
      try_catch, bind.
    rewrite Hnone. cbn [throw ret Z.eqb].
    eexists. split; [reflexivity|].
    destruct (0 <? length _)%nat; cbn;
      rewrite lookup_insert_eq, ?addedTxs_app, ?fetchedPositions_app; cbn;
      rewrite ?app_nil_r; repeat split.
  - intros names es Hsome Hes.
    pose proof (historyWaterfall_unreachable env _
                  (getActions names) _ _ [] st Hes) as Hq.
    change (asyncWaterfall_from
              (map (historyAttempt env
                      (JObj [("account_name",
                              JStr (getActor env (publicKey (keys st))));
                             ("pos", JNum (-1));
                             ("offset", JNum (-1))]%string)
                      (getActions names))
                 (historyNodeUrls env)) [] st)
      with (multicastServers env "history"
              (JObj [("account_name",
                      JStr (getActor env (publicKey (keys st))));
                     ("pos", JNum (-1)); ("offset", JNum (-1))]%string)
              (getActions names) st) in Hq.
    unfold checkTransactionsInnerLoop, checkTransactions, lastActionSeq,
      try_catch, bind.
    rewrite Hsome, Hq. cbn [ret Z.eqb].
    destruct (fetchCalls_silent
                (JObj [("account_name",
                        JStr (getActor env (publicKey (keys st))));
                       ("pos", JNum (-1)); ("offset", JNum (-1))]%string)
                (getActions names) (historyNodeUrls env))
      as [Ha _].
    eexists. split; [reflexivity|].
    destruct (0 <? length _)%nat; cbn;
      rewrite lookup_insert_eq, ?addedTxs_app, ?fetchedPositions_app,
        ?fetchedPositions_fetchCalls, Ha; cbn; rewrite ?app_nil_r;
      repeat split.
Qed.

(** X19, at the default settings, where no request is made, and at
    settings that name the requests, with the only history node
    unreachable. *)
Lemma checkTransactionsInnerLoop_unreachable_witness :
  (exists st',
     checkTransactionsInnerLoop Fixtures.offline (Fixtures.wallet 100 ∅)
     = Some (st', Ok JUndefined) /\
     tokenCheckTransactionsStatus st' !! "FIO"%string = Some 1 /\
     fetchedPositions (trace st') = []) /\
  (exists st',
     checkTransactionsInnerLoop Fixtures.deafHistoryEnv
       (Fixtures.wallet 100 ∅)
     = Some (st', Ok JUndefined) /\
     tokenCheckTransactionsStatus st' !! "FIO"%string = Some 1 /\
     fetchedPositions (trace st') = [JNum (-1)]).
Proof.
  split.
  - destruct (proj1 (checkTransactionsInnerLoop_unreachable Fixtures.offline
                       (Fixtures.wallet 100 ∅)) eq_refl)
      as (st' & Hrun & Hs & _ & _ & _ & _ & Hp).
    exists st'. split; [exact Hrun|]. split; [exact Hs | exact Hp].
  - destruct (proj2 (checkTransactionsInnerLoop_unreachable
                       Fixtures.deafHistoryEnv (Fixtures.wallet 100 ∅))
                Fixtures.historyActions [Fixtures.unreachable] eq_refl)
      as (st' & Hrun & Hs & _ & _ & _ & _ & Hp).
    { constructor; [reflexivity | constructor]. }
    exists st'. split; [exact Hrun|]. split; [exact Hs | exact Hp].
Defined.

(** ** The names part of an account poll                                  *)

Lemma mergeFioNames_otherData fio_addresses fio_domains st :
  otherData (walletLocalData (mergeFioNames fio_addresses fio_domains st))
  = {| highestTxHeight := highestTxHeight (otherData (walletLocalData st));
       feeTransactions := feeTransactions (otherData (walletLocalData st));
       fioAddresses :=
         mergedAddresses fio_addresses
           (fioAddresses (otherData (walletLocalData st)));
       fioDomains :=
         mergedDomains fio_domains
           (fioDomains (otherData (walletLocalData st))) |}.
Proof.
  destruct (mergeFioNames_shape fio_addresses fio_domains st)
    as (changed & -> & _).
  now destruct changed.
Qed.

Lemma mergeFioNames_transactionList fio_addresses fio_domains st :
  transactionList (mergeFioNames fio_addresses fio_domains st)
  = transactionList st.
Proof.
  destruct (mergeFioNames_shape fio_addresses fio_domains st)
    as (changed & -> & _).
  now destruct changed.
Qed.

Lemma updateBalance_otherData tk balance st :
  otherData (walletLocalData (updateBalance tk balance st).1)
  = otherData (walletLocalData st) /\
  keys (updateBalance tk balance st).1 = keys st /\
  transactionList (updateBalance tk balance st).1 = transactionList st.
Proof.
  unfold updateBalance. cbv zeta.
  destruct (totalBalances (walletLocalData st) !! tk);
    destruct (bns_eq balance _) as [[|]|]; repeat split.
Qed.

(** The loops over the entries of a typed answer, read off the object it
    is, are the two folds of [mergeFioNames]. *)
Lemma forFioAddresses_typed fio_addresses isChanged st :
  forFioAddresses
    (map (fun a => JObj [("fio_address", JStr (fio_address a));
                         ("expiration", JStr (ra_expiration a))]%string)
       fio_addresses) isChanged st
  = let '(st', isChanged') :=
      fold_left
        (fun '(st, isChanged) fioAddress =>
           let '(l, changed) :=
             mergeFioAddress fioAddress
               (fioAddresses (otherData (walletLocalData st))) in
           (set_fioAddresses l st, isChanged || changed))
        fio_addresses (st, isChanged) in
    (st', Ok isChanged').
Proof.
  unfold mergeFioAddress. revert isChanged st.
  induction fio_addresses as [|a fa IH]; intros isChanged st;
    [reflexivity|].
  cbn [map forFioAddresses fold_left].
  change (js_member "fio_address"
            (JObj [("fio_address", JStr (fio_address a));
                   ("expiration", JStr (ra_expiration a))]%string))
    with (Some (JStr (fio_address a))).
  change (js_member "expiration"
            (JObj [("fio_address", JStr (fio_address a));
                   ("expiration", JStr (ra_expiration a))]%string))
    with (Some (JStr (ra_expiration a))).
  cbv iota beta.
  destruct (mergeAddress _ _ _) as [l changed]. apply IH.
Qed.

Lemma forFioDomains_typed fio_domains isChanged st :
  forFioDomains
    (map (fun d => JObj [("fio_domain", JStr (fio_domain d));
                         ("expiration", JStr (rd_expiration d));
                         ("is_public", JNum (is_public d))]%string)
       fio_domains) isChanged st
  = let '(st', isChanged') :=
      fold_left
        (fun '(st, isChanged) fioDomain =>
           let '(l, changed) :=
             mergeFioDomain fioDomain
               (fioDomains (otherData (walletLocalData st))) in
           (set_fioDomains l st, isChanged || changed))
        fio_domains (st, isChanged) in
    (st', Ok isChanged').
Proof.
  unfold mergeFioDomain. revert isChanged st.
  induction fio_domains as [|d fd IH]; intros isChanged st;
    [reflexivity|].
  cbn [map forFioDomains fold_left].
  change (js_member "fio_domain"
            (JObj [("fio_domain", JStr (fio_domain d));
                   ("expiration", JStr (rd_expiration d));
                   ("is_public", JNum (is_public d))]%string))
    with (Some (JStr (fio_domain d))).
  change (js_member "expiration"
            (JObj [("fio_domain", JStr (fio_domain d));
                   ("expiration", JStr (rd_expiration d));
                   ("is_public", JNum (is_public d))]%string))
    with (Some (JStr (rd_expiration d))).
  change (js_member "is_public"
            (JObj [("fio_domain", JStr (fio_domain d));
                   ("expiration", JStr (rd_expiration d));
                   ("is_public", JNum (is_public d))]%string))
    with (Some (JNum (is_public d))).
  cbv iota beta. cbn [js_truthy].
  destruct (mergeDomain _ _ _ _) as [l changed]. apply IH.
Qed.

Lemma mergeNamesAnswer_typed fio_addresses fio_domains st :
  mergeNamesAnswer (resp_object (RFioNames fio_addresses fio_domains)) st
  = (mergeFioNames fio_addresses fio_domains st, Ok tt).
Proof.
  unfold mergeNamesAnswer, mergeFioNames, bind. simpl.
  rewrite forFioAddresses_typed.
  destruct (fold_left _ fio_addresses (st, false)) as [s1 c1].
  rewrite forFioDomains_typed.
  destruct (fold_left _ fio_domains (s1, c1)) as [s2 c2].
  now destruct c2.
Qed.

(** What the loops make of the lists depends on the lists alone. *)
Lemma forFioAddresses_lists items isChanged s s' :
  fioAddresses (otherData (walletLocalData s))
  = fioAddresses (otherData (walletLocalData s')) ->
  fioAddresses (otherData (walletLocalData (forFioAddresses items isChanged s).1))
  = fioAddresses
      (otherData (walletLocalData (forFioAddresses items isChanged s').1)) /\
  (forFioAddresses items isChanged s).2
  = (forFioAddresses items isChanged s').2.
Proof.
  revert isChanged s s'. induction items as [|item items IH];
    intros isChanged s s' Hl; simpl; [now split|].
  destruct (js_member "fio_address" item) as [name|],
           (js_member "expiration" item) as [expiration|];
    try (now split).
  rewrite Hl. destruct (mergeAddress name expiration _) as [l changed].
  now apply IH.
Qed.

Lemma forFioDomains_lists items isChanged s s' :
  fioDomains (otherData (walletLocalData s))
  = fioDomains (otherData (walletLocalData s')) ->
  fioDomains (otherData (walletLocalData (forFioDomains items isChanged s).1))
  = fioDomains
      (otherData (walletLocalData (forFioDomains items isChanged s').1)) /\
  (forFioDomains items isChanged s).2 = (forFioDomains items isChanged s').2.
Proof.
  revert isChanged s s'. induction items as [|item items IH];
    intros isChanged s s' Hl; simpl; [now split|].
  destruct (js_member "fio_domain" item) as [name|],
           (js_member "expiration" item) as [expiration|],
           (js_member "is_public" item) as [is_public|];
    try (now split).
  rewrite Hl. destruct (mergeDomain name expiration _ _) as [l changed].
  now apply IH.
Qed.

Lemma mergeNamesAnswer_otherData result s s' :
  otherData (walletLocalData s) = otherData (walletLocalData s') ->
  otherData (walletLocalData (mergeNamesAnswer result s).1)
  = otherData (walletLocalData (mergeNamesAnswer result s').1).
Proof.
  intros Hod. unfold mergeNamesAnswer, bind.
  destruct (js_member "fio_addresses" result ≫= js_iterate) as [items|];
    [|exact Hod].
  destruct (forFioAddresses_lists items false s s') as [HA HAr];
    [now rewrite Hod|].
  destruct (forFioAddresses_shape items false s) as [la Hla].
  destruct (forFioAddresses_shape items false s') as [la' Hla'].
  destruct (forFioAddresses items false s) as [s1 r1],
           (forFioAddresses items false s') as [s1' r1'].
  simpl in *. subst s1 s1' r1'. simpl in HA. subst la'.
  assert (otherData (walletLocalData (set_fioAddresses la s))
          = otherData (walletLocalData (set_fioAddresses la s'))) as Hod1
      by (simpl; now rewrite Hod).
  destruct r1 as [c1|e]; [|exact Hod1].
  destruct (js_member "fio_domains" result ≫= js_iterate) as [ditems|];
    [|exact Hod1].
  destruct (forFioDomains_lists ditems c1 (set_fioAddresses la s)
              (set_fioAddresses la s')) as [HD HDr];
    [simpl; now rewrite Hod|].
  destruct (forFioDomains_shape ditems c1 (set_fioAddresses la s))
    as [ld Hld].
  destruct (forFioDomains_shape ditems c1 (set_fioAddresses la s'))
    as [ld' Hld'].
  destruct (forFioDomains ditems c1 (set_fioAddresses la s)) as [s2 r2],
           (forFioDomains ditems c1 (set_fioAddresses la s')) as [s2' r2'].
  simpl in *. subst s2 s2' r2'. simpl in HD. subst ld'.
  destruct r2 as [[|]|e]; simpl; now rewrite Hod.
Qed.

(** A loop over entries none of which is [undefined] or [null] runs to its
    end. *)
Lemma forFioAddresses_complete items isChanged st :
  Forall (fun item => item <> JUndefined /\ item <> JNull) items ->
  exists isChanged',
    forFioAddresses items isChanged st
    = (set_fioAddresses
         (fold_left
            (fun l item =>
               (mergeAddress (get_prop "fio_address" item)
                  (get_prop "expiration" item) l).1)
            items (fioAddresses (otherData (walletLocalData st)))) st,
       Ok isChanged').
Proof.
  intros Hall. revert isChanged st.
  induction Hall as [|item items [Hu Hn] Hall IH]; intros isChanged st.
  - exists isChanged. simpl. unfold ret. now rewrite set_fioAddresses_same.
  - cbn [forFioAddresses fold_left].
    assert (forall k, js_member k item = Some (get_prop k item)) as Hm
        by (intros k; destruct item; try reflexivity; congruence).
    rewrite !Hm.
    destruct (mergeAddress _ _ _) as [l changed].
    destruct (IH (isChanged || changed) (set_fioAddresses l st))
      as (c & ->).
    exists c. reflexivity.
Qed.

(** The names half of an account poll, by what the names query gave. *)
Lemma checkFioNames_names env st :
  (checkFioNames env st).1
  = match multicastServers env "getFioNames"
            (JObj [("fioPublicKey", JStr (publicKey (keys st)))]%string)
            None st with
    | (st1, Ok result) => (mergeNamesAnswer (resp_object result) st1).1
    | (st1, Throw _) => st1
    end.
Proof.
  unfold checkFioNames, try_catch, bind.
  destruct (multicastServers env "getFioNames" _ None st)
    as [st1 [result|e]]; [|reflexivity].
  assert (forall v,
            (let (st', r) := mergeNamesAnswer v st1 in
             match r with
             | Ok a => (st', Ok a)
             | Throw _ => ret tt st'
             end).1 = (mergeNamesAnswer v st1).1) as Hany
      by (intros v; now destruct (mergeNamesAnswer v st1) as [s [[]|e]]).
  destruct result; try apply Hany.
  now rewrite mergeNamesAnswer_typed.
Qed.

Lemma checkAccountInnerLoop_names_state env st :
  (checkAccountInnerLoop env st).2 = Ok tt ->
  exists s2,
    otherData (walletLocalData s2) = otherData (walletLocalData st) /\
    keys s2 = keys st /\
    transactionList s2 = transactionList st /\
    (checkAccountInnerLoop env st).1 = (checkFioNames env s2).1.
Proof.
  unfold checkAccountInnerLoop, bind, modify, try_catch. cbv zeta.
  set (cc := info_currencyCode env).
  set (st0 := match totalBalances (walletLocalData st) !! cc with
              | Some _ => st
              | None => set_totalBalance cc "0" st
              end).
  assert (otherData (walletLocalData st0) = otherData (walletLocalData st)
          /\ keys st0 = keys st /\ transactionList st0 = transactionList st)
    as (A1 & A2 & A3)
      by (subst st0; destruct (_ !! cc); repeat split).
  destruct (multicastServers_api_step env "getFioBalance" JUndefined st0
              eq_refl) as (n & Hn).
  destruct (multicastServers env "getFioBalance" JUndefined None st0)
    as [s1 [res|e]]; simpl in Hn; subst s1; unfold ret.
  - destruct (updateBalance_otherData cc (js_to_string (resp_balance res))
                (add_events (sdkCalls "getFioBalance" JUndefined
                               (take n (apiUrls env))) st0))
      as (B1 & B2 & B3).
    destruct (updateBalance cc _ _) as [s2 [[]|e]]; [|discriminate].
    intros _. exists s2. simpl in B1, B2, B3. rewrite B1, B2, B3. auto.
  - destruct (updateBalance_otherData cc "0"
                (add_events (sdkCalls "getFioBalance" JUndefined
                               (take n (apiUrls env))) st0))
      as (B1 & B2 & B3).
    destruct (updateBalance cc _ _) as [s2 [[]|e']]; [|discriminate].
    intros _. exists s2. simpl in B1, B2, B3. rewrite B1, B2, B3. auto.
Qed.

(** X20: in an account poll that returns normally, the address and domain
    lists become what the two loops of lines 563-602 make of the answer
    the first answering api node gives for the wallet's public key, a loop
    that fails keeping what it merged before: for an answer of the shape
    of a names list, the merge of its names; for an answer whose
    [fio_addresses] cannot be iterated, and when the query fails, the
    lists as they were; for an answer whose [fio_addresses] are all
    objects, the address list with every one of them merged, also when
    [fio_domains] is missing, in which case the domains stay as they
    were.  The watermark and the transactions are not touched either
    way. *)
Theorem checkAccountInnerLoop_names (env : Env) (st : Engine) :
  (checkAccountInnerLoop env st).2 = Ok tt ->
  let st' := (checkAccountInnerLoop env st).1 in
  let od := otherData (walletLocalData st) in
  let od' := otherData (walletLocalData st') in
  match (multicastServers env "getFioNames"
           (JObj [("fioPublicKey", JStr (publicKey (keys st)))]%string)
           None st).2 with
  | Throw _ => od' = od
  | Ok result =>
      od' = otherData
              (walletLocalData
                 (mergeNamesAnswer (resp_object result) st).1) /\
      (forall fio_addresses fio_domains,
         result = RFioNames fio_addresses fio_domains ->
         od' = otherData
                 (walletLocalData
                    (mergeFioNames fio_addresses fio_domains st))) /\
      (js_member "fio_addresses" (resp_object result) ≫= js_iterate = None ->
       od' = od) /\
      (forall items,
         js_member "fio_addresses" (resp_object result) ≫= js_iterate
         = Some items ->
         Forall (fun item => item <> JUndefined /\ item <> JNull) items ->
         fioAddresses od'
         = fold_left
             (fun l item =>
                (mergeAddress (get_prop "fio_address" item)
                   (get_prop "expiration" item) l).1)
             items (fioAddresses od) /\
         (js_member "fio_domains" (resp_object result) ≫= js_iterate = None ->
          fioDomains od' = fioDomains od))
  end /\
  highestTxHeight (otherData (walletLocalData st'))
  = highestTxHeight (otherData (walletLocalData st)) /\
  transactionList st' = transactionList st.
Proof.
  intros Hok. cbv zeta.
  destruct (checkAccountInnerLoop_names_state env st Hok)
    as (s2 & B1 & B2 & B3 & ->).
  split.
  - rewrite checkFioNames_names, B2.
    rewrite (multicastServers_result_state env "getFioNames" _ None st s2).
    destruct (multicastServers_api_step env "getFioNames"
                (JObj [("fioPublicKey", JStr (publicKey (keys st)))]%string)
                s2 eq_refl) as (m & Hm).
    destruct (multicastServers env "getFioNames" _ None s2)
      as [s3 [result|e]]; simpl in Hm; subst s3; cbn [fst snd];
      [|exact B1].
    assert (otherData
              (walletLocalData
                 (mergeNamesAnswer (resp_object result)
                    (add_events
                       (sdkCalls "getFioNames"
                          (JObj [("fioPublicKey",
                                  JStr (publicKey (keys st)))]%string)
                          (take m (apiUrls env))) s2)).1)
            = otherData
                (walletLocalData
                   (mergeNamesAnswer (resp_object result) st).1)) as Hsame
        by (apply mergeNamesAnswer_otherData; exact B1).
    rewrite Hsame. split; [reflexivity|]. split; [|split].
    + intros fa fd ->. now rewrite mergeNamesAnswer_typed.
    + intros Hnone. unfold mergeNamesAnswer. now rewrite Hnone.
    + intros items Hitems Hall. unfold mergeNamesAnswer, bind.
      rewrite Hitems.
      destruct (forFioAddresses_complete items false st Hall) as (c & ->).
      destruct (js_member "fio_domains" (resp_object result) ≫= js_iterate)
        as [ditems|].
      * split; [|discriminate].
        destruct (forFioDomains_shape ditems c
                    (set_fioAddresses
                       (fold_left
                          (fun l item =>
                             (mergeAddress (get_prop "fio_address" item)
                                (get_prop "expiration" item) l).1)
                          items
                          (fioAddresses (otherData (walletLocalData st))))
                       st)) as [ld Hld].
        destruct (forFioDomains ditems c _) as [s4 [[|]|e]];
          simpl in Hld; subst s4; reflexivity.
      * split; [reflexivity | intros _; reflexivity].
  - destruct (checkFioNames_shape env s2) as (n & la & ld & d & ->).
    destruct d; simpl; rewrite B1, B3; auto.
Qed.

(** X20, at the synced wallet: with nodes that report one more address,
    and with nodes whose answer lists the new address and no domains,
    where the address is merged all the same and the domains are left. *)
Lemma checkAccountInnerLoop_names_witness :
  map fa_name
    (fioAddresses
       (otherData
          (walletLocalData
             (checkAccountInnerLoop Fixtures.namesEnv
                Fixtures.syncedWallet).1)))
  = [JStr "alice@edge"; JStr "bob@edge"] /\
  map fa_name
    (fioAddresses
       (otherData
          (walletLocalData
             (checkAccountInnerLoop Fixtures.addressesOnlyEnv
                Fixtures.syncedWallet).1)))
  = [JStr "alice@edge"; JStr "bob@edge"] /\
  fioDomains
    (otherData
       (walletLocalData
          (checkAccountInnerLoop Fixtures.addressesOnlyEnv
             Fixtures.syncedWallet).1))
  = fioDomains (otherData (walletLocalData Fixtures.syncedWallet)).
Proof.
  split; [|].
  - destruct (checkAccountInnerLoop_names Fixtures.namesEnv
                Fixtures.syncedWallet) as (H & _).
    { vm_compute. reflexivity. }
    cbv zeta in H.
    change ((multicastServers Fixtures.namesEnv "getFioNames"
               (JObj [("fioPublicKey",
                       JStr (publicKey (keys Fixtures.syncedWallet)))]%string)
               None Fixtures.syncedWallet).2)
      with (@Ok Response
              (RFioNames [Fixtures.remoteAlice; Fixtures.remoteBob]
                 [Fixtures.remoteEdgePublic])) in H.
    destruct H as (_ & H & _).
    rewrite (H _ _ eq_refl), mergeFioNames_otherData. reflexivity.
  - destruct (checkAccountInnerLoop_names Fixtures.addressesOnlyEnv
                Fixtures.syncedWallet) as (H & _).
    { vm_compute. reflexivity. }
    cbv zeta in H.
    change ((multicastServers Fixtures.addressesOnlyEnv "getFioNames"
               (JObj [("fioPublicKey",
                       JStr (publicKey (keys Fixtures.syncedWallet)))]%string)
               None Fixtures.syncedWallet).2)
      with (@Ok Response (ROther Fixtures.addressesOnly)) in H.
    destruct H as (_ & _ & _ & H).
    destruct (H [JObj [("fio_address", JStr "bob@edge");
                       ("expiration", JStr "2022-06-01T00:00:00")]%string]
                eq_refl) as [Ha Hd].
    { constructor; [split; discriminate | constructor]. }
    split; [rewrite Ha; reflexivity | exact (Hd eq_refl)].
Defined.

(** ** Reading the names and quoting a fee                                *)

Lemma checkAccountInnerLoop_lists env st fio_addresses fio_domains :
  (checkAccountInnerLoop env st).2 = Ok tt ->
  (multicastServers env "getFioNames"
     (JObj [("fioPublicKey", JStr (publicKey (keys st)))]%string)
     None st).2 = Ok (RFioNames fio_addresses fio_domains) ->
  fioAddresses (otherData (walletLocalData (checkAccountInnerLoop env st).1))
  = mergedAddresses fio_addresses
      (fioAddresses (otherData (walletLocalData st))) /\
  fioDomains (otherData (walletLocalData (checkAccountInnerLoop env st).1))
  = mergedDomains fio_domains
      (fioDomains (otherData (walletLocalData st))).
Proof.
  intros Hok Hnames.
  destruct (checkAccountInnerLoop_names_state env st Hok)
    as (s2 & B1 & B2 & _ & ->).
  rewrite checkFioNames_names, B2.
  rewrite (multicastServers_result_state env "getFioNames" _ None st s2)
    in Hnames.
  destruct (multicastServers_api_step env "getFioNames"
              (JObj [("fioPublicKey", JStr (publicKey (keys st)))]%string)
              s2 eq_refl) as (m & Hm).
  destruct (multicastServers env "getFioNames" _ None s2) as [s3 r].
  simpl in Hm, Hnames. subst s3 r.
  rewrite mergeNamesAnswer_typed.
  cbn [fst snd]. rewrite !mergeFioNames_otherData. simpl.
  now rewrite B1.
Qed.

(** X21: the three readers hand out the cached lists and change nothing.
    After an account poll that returned normally and whose names query
    was answered, [getFioAddressNames] lists every address name the node
    reported and every name it listed before, without duplicates if it had
    none, and [getFioAddresses] and [getFioDomains] give entries for the
    same names. *)
Theorem getFioAddressNames_after_poll (env : Env) (st : Engine)
  (fio_addresses : list RemoteFioAddress)
  (fio_domains : list RemoteFioDomain) :
  (checkAccountInnerLoop env st).2 = Ok tt ->
  (multicastServers env "getFioNames"
     (JObj [("fioPublicKey", JStr (publicKey (keys st)))]%string)
     None st).2 = Ok (RFioNames fio_addresses fio_domains) ->
  let st' := (checkAccountInnerLoop env st).1 in
  exists names addresses domains,
    getFioAddressNames st' = (st', Ok names) /\
    getFioAddresses st' = (st', Ok addresses) /\
    getFioDomains st' = (st', Ok domains) /\
    names = map fa_name addresses /\
    (forall r, r ∈ fio_addresses -> JStr (fio_address r) ∈ names) /\
    (forall r, r ∈ fio_domains ->
               JStr (fio_domain r) ∈ map fd_name domains) /\
    (forall name, (getFioAddressNames st).2 = Ok name ->
                  forall x, x ∈ name -> x ∈ names) /\
    (forall before, (getFioAddressNames st).2 = Ok before ->
                    NoDup before -> NoDup names).
Proof.
  intros Hok Hnames st'.
  destruct (checkAccountInnerLoop_lists env st fio_addresses fio_domains
              Hok Hnames) as [HA HD].
  fold st' in HA, HD.
  destruct (mergedAddresses_names fio_addresses
              (fioAddresses (otherData (walletLocalData st))))
    as (A1 & A2 & A3).
  destruct (mergedDomains_names fio_domains
              (fioDomains (otherData (walletLocalData st))))
    as (_ & D2 & _).
  unfold getFioAddressNames, getFioAddresses, getFioDomains.
  do 3 eexists. split; [reflexivity|]. split; [reflexivity|].
  split; [reflexivity|]. split; [reflexivity|].
  rewrite HA, HD. split; [exact A2|]. split; [exact D2|]. split.
  - intros name [= <-]. exact A1.
  - intros before [= <-]. exact A3.
Qed.

(** X21, at the synced wallet and nodes that report one more address. *)
Lemma getFioAddressNames_after_poll_witness :
  exists names,
    getFioAddressNames
      (checkAccountInnerLoop Fixtures.namesEnv Fixtures.syncedWallet).1
    = ((checkAccountInnerLoop Fixtures.namesEnv Fixtures.syncedWallet).1,
       Ok names) /\
    JStr "bob@edge" ∈ names /\ JStr "alice@edge" ∈ names.
Proof.
  destruct (getFioAddressNames_after_poll Fixtures.namesEnv
              Fixtures.syncedWallet
              [Fixtures.remoteAlice; Fixtures.remoteBob]
              [Fixtures.remoteEdgePublic])
    as (names & addresses & domains & Hn & _ & _ & _ & Hin & _ & Hold & _);
    [vm_compute; reflexivity | reflexivity |].
  exists names. split; [exact Hn|]. split.
  - apply (Hin Fixtures.remoteBob). right. left.
  - apply (Hold [JStr "alice@edge"] eq_refl). left.
Defined.

(** X22: [getFee] asks the api nodes for the fee of the action's end
    point, with an empty address when none is given, and changes nothing
    in the engine.  What it returns is the fee one of the api nodes
    quoted for exactly that request; when the request fails it fails with
    the same error. *)
Theorem getFee_quote (endPoints : string -> jsval) (env : Env)
  (actionName : string) (fioAddress : option string) (st : Engine) :
  let params :=
    JObj [("endPoint", endPoints actionName);
          ("fioAddress", JStr (default "" fioAddress))]%string in
  (exists n,
     (getFee endPoints env actionName fioAddress st).1
     = add_events (sdkCalls "getFee" params (take n (apiUrls env))) st) /\
  (forall fee,
     (getFee endPoints env actionName fioAddress st).2 = Ok fee ->
     exists apiUrl res,
       apiUrl ∈ apiUrls env /\
       genericAction env apiUrl "getFee" params = Returns res /\
       fee = resp_fee res) /\
  (forall e,
     (getFee endPoints env actionName fioAddress st).2 = Throw e <->
     (multicastServers env "getFee" params None st).2 = Throw e).
Proof.
  intros params. unfold getFee, bind, ret. fold params.
  destruct (multicastServers_api_step env "getFee" params st eq_refl)
    as (n & Hn).
  destruct (multicastServers env "getFee" params None st) as [s1 [res|e]]
    eqn:E; simpl in Hn; subst s1; simpl.
  - split; [now exists n|]. split.
    + intros fee [= <-].
      destruct (multicastServers_ok_source env "getFee" params None st _
                  res eq_refl E) as ((u & Hin & Hu) & _).
      exists u, res. split; [exact Hin|]. split; [exact Hu | reflexivity].
    + intros e. split; discriminate.
  - split; [now exists n|]. split; [discriminate|].
    intros e'. split; intros [= <-]; reflexivity.
Qed.

(** X22, at nodes that quote a fee of 5 for a transfer. *)
Lemma getFee_quote_witness :
  exists apiUrl res,
    apiUrl ∈ apiUrls (Fixtures.feeEnv 5) /\
    genericAction (Fixtures.feeEnv 5) apiUrl "getFee"
      (JObj [("endPoint", Fixtures.endPoints "transferTokens");
             ("fioAddress", JStr "")]%string)
    = Returns res /\
    JNum 5 = resp_fee res.
Proof.
  apply (proj1 (proj2 (getFee_quote Fixtures.endPoints (Fixtures.feeEnv 5)
                         "transferTokens" None (Fixtures.wallet 0 ∅)))
           (JNum 5)).
  vm_compute. reflexivity.
Defined.
